(** * Verum forensic engine: case evidence and narrative indexing core

    A shallow embedding of the storage layer (IndexedDBStorage, FirebaseSync,
    StorageManager), of the persistence wrappers and the narrative merge of
    index.tsx, and of the offline forensics engine, with the properties of
    the specification stated and settled over it; then of the digest
    formatting, the error diagnostics, the persistence step of handleSubmit
    and the people block of the master case file, with further properties
    of the code. *)

From Stdlib Require Import ZArith Ascii String.
From stdpp Require Import gmap strings list pretty sorting.

#[local] Set Warnings "-register-all,-clear-no-such-hyp".
#[local] Open Scope Z_scope.

(** ** JavaScript values

    Records travel through the code as untyped objects ([any]).  A value is
    one of the primitives, a byte buffer (the [ArrayBuffer] of an evidence
    file), an array or an object.  The numbers that occur in the modelled
    code are integers (sizes, counts, line numbers, heading levels, key
    generators), so [JNum] carries a [Z]. *)

Inductive JsVal : Type :=
  | JUndef
  | JNull
  | JBool (b : bool)
  | JNum (z : Z)
  | JStr (s : string)
  | JBytes (bs : list Byte.byte)
  | JArr (l : list JsVal)
  | JObj (o : gmap string JsVal).

Abbreviation JsObj := (gmap string JsVal).

(** [o.k]: reading a property that is absent gives [undefined]. *)
Definition prop (o : JsObj) (k : string) : JsVal := default JUndef (o !! k).

(** ToBoolean. *)
Definition truthy (v : JsVal) : bool :=
  match v with
  | JUndef | JNull => false
  | JBool b => b
  | JNum z => negb (z =? 0)
  | JStr s => negb (bool_decide (s = ""))
  | JBytes _ | JArr _ | JObj _ => true
  end.

(** [a || b]. *)
Definition jsOr (a b : JsVal) : JsVal := if truthy a then a else b.

(** ToString, as a template literal applies it. *)
Fixpoint toStr (v : JsVal) : string :=
  match v with
  | JUndef => "undefined"
  | JNull => "null"
  | JBool true => "true"
  | JBool false => "false"
  | JNum z => pretty z
  | JStr s => s
  | JBytes _ => "[object ArrayBuffer]"
  | JArr l =>
      String.concat ","
        (map (fun x => match x with JUndef | JNull => "" | _ => toStr x end) l)
  | JObj _ => "[object Object]"
  end.

(** [{...base, ...over}]: the fields of [over] win. *)
Definition spread (base over : JsObj) : JsObj := over ∪ base.

(** [object[key] = value] on an object made by an object literal.  The key
    __proto__ is the accessor of the prototype, which every such object
    inherits: assigning to it sets or keeps the prototype and adds no
    property to the object. *)
Definition assign (object : JsObj) (key : string) (value : JsVal) : JsObj :=
  if bool_decide (key = "__proto__") then object else <[key := value]> object.

Definition LF : string := String "010"%char "".
Definition DQ : string := String "034"%char "".

(** ** NarrativeIndexer: merging fact lists (index.tsx, mergeNarrativeIndices) *)

(** The template literal
    [`${item.type}-${item.subtype || item.level}-${item.value || item.title}`]. *)
Definition dedupKey (item : JsObj) : string :=
  toStr (prop item "type") +:+ "-" +:+
  toStr (jsOr (prop item "subtype") (prop item "level")) +:+ "-" +:+
  toStr (jsOr (prop item "value") (prop item "title")).

(** The loop state: the array [merged] and the set [seen]. *)
Definition MergeState : Type := list JsObj * gset string.

(** Body of the inner [index.forEach]. *)
Definition mergeItem (st : MergeState) (item : JsObj) : MergeState :=
  let key := dedupKey item in
  if bool_decide (key ∈ st.2) then st
  else (st.1 ++ [item], {[key]} ∪ st.2).

(** Body of the outer [indices.forEach]; [None] is an index that is null or
    undefined, which [if (!index) return] skips. *)
Definition mergeIndex (st : MergeState) (index : option (list JsObj)) : MergeState :=
  match index with
  | None => st
  | Some items => foldl mergeItem st items
  end.

Definition mergeNarrativeIndices (indices : list (option (list JsObj))) : list JsObj :=
  (foldl mergeIndex ([], ∅) indices).1.

(** The same loop on entries of any kind, as the index of a stored report
    can hold them.  Reading [item.type] and the other four properties of
    the key gives undefined on a number, a string, a boolean, an array or a
    buffer, which have no such property; the entry itself is what is
    pushed.  (On null and undefined the read throws: see entriesOfReport.)
    The lists here are arrays, which are never skipped. *)
Definition propsOf (item : JsVal) : JsObj :=
  match item with
  | JObj o => o
  | _ => ∅
  end.

Definition mergeEntry (st : list JsVal * gset string) (item : JsVal)
    : list JsVal * gset string :=
  let key := dedupKey (propsOf item) in
  if bool_decide (key ∈ st.2) then st
  else (st.1 ++ [item], {[key]} ∪ st.2).

Definition mergeEntries (indices : list (list JsVal)) : list JsVal :=
  (foldl (foldl mergeEntry) ([], ∅) indices).1.

(** The dedup keys of a fact list, in order. *)
Definition keysOf (items : list JsObj) : list string := dedupKey <$> items.

(** The three components of the key, kept apart. *)
Definition keyTriple (item : JsObj) : string * string * string :=
  (toStr (prop item "type"),
   toStr (jsOr (prop item "subtype") (prop item "level")),
   toStr (jsOr (prop item "value") (prop item "title"))).

(** The shapes extractNarrativeIndex gives an entry: a section of level 2,
    a subsection of level 3, or an entity that is a person, a date or an
    amount. *)
Definition extractedShape (item : JsObj) : Prop :=
  (prop item "type" = JStr "section" ∧ prop item "subtype" = JUndef
   ∧ prop item "level" = JNum 2)
  ∨ (prop item "type" = JStr "subsection" ∧ prop item "subtype" = JUndef
     ∧ prop item "level" = JNum 3)
  ∨ (prop item "type" = JStr "entity"
     ∧ (prop item "subtype" = JStr "person" ∨ prop item "subtype" = JStr "date"
        ∨ prop item "subtype" = JStr "amount")).

(** All the facts of the input lists, in argument order. *)
Definition allItems (indices : list (option (list JsObj))) : list JsObj :=
  concat (default [] <$> indices).

(** What the loop maintains: [seen] holds exactly the keys of [merged],
    and [merged] has no two entries with the same key. *)
Definition mergeInv (st : MergeState) : Prop :=
  NoDup (keysOf st.1) ∧ ∀ k, k ∈ st.2 ↔ k ∈ keysOf st.1.

(** ** The platform

    What the browser supplies and the code only calls: date formatting and
    parsing, SHA-256, the comparison of IndexedDB keys, the text of the
    properties every object inherits, and the regular-expression scan of
    extractNarrativeIndex, which no property below looks into.  Everything
    is stated for an arbitrary platform. *)

Class Platform := {
  (** [Date.prototype.toISOString] of an instant in milliseconds. *)
  toISOString : Z → string;
  (** [Date.prototype.toLocaleString] of an instant. *)
  toLocaleString : Z → string;
  (** [new Date(v).getTime()]; [None] is NaN. *)
  dateGetTime : JsVal → option Z;
  (** Hex digest of [crypto.subtle.digest('SHA-256', ...)] over the encoded text. *)
  sha256hex : string → string;
  (** index.tsx, extractNarrativeIndex. *)
  extractNarrativeIndex : string → list JsObj;
  (** [indexedDB.cmp(a, b)]: the order IndexedDB keeps its keys in; negative,
      zero or positive. *)
  idbCmp : JsVal → JsVal → Z;
  (** [String({}[name])] when [name] is a property that every plain object
      inherits (constructor, toString, ...): the text of a native function,
      which differs between browsers and is never empty.  [None] when no
      such property is inherited. *)
  inheritedText : string → option string;
}.

(** [Array.prototype.sort] with a comparator: the stable sort. *)
Fixpoint insertSorted {A} (cmp : A → A → Z) (x : A) (l : list A) : list A :=
  match l with
  | [] => [x]
  | y :: l' => if cmp x y <=? 0 then x :: y :: l' else y :: insertSorted cmp x l'
  end.

Definition stableSort {A} (cmp : A → A → Z) (l : list A) : list A :=
  foldr (insertSorted cmp) [] l.

(** [forEach] over [l] with a body that pushes [g x] onto an array. *)
Definition forEachPush {A B} (g : A → list B) (init : list B) (l : list A) : list B :=
  foldl (λ acc x, acc ++ g x) init l.

(** ** The world: local database, replica, console, clock

    The three object stores of VerumOmnisDB, the optional Firestore replica
    ([None] when Firebase is not configured), the console, and the
    environment: the system clock and the outcome of every database request.
    [tick] counts the interactions with the environment so far; the n-th
    interaction reads [clock n], or is rejected with [fault n] (local
    database) or [replicaFault n] (Firestore). *)

Record World := mkWorld {
  reports : list JsObj;
  evidence_files : list JsObj;
  case_metadata : gmap string JsObj;
  reportsKeyGen : Z;
  evidenceKeyGen : Z;
  firestore : option (gmap string JsObj);
  console : list string;
  tick : nat;
  clock : nat → Z;
  fault : nat → option string;
  replicaFault : nat → option string;
}.

Definition bumpTick (w : World) : World :=
  mkWorld (reports w) (evidence_files w) (case_metadata w) (reportsKeyGen w)
    (evidenceKeyGen w) (firestore w) (console w) (S (tick w)) (clock w)
    (fault w) (replicaFault w).

Definition setReports (rs : list JsObj) (gen : Z) (w : World) : World :=
  mkWorld rs (evidence_files w) (case_metadata w) gen
    (evidenceKeyGen w) (firestore w) (console w) (tick w) (clock w)
    (fault w) (replicaFault w).

Definition setEvidence (es : list JsObj) (gen : Z) (w : World) : World :=
  mkWorld (reports w) es (case_metadata w) (reportsKeyGen w)
    gen (firestore w) (console w) (tick w) (clock w)
    (fault w) (replicaFault w).

Definition setCaseMetadata (m : gmap string JsObj) (w : World) : World :=
  mkWorld (reports w) (evidence_files w) m (reportsKeyGen w)
    (evidenceKeyGen w) (firestore w) (console w) (tick w) (clock w)
    (fault w) (replicaFault w).

Definition setFirestore (docs : gmap string JsObj) (w : World) : World :=
  mkWorld (reports w) (evidence_files w) (case_metadata w) (reportsKeyGen w)
    (evidenceKeyGen w) (Some docs) (console w) (tick w) (clock w)
    (fault w) (replicaFault w).

Definition pushConsole (line : string) (w : World) : World :=
  mkWorld (reports w) (evidence_files w) (case_metadata w) (reportsKeyGen w)
    (evidenceKeyGen w) (firestore w) (console w ++ [line]) (tick w) (clock w)
    (fault w) (replicaFault w).

(** ** Asynchronous code: a state and error monad

    An [async] function is run from a world to a settled promise, fulfilled
    ([Ok]) or rejected with an error ([Err]), and the world it leaves. *)

Inductive Result (A : Type) : Type :=
  | Ok (a : A)
  | Err (e : string).
Arguments Ok {A} a.
Arguments Err {A} e.

Definition Async (A : Type) : Type := World → Result A * World.

Definition ret {A} (a : A) : Async A := λ w, (Ok a, w).

Definition bind {A B} (m : Async A) (k : A → Async B) : Async B :=
  λ w, match m w with
       | (Ok a, w') => k a w'
       | (Err e, w') => (Err e, w')
       end.

(** [try { body } catch (e) { handler }]. *)
Definition tryCatch {A} (body : Async A) (handler : string → Async A) : Async A :=
  λ w, match body w with
       | (Ok a, w') => (Ok a, w')
       | (Err e, w') => handler e w'
       end.

Definition liftResult {A} (r : Result A) : Async A := λ w, (r, w).

Notation "'await' x ← m ; k" := (bind m (fun x => k))
  (at level 10, x name, m at level 100, k at level 200,
   format "'[v' 'await'  x  ←  m ; '/' k ']'").
Notation "'run' m ; k" := (bind m (fun _ => k))
  (at level 10, m at level 100, k at level 200,
   format "'[v' 'run'  m ; '/' k ']'").

Definition getWorld : Async World := λ w, (Ok w, w).

Definition modify (f : World → World) : Async unit := λ w, (Ok (), f w).

(** [new Date()] and [Date.now()]: one reading of the clock. *)
Definition dateNow : Async Z := λ w, (Ok (clock w (tick w)), bumpTick w).

(** Opening the database and running one transaction on it: rejected as a
    whole when the environment says so, and then nothing is written. *)
Definition idbRequest : Async unit :=
  λ w, match fault w (tick w) with
       | Some e => (Err e, bumpTick w)
       | None => (Ok (), bumpTick w)
       end.

(** [console.error(msg, e)] and [console.warn(msg, e)]. *)
Definition consoleLog (msg e : string) : Async unit :=
  modify (pushConsole (msg +:+ " " +:+ e)).

(** ** IndexedDBStorage: the authoritative local store *)

Module IndexedDBStorage.
Section WithPlatform.
Context `{Platform}.

(** [store.add(record)] on a store with key path id and a key generator:
    a record without an id gets the next generated key; an explicit
    number moves the generator past it.  (A rejected add, a duplicate key
    for one, is a fault of the request.)  The stores are kept in insertion
    order. *)
Definition withKey (gen : Z) (record : JsObj) : JsObj * Z :=
  match prop record "id" with
  | JUndef => (<["id" := JNum gen]> record, gen + 1)
  | JNum k => (record, Z.max gen (k + 1))
  | _ => (record, gen)
  end.

(** [{ ...data, caseId, timestamp: new Date().toISOString() }]. *)
Definition stamped (data : JsObj) (caseId : string) (now : Z) : JsObj :=
  <["timestamp" := JStr (toISOString now)]> (<["caseId" := JStr caseId]> data).

Definition saveReport (caseId : string) (data : JsObj) : Async unit :=
  run idbRequest;
  await now ← dateNow;
  modify (λ w, let '(r, gen) := withKey (reportsKeyGen w) (stamped data caseId now) in
               setReports (reports w ++ [r]) gen w).

(** [IDBKeyRange.only(caseId)] on the caseId index. *)
Definition hasCaseId (caseId : string) (r : JsObj) : bool :=
  match prop r "caseId" with
  | JStr s => bool_decide (s = caseId)
  | _ => false
  end.

(** The comparator of getReports; a NaN difference counts as 0. *)
Definition byTimestamp (a b : JsObj) : Z :=
  match dateGetTime (prop a "timestamp"), dateGetTime (prop b "timestamp") with
  | Some x, Some y => x - y
  | _, _ => 0
  end.

(** The order in which a store and its indexes list records: ascending
    primary key.  The stores of the model are kept in the order the records
    were added, which is another order once a record was added with an id
    of its own. *)
Definition byPrimaryKey (a b : JsObj) : Z := idbCmp (prop a "id") (prop b "id").

Definition inKeyOrder (records : list JsObj) : list JsObj :=
  stableSort byPrimaryKey records.

Definition getReports (caseId : string) : Async (list JsObj) :=
  run idbRequest;
  await w ← getWorld;
  ret (stableSort byTimestamp
         (inKeyOrder (List.filter (hasCaseId caseId) (reports w)))).

Definition saveEvidence (caseId : string) (data : JsObj) : Async unit :=
  run idbRequest;
  await now ← dateNow;
  modify (λ w, let '(r, gen) := withKey (evidenceKeyGen w) (stamped data caseId now) in
               setEvidence (evidence_files w ++ [r]) gen w).

(** The records of the evidence store get their id from the key generator
    alone (the data StorageManager.saveEvidence builds has no id), so the
    order they were added in is their key order. *)
Definition getEvidence (caseId : string) : Async (list JsObj) :=
  run idbRequest;
  await w ← getWorld;
  ret (List.filter (hasCaseId caseId) (evidence_files w)).

(** [store.put({ ...data, caseId })] on the store keyed by caseId: the
    record under that key is replaced. *)
Definition saveCaseMetadata (caseId : string) (data : JsObj) : Async unit :=
  run idbRequest;
  modify (λ w, setCaseMetadata
                 (<[caseId := <["caseId" := JStr caseId]> data]> (case_metadata w)) w).

(** [request.result || null]; [None] is null. *)
Definition getCaseMetadata (caseId : string) : Async (option JsObj) :=
  run idbRequest;
  await w ← getWorld;
  ret (case_metadata w !! caseId).

(** The caseId of a stored report when it passes [filter(Boolean)].  The
    field is always a string: saveReport writes its string parameter. *)
Definition caseIdOf (r : JsObj) : option string :=
  match prop r "caseId" with
  | JStr s => if bool_decide (s = "") then None else Some s
  | _ => None
  end.

(** [Array.from(new Set(l))]: first occurrences, in order. *)
Fixpoint distinct (l : list string) : list string :=
  match l with
  | [] => []
  | x :: l' => x :: List.filter (λ y, negb (bool_decide (y = x))) (distinct l')
  end.

Definition getAllCases : Async (list string) :=
  run idbRequest;
  await w ← getWorld;
  ret (distinct (omap caseIdOf (inKeyOrder (reports w)))).

End WithPlatform.
End IndexedDBStorage.

(** ** FirebaseSync: the optional replica *)

Module FirebaseSync.
Section WithPlatform.
Context `{Platform}.

(** [this.db !== null]. *)
Definition isAvailable : Async bool :=
  λ w, (Ok (match firestore w with Some _ => true | None => false end), w).

(** [setDoc(ref, data)] and [setDoc(ref, data, { merge: true })] on the
    document at [path]. *)
Definition setDoc (path : string) (data : JsObj) (merge : bool) : Async unit :=
  λ w, match firestore w, replicaFault w (tick w) with
       | None, _ => (Err "Firestore is not initialised", w)
       | Some _, Some e => (Err e, bumpTick w)
       | Some docs, None =>
           let old := default ∅ (docs !! path) in
           (Ok (), setFirestore
                     (<[path := if merge then spread old data else data]> docs)
                     (bumpTick w))
       end.

(** [data.id || Date.now().toString()]. *)
Definition docId (data : JsObj) : Async string :=
  if truthy (prop data "id") then ret (toStr (prop data "id"))
  else await now ← dateNow; ret (pretty now).

Definition syncReport (caseId : string) (data : JsObj) : Async unit :=
  await available ← isAvailable;
  if negb available then ret ()
  else tryCatch
         (await id ← docId data;
          await now ← dateNow;
          setDoc ("cases/" +:+ caseId +:+ "/reports/" +:+ id)
                 (<["syncedAt" := JNum now]> data) false)
         (consoleLog "Firebase sync failed (continuing with local storage)").

Definition syncEvidence (caseId : string) (data : JsObj) : Async unit :=
  await available ← isAvailable;
  if negb available then ret ()
  else tryCatch
         (await id ← docId data;
          let metadata := delete "binaryData" data in
          await now ← dateNow;
          setDoc ("cases/" +:+ caseId +:+ "/evidence/" +:+ id)
                 (<["note" := JStr "Binary data stored locally only"]>
                    (<["syncedAt" := JNum now]> metadata)) false)
         (consoleLog "Firebase evidence sync failed").

Definition syncMetadata (caseId : string) (data : JsObj) : Async unit :=
  await available ← isAvailable;
  if negb available then ret ()
  else tryCatch
         (await now ← dateNow;
          setDoc ("cases/" +:+ caseId) (<["syncedAt" := JNum now]> data) true)
         (consoleLog "Firebase metadata sync failed").

End WithPlatform.
End FirebaseSync.

(** A browser [File]: its size is the number of its bytes. *)
Module File.
Record t := mk {
  name : string;
  type : string;
  lastModified : Z;
  bytes : list Byte.byte;
}.
Definition size (f : t) : Z := Z.of_nat (length (bytes f)).
End File.

(** ** StorageManager: local store first, then the replica *)

Module StorageManager.
Section WithPlatform.
Context `{Platform}.

(** [metadata] is the optional fourth argument; [None] is undefined. *)
Definition saveReport (caseId content : string) (evidence : list string)
    (metadata : option JsObj) : Async unit :=
  let data :=
    spread {[ "content" := JStr content; "evidence" := JArr (JStr <$> evidence) ]}
           (default ∅ metadata) in
  run IndexedDBStorage.saveReport caseId data;
  await available ← FirebaseSync.isAvailable;
  if available then FirebaseSync.syncReport caseId data else ret ().

Definition getReports (caseId : string) : Async (list JsObj) :=
  IndexedDBStorage.getReports caseId.

Definition saveEvidence (caseId : string) (file : File.t) (fileHash : string)
    (metadata : JsVal) : Async unit :=
  let arrayBuffer := File.bytes file in
  let data : JsObj :=
    {[ "fileName" := JStr (File.name file);
       "fileType" := JStr (File.type file);
       "fileSize" := JNum (File.size file);
       "fileHash" := JStr fileHash;
       "binaryData" := JBytes arrayBuffer;
       "metadata" := metadata ]} in
  run IndexedDBStorage.saveEvidence caseId data;
  await available ← FirebaseSync.isAvailable;
  if available then FirebaseSync.syncEvidence caseId data else ret ().

Definition getEvidence (caseId : string) : Async (list JsObj) :=
  IndexedDBStorage.getEvidence caseId.

Definition saveCaseMetadata (caseId : string) (metadata : JsObj) : Async unit :=
  run IndexedDBStorage.saveCaseMetadata caseId metadata;
  await available ← FirebaseSync.isAvailable;
  if available then FirebaseSync.syncMetadata caseId metadata else ret ().

Definition getCaseMetadata (caseId : string) : Async (option JsObj) :=
  IndexedDBStorage.getCaseMetadata caseId.

Definition getAllCases : Async (list string) :=
  IndexedDBStorage.getAllCases.

(** [`<BINARY ${e.fileSize} bytes>`]. *)
Definition placeholder (fileSize : JsVal) : string :=
  "<BINARY " +:+ toStr fileSize +:+ " bytes>".

(** [{ ...e, binaryData: `<BINARY ${e.fileSize} bytes>` }]. *)
Definition redact (e : JsObj) : JsObj :=
  <["binaryData" := JStr (placeholder (prop e "fileSize"))]> e.

Definition nullable (o : option JsObj) : JsVal :=
  match o with
  | Some m => JObj m
  | None => JNull
  end.

(** One round of the loop of exportAllData: the entry of one case. *)
Definition exportCase (caseId : string) : Async JsVal :=
  await reports ← getReports caseId;
  await evidence ← getEvidence caseId;
  await metadata ← getCaseMetadata caseId;
  ret (JObj {[ "reports" := JArr (JObj <$> reports);
               "evidence" := JArr ((λ e, JObj (redact e)) <$> evidence);
               "metadata" := nullable metadata ]}).

(** [for (const caseId of cases) { exportData.cases[caseId] = ... }]. *)
Fixpoint exportCases (cases : list string) (acc : gmap string JsVal)
    : Async (gmap string JsVal) :=
  match cases with
  | [] => ret acc
  | caseId :: rest =>
      await entry ← exportCase caseId;
      exportCases rest (assign acc caseId entry)
  end.

Definition exportAllData : Async JsVal :=
  await cases ← getAllCases;
  await now ← dateNow;
  await entries ← exportCases cases ∅;
  ret (JObj {[ "cases" := JObj entries; "exportedAt" := JStr (toISOString now) ]}).

End WithPlatform.
End StorageManager.

(** ** index.tsx: the persistence wrappers *)

Section Wrappers.
Context `{Platform}.

Definition saveEvidenceFileToDB (caseId : string) (file : File.t)
    (fileHash : string) (metadata : JsVal) : Async unit :=
  if bool_decide (caseId = "") then ret ()
  else tryCatch
         (StorageManager.saveEvidence caseId file fileHash metadata)
         (consoleLog "Failed to save evidence file").

(** [item.type] on an entry that is null or undefined throws a TypeError;
    every other entry can be read. *)
Definition readable (item : JsVal) : bool :=
  match item with
  | JUndef | JNull => false
  | _ => true
  end.

(** [r.narrativeIndex || []], as mergeNarrativeIndices iterates it.  A value
    that is truthy and not an array has no forEach: a TypeError. *)
Definition entriesOfReport (r : JsObj) : Result (list JsVal) :=
  match jsOr (prop r "narrativeIndex") (JArr []) with
  | JArr l =>
      if forallb readable l then Ok l
      else Err "TypeError: cannot read properties of the index entry"
  | _ => Err "TypeError: index.forEach is not a function"
  end.

(** [reports.map(r => r.narrativeIndex || [])], up to the first index that
    makes the merge throw. *)
Fixpoint entriesOfReports (rs : list JsObj) : Result (list (list JsVal)) :=
  match rs with
  | [] => Ok []
  | r :: rest =>
      match entriesOfReport r with
      | Err e => Err e
      | Ok index =>
          match entriesOfReports rest with
          | Err e => Err e
          | Ok indices => Ok (index :: indices)
          end
      end
  end.

Definition saveReportToDB (caseId content : string) (evidence : list string)
    : Async unit :=
  if bool_decide (caseId = "") then ret ()
  else tryCatch
         (let reportHash := sha256hex content in
          let narrativeIndex := extractNarrativeIndex content in
          run StorageManager.saveReport caseId content evidence
                (Some {[ "reportHash" := JStr reportHash;
                         "narrativeIndex" := JArr (JObj <$> narrativeIndex) ]});
          await reports ← StorageManager.getReports caseId;
          await indices ← liftResult (entriesOfReports reports);
          let merged := mergeEntries indices in
          await now ← dateNow;
          StorageManager.saveCaseMetadata caseId
            {[ "reportCount" := JNum (Z.of_nat (length reports));
               "evidenceCount" := JNum (Z.of_nat (length evidence));
               "lastReportHash" := JStr reportHash;
               "narrativeIndex" := JArr merged;
               "updatedAt" := JStr (toISOString now) ]})
         (consoleLog "Failed to save report").

End Wrappers.

(** ** The offline forensics engine (index.tsx, runOfflineForensics) *)

(** An entry of [localForensics]: name, MIME type ([None] when the field is
    missing), size in bytes, last modification and SHA-256 digest.
    [lastModified] holds the instant [new Date(f.lastModified).getTime()]
    evaluates to, in milliseconds: the field is written by toISOString from
    the file's own millisecond stamp, and parsing it gives that stamp back. *)
Module Forensic.
Record t := mk {
  name : string;
  type : option string;
  size : Z;
  lastModified : Z;
  hash : string;
}.
End Forensic.



Definition msPerHour : Z := 1000 * 60 * 60.

(** [diffHours > 24] with [diffHours = diffMs / (1000 * 60 * 60)].  A
    difference of two dates is a whole number of milliseconds; the double
    quotient is 24 exactly at one day and above it for any larger
    difference, so the test is the comparison of the integers. *)
Definition exceedsDay (diffMs : Z) : bool := 24 * msPerHour <? diffMs.

(** [Math.round(diffHours)]: the nearest integer, upwards on a tie.  Half
    hours are exact in double precision and any other quotient is further
    from a tie than the rounding error of the division. *)
Definition roundHours (diffMs : Z) : Z := (2 * diffMs + msPerHour) / (2 * msPerHour).

(** A value of the object [fileTypes]: a number, or the string that
    [+ 1] makes of a value that is not a number. *)
Inductive Count :=
  | Times (n : Z)
  | Text (s : string).

(** The own properties of an object in the order they were created. *)
Fixpoint getOwn {A} (key : string) (object : list (string * A)) : option A :=
  match object with
  | [] => None
  | (k, v) :: rest => if bool_decide (k = key) then Some v else getOwn key rest
  end.

(** Writing an own property: an existing one keeps its place, a new one
    comes last. *)
Fixpoint setOwn {A} (key : string) (value : A) (object : list (string * A))
    : list (string * A) :=
  match object with
  | [] => [(key, value)]
  | (k, v) :: rest =>
      if bool_decide (k = key) then (k, value) :: rest
      else (k, v) :: setOwn key value rest
  end.

Definition digitOf (c : ascii) : option Z :=
  let n := Z.of_nat (nat_of_ascii c) in
  if (48 <=? n) && (n <=? 57) then Some (n - 48) else None.

Fixpoint digitsValue (acc : Z) (s : string) : option Z :=
  match s with
  | EmptyString => Some acc
  | String c s' =>
      match digitOf c with
      | Some d => digitsValue (10 * acc + d) s'
      | None => None
      end
  end.

(** A key that is an array index: the decimal form, without leading
    zeros, of an integer from 0 to 2^32 - 2. *)
Definition arrayIndex (key : string) : option Z :=
  match key with
  | EmptyString => None
  | String c rest =>
      if bool_decide (c = "0"%char) && negb (bool_decide (rest = "")) then None
      else match digitsValue 0 key with
           | Some n => if n <=? 4294967294 then Some n else None
           | None => None
           end
  end.

Definition isIndex {A} (entry : string * A) : bool :=
  match arrayIndex entry.1 with Some _ => true | None => false end.

Definition byIndex {A} (a b : string * A) : Z :=
  default 0 (arrayIndex a.1) - default 0 (arrayIndex b.1).

(** [Object.entries(object)]: the array index keys in ascending order, then
    the other keys in the order they were created. *)
Definition objectEntries {A} (object : list (string * A)) : list (string * A) :=
  stableSort byIndex (List.filter isIndex object) ++
  List.filter (λ entry, negb (isIndex entry)) object.

Section OfflineForensics.
Context `{Platform}.

(** [f.type || dflt]. *)
Definition typeOr (f : Forensic.t) (dflt : string) : string :=
  match Forensic.type f with
  | Some s => if bool_decide (s = "") then dflt else s
  | None => dflt
  end.

(** [!f.type || f.type === '']. *)
Definition typeMissing (f : Forensic.t) : bool :=
  match Forensic.type f with
  | Some s => bool_decide (s = "")
  | None => true
  end.

Definition byLastModified (a b : Forensic.t) : Z :=
  Forensic.lastModified a - Forensic.lastModified b.

Definition sortedFiles (localForensics : list Forensic.t) : list Forensic.t :=
  stableSort byLastModified localForensics.

Definition timelineLine (f : Forensic.t) : string :=
  "- **" +:+ toLocaleString (Forensic.lastModified f) +:+ "**: File " +:+ DQ +:+
  Forensic.name f +:+ DQ +:+ " created/modified".









(** [acc[type]] read from the accumulator, which starts as [{}]: its own
    property, or else the property of that name which every plain object
    inherits, a function or, for __proto__, the prototype, of which only
    the text matters to [+ 1]. *)
Definition countOf (acc : list (string * Count)) (type : string) : option Count :=
  match getOwn type acc with
  | Some count => Some count
  | None => Text <$> inheritedText type
  end.

(** [(value || 0) + 1]: a number is incremented; undefined and the empty
    string give 1; to any other string, and to the text of a function or
    an object, the digit 1 is appended. *)
Definition plusOne (value : option Count) : Count :=
  match value with
  | Some (Times n) => Times (n + 1)
  | Some (Text s) => if bool_decide (s = "") then Times 1 else Text (s +:+ "1")
  | None => Times 1
  end.

(** [acc[type] = (acc[type] || 0) + 1].  Assigning a number or a string to
    __proto__ changes nothing. *)
Definition countType (type : string) (acc : list (string * Count))
    : list (string * Count) :=
  if bool_decide (type = "__proto__") then acc
  else setOwn type (plusOne (countOf acc type)) acc.

Definition fileTypes (localForensics : list Forensic.t) : list (string * Count) :=
  foldl (λ acc f, countType (typeOr f "unknown") acc) [] localForensics.

Definition gapLine (prev curr : Forensic.t) : string :=
  "- Gap of " +:+
  pretty (roundHours (Forensic.lastModified curr - Forensic.lastModified prev)) +:+
  " hours between " +:+ DQ +:+ Forensic.name prev +:+ DQ +:+ " and " +:+
  DQ +:+ Forensic.name curr +:+ DQ.

(** Body of the loop [for (let i = 1; i < sortedFiles.length; i++)]. *)
Definition gapStep (sorted : list Forensic.t) (timeGaps : list string) (i : nat)
    : list string :=
  match sorted !! (i - 1)%nat, sorted !! i with
  | Some prev, Some curr =>
      let diffMs := Forensic.lastModified curr - Forensic.lastModified prev in
      if exceedsDay diffMs then timeGaps ++ [gapLine prev curr] else timeGaps
  | _, _ => timeGaps
  end.

Definition timeGaps (sorted : list Forensic.t) : list string :=
  foldl (gapStep sorted) [] (seq 1 (length sorted - 1)).





Definition headLines (timestamp : string) (files : list File.t) : list string :=
  [ "# OFFLINE FORENSIC ANALYSIS REPORT";
    "**Generated:** " +:+ timestamp;
    "**Mode:** Offline Rule-Based Analysis (No AI)";
    "**Files Analyzed:** " +:+ pretty (Z.of_nat (length files)) +:+ LF;
    "## 1. Executive Summary" +:+ LF;
    "This report was generated using local rule-based forensic analysis without external AI connectivity. The analysis applies V5 forensic rules for contradiction detection, file integrity verification, metadata analysis, and pattern recognition." +:+ LF;
    "## 2. Timeline of Events" +:+ LF ].




(** Sections 1 and 2: the head of the report and the timeline. *)
Definition timelineSection (timestamp : string) (files : list File.t)
    (sorted : list Forensic.t) : list string :=
  headLines timestamp files ++
  forEachPush (λ f, [timelineLine f]) [] sorted ++
  [ "" ].


Definition showCount (count : Count) : string :=
  match count with
  | Times n => pretty n
  | Text s => s
  end.

Definition typeCountLine (entry : string * Count) : string :=
  "- " +:+ entry.1 +:+ ": " +:+ showCount entry.2 +:+ " file(s)".

(** Section 5. *)
Definition patternSection (localForensics : list Forensic.t) : list string :=
  [ "## 5. Pattern Analysis" +:+ LF;
    "**File Type Distribution:**" +:+ LF ] ++
  forEachPush (λ entry, [typeCountLine entry]) []
    (objectEntries (fileTypes localForensics)) ++
  [ "" ].





End OfflineForensics.

(** ** Vocabulary of the statements *)

(** The local database rejects no request. *)
Definition localOk (w : World) : Prop := ∀ n, fault w n = None.

(** What the local database holds, and the environment. *)
Definition localState (w : World) :=
  (reports w, evidence_files w, case_metadata w, reportsKeyGen w, evidenceKeyGen w).

Definition environment (w : World) := (clock w, fault w, replicaFault w).

(** [w'] differs from [w] at most in the replica, the console and the
    number of interactions. *)
Definition sameLocal (w w' : World) : Prop :=
  localState w' = localState w ∧ environment w' = environment w.

(** A field of the stored aggregate of a case. *)
Definition aggregateField (w : World) (caseId field : string) : option JsVal :=
  match case_metadata w !! caseId with
  | Some agg => agg !! field
  | None => None
  end.

(** The stored records of one case, in the order they were added. *)
Definition reportsOf (caseId : string) (w : World) : list JsObj :=
  List.filter (IndexedDBStorage.hasCaseId caseId) (reports w).

Definition evidenceOf (caseId : string) (w : World) : list JsObj :=
  List.filter (IndexedDBStorage.hasCaseId caseId) (evidence_files w).

(** The merge can read the index of every stored report of the case. *)
Definition indexReadable (r : JsObj) : bool :=
  match entriesOfReport r with
  | Ok _ => true
  | Err _ => false
  end.

Definition caseReadable (caseId : string) (w : World) : Prop :=
  forallb indexReadable (reportsOf caseId w) = true.




Section Indexed.
Context `{Platform}.



(** What getReports reads: the reports of the case as the caseId index
    lists them, sorted by timestamp. *)
Definition readReports (caseId : string) (w : World) : list JsObj :=
  stableSort IndexedDBStorage.byTimestamp
    (IndexedDBStorage.inKeyOrder (reportsOf caseId w)).

(** The entry of one case in an export of [w]: its reports by timestamp,
    its evidence with every record redacted, its aggregate. *)
Definition entryOf (caseId : string) (w : World) : JsVal :=
  JObj {[ "reports" := JArr (JObj <$> readReports caseId w);
          "evidence" :=
            JArr ((λ e, JObj (StorageManager.redact e)) <$> evidenceOf caseId w);
          "metadata" := StorageManager.nullable (case_metadata w !! caseId) ]}.

End Indexed.

(** Two evidence records that agree on every field but binaryData. *)
Definition samePayloadFree (e1 e2 : JsObj) : Prop :=
  delete "binaryData" e1 = delete "binaryData" e2.

(** Two worlds whose stored evidence differs at most in the binaryData
    fields, and that agree on everything else an export reads. *)
Definition payloadVariant (w1 w2 : World) : Prop :=
  Forall2 samePayloadFree (evidence_files w1) (evidence_files w2)
  ∧ reports w1 = reports w2
  ∧ case_metadata w1 = case_metadata w2
  ∧ tick w1 = tick w2
  ∧ clock w1 = clock w2
  ∧ fault w1 = fault w2.

(** Running [m1] and [m2] from payload variants settles both promises the
    same way, with results related by [RA], and leaves payload variants. *)
Definition simulates {A} (RA : A → A → Prop) (m1 m2 : Async A) : Prop :=
  ∀ w1 w2, payloadVariant w1 w2 →
    match m1 w1, m2 w2 with
    | (Ok a1, w1'), (Ok a2, w2') => RA a1 a2 ∧ payloadVariant w1' w2'
    | (Err e1, w1'), (Err e2, w2') => e1 = e2 ∧ payloadVariant w1' w2'
    | _, _ => False
    end.




(** Ascending by lastModified. *)
Definition notAfter (a b : Forensic.t) : Prop :=
  Forensic.lastModified a ≤ Forensic.lastModified b.


Section TemporalVocabulary.
Context `{Platform}.


End TemporalVocabulary.

(** ** Sample data

    A stand-in platform and a few worlds on which the model is evaluated:
    instants are written as their count of milliseconds, the digest is a
    tagged copy of the text, and the extractor reads the whole text as one
    level-2 heading. *)

Fixpoint parseDigits (s : string) (acc : Z) : option Z :=
  match s with
  | EmptyString => Some acc
  | String c rest =>
      let d := Z.of_nat (nat_of_ascii c) - 48 in
      if (0 <=? d) && (d <=? 9) then parseDigits rest (10 * acc + d) else None
  end.

Definition samplePlatform : Platform := {|
  toISOString := λ t, pretty t;
  toLocaleString := λ t, pretty t;
  dateGetTime := λ v, match v with JStr s => parseDigits s 0 | _ => None end;
  sha256hex := λ text, "sha256:" +:+ text;
  extractNarrativeIndex := λ text,
    [ {[ "type" := JStr "section"; "level" := JNum 2;
         "title" := JStr text; "line" := JNum 0 ]} ];
  idbCmp := λ a b, match a, b with JNum x, JNum y => x - y | _, _ => 0 end;
  inheritedText := λ name,
    if bool_decide (name = "constructor")
    then Some "function Object() { [native code] }" else None;
|}.

(** Nothing stored, no replica, a clock that advances one second per
    reading, and a database that rejects nothing. *)
Definition emptyWorld : World :=
  mkWorld [] [] ∅ 1 1 None [] 0 (λ n, 1000 * Z.of_nat n) (λ _, None) (λ _, None).

(** The same, with a database that rejects every request. *)
Definition fullDiskWorld : World :=
  mkWorld [] [] ∅ 1 1 None [] 0 (λ n, 1000 * Z.of_nat n)
    (λ _, Some "QuotaExceededError") (λ _, None).

(** An empty store with a replica configured, and the world after the
    aggregate of case-1 is first saved with its creation date and tags. *)
Definition replicaWorld : World :=
  mkWorld [] [] ∅ 1 1 (Some ∅) [] 0 (λ n, 1000 * Z.of_nat n) (λ _, None) (λ _, None).

Definition firstAggregate : JsObj :=
  {[ "createdAt" := JStr "1000"; "reportCount" := JNum 1;
     "tags" := JArr [JStr "fraud"] ]}.

Definition aggregateWorld : World :=
  (StorageManager.saveCaseMetadata "case-1" firstAggregate replicaWorld).2.

Definition scanA : File.t :=
  File.mk "scan.pdf" "application/pdf" 0 [Byte.x25; Byte.x50; Byte.x44].

Definition scanB : File.t :=
  File.mk "scan.pdf" "application/pdf" 0 [Byte.x00; Byte.xff; Byte.x7f].

(** A record whose data carries a caseId and a timestamp of its own. *)
Definition forgedData : JsObj :=
  {[ "content" := JStr "text"; "caseId" := JStr "other-case";
     "timestamp" := JStr "1999" ]}.

(** The end-to-end scenario: A, a PDF of 1024 bytes, and B, empty and
    without a type, 30 hours later. *)
Definition evidenceA : Forensic.t :=
  Forensic.mk "A" (Some "application/pdf") 1024 0 "aa11".

Definition evidenceB : Forensic.t :=
  Forensic.mk "B" (Some "") 0 (30 * msPerHour) "bb22".

(** C, modified one hour after A. *)
Definition evidenceC : Forensic.t :=
  Forensic.mk "C" (Some "image/png") 2048 msPerHour "cc33".

(** A selection with a type that every plain object has a property for and
    a type that is an array index. *)
Definition oddTypes : list Forensic.t :=
  [ Forensic.mk "a.png" (Some "image/png") 10 0 "01";
    Forensic.mk "b" (Some "constructor") 10 0 "02";
    Forensic.mk "c" (Some "7") 10 0 "03";
    Forensic.mk "d.png" (Some "image/png") 10 0 "04";
    Forensic.mk "e" None 10 0 "05";
    Forensic.mk "f" (Some "__proto__") 10 0 "06";
    Forensic.mk "g" (Some "constructor") 10 0 "07" ].

(** Three facts of a narrative index. *)
Definition factPerson : JsObj :=
  {[ "type" := JStr "entity"; "subtype" := JStr "person";
     "value" := JStr "Ada Lovelace"; "context" := JStr "Parties"; "line" := JNum 3 ]}.

Definition factDate : JsObj :=
  {[ "type" := JStr "entity"; "subtype" := JStr "date";
     "value" := JStr "2025-09-19"; "context" := JStr "Parties"; "line" := JNum 4 ]}.

Definition factSection : JsObj :=
  {[ "type" := JStr "section"; "level" := JNum 2;
     "title" := JStr "Parties"; "line" := JNum 1 ]}.

(** The world after a first report of case-1 that names two evidence
    files. *)
Definition afterFirstReport : World :=
  (@saveReportToDB samplePlatform "case-1" "Findings" ["a.pdf"; "b.png"]
     emptyWorld).2.

(** A store that holds one report of case-1 and one evidence file. *)
Definition storedReport : JsObj :=
  {[ "id" := JNum 1; "caseId" := JStr "case-1"; "timestamp" := JStr "1000";
     "content" := JStr "Findings"; "evidence" := JArr [JStr "scan.pdf"];
     "reportHash" := JStr "sha256:Findings"; "narrativeIndex" := JArr [] ]}.

Definition storedScan (file : File.t) : JsObj :=
  <["binaryData" := JBytes (File.bytes file)]>
    {[ "id" := JNum 1; "caseId" := JStr "case-1"; "timestamp" := JStr "6000";
       "fileName" := JStr (File.name file); "fileType" := JStr (File.type file);
       "fileSize" := JNum (File.size file); "fileHash" := JStr "digest";
       "metadata" := JNull ]}.

Definition archive (file : File.t) : World :=
  mkWorld [storedReport] [storedScan file] ∅ 2 2 None [] 0
    (λ n, 1000 * Z.of_nat n) (λ _, None) (λ _, None).

(** A store whose one report of case-1 carries an index that is not an
    array, as a report written by other code might. *)
Definition legacyReport : JsObj :=
  {[ "id" := JNum 1; "caseId" := JStr "case-1"; "timestamp" := JStr "1000";
     "content" := JStr "Old findings"; "narrativeIndex" := JStr "legacy" ]}.

Definition legacyArchive : World :=
  mkWorld [legacyReport] [] ∅ 2 1 None [] 0
    (λ n, 1000 * Z.of_nat n) (λ _, None) (λ _, None).

(** A field of a document of the replica. *)
Definition replicaField (w : World) (path field : string) : option JsVal :=
  match firestore w with
  | Some docs =>
      match docs !! path with
      | Some document => document !! field
      | None => None
      end
  | None => None
  end.

(** ** Further vocabulary: first-seen order *)

(** The facts of [items] whose key is not in [seen] and not met earlier in
    the list: what the loop of mergeNarrativeIndices appends when it starts
    with the set [seen]. *)
Fixpoint firstSeenFrom (seen : gset string) (items : list JsObj) : list JsObj :=
  match items with
  | [] => []
  | x :: rest =>
      if bool_decide (dedupKey x ∈ seen) then firstSeenFrom seen rest
      else x :: firstSeenFrom ({[dedupKey x]} ∪ seen) rest
  end.

(** The first fact of every key, in the order the keys are first met. *)
Definition firstSeen (items : list JsObj) : list JsObj := firstSeenFrom ∅ items.

(** ** Further vocabulary: ordering *)

(** The elements of [l] whose key is [t], in order. *)
Definition havingKey {A} (key : A → Z) (t : Z) (l : list A) : list A :=
  List.filter (λ a, key a =? t) l.

(** On the elements of [l] the comparator is the difference of the keys. *)
Definition byKey {A} (cmp : A → A → Z) (key : A → Z) (l : list A) : Prop :=
  ∀ a b, a ∈ l → b ∈ l → cmp a b = key a - key b.

Section TimeVocabulary.
Context `{Platform}.

(** The instant a stored record's timestamp parses to (0 when it does not
    parse). *)
Definition timeOf (r : JsObj) : Z := default 0 (dateGetTime (prop r "timestamp")).

Definition parsable (r : JsObj) : Prop := is_Some (dateGetTime (prop r "timestamp")).

End TimeVocabulary.

(** ** Further vocabulary: what an operation may change *)

(** [m] takes every world to one related to it by [R], however its promise
    settles. *)
Definition keeps {A} (R : World → World → Prop) (m : Async A) : Prop :=
  ∀ w, R w (m w).2.

(** A stored record of the given case. *)
Definition ownedBy (caseId : string) (r : JsObj) : Prop :=
  r !! "caseId" = Some (JStr caseId).

(** [w'] is [w] with records of the one case appended to the two record
    stores, and the aggregates of all other cases as they were. *)
Definition touchesOnly (caseId : string) (w w' : World) : Prop :=
  (∃ added, reports w' = reports w ++ added ∧ Forall (ownedBy caseId) added)
  ∧ (∃ added, evidence_files w' = evidence_files w ++ added
              ∧ Forall (ownedBy caseId) added)
  ∧ (∀ other, other ≠ caseId →
       case_metadata w' !! other = case_metadata w !! other).

(** A stored record that carries a string caseId and a string timestamp. *)
Definition wellStamped (r : JsObj) : Prop :=
  ∃ caseId timestamp,
    r !! "caseId" = Some (JStr caseId) ∧ r !! "timestamp" = Some (JStr timestamp).

(** Every aggregate carries the caseId it is stored under. *)
Definition metadataKeyed (w : World) : Prop :=
  ∀ caseId agg, case_metadata w !! caseId = Some agg →
    agg !! "caseId" = Some (JStr caseId).

Definition wellFormedStore (w : World) : Prop :=
  Forall wellStamped (reports w)
  ∧ Forall wellStamped (evidence_files w)
  ∧ metadataKeyed w.

(** If the store was well formed, it still is. *)
Definition staysWellFormed (w w' : World) : Prop :=
  wellFormedStore w → wellFormedStore w'.

(** The replica of [w'] is the replica of [w], but for at most one
    document, written at a path and with fields that satisfy [P]; where
    there was no replica there is none. *)
Definition replicaGains (P : string → JsObj → Prop) (w w' : World) : Prop :=
  match firestore w, firestore w' with
  | None, None => True
  | Some docs, Some docs' =>
      docs' = docs
      ∨ ∃ path document, docs' = <[path := document]> docs ∧ P path document
  | _, _ => False
  end.

(** A replica document of an evidence file: no payload, and the note that
    says so. *)
Definition payloadFree (fileHash : string) (document : JsObj) : Prop :=
  document !! "binaryData" = None
  ∧ document !! "fileHash" = Some (JStr fileHash)
  ∧ document !! "note" = Some (JStr "Binary data stored locally only").

(** Such a document in the evidence collection of the case. *)
Definition evidenceDocument (caseId fileHash : string) (path : string)
    (document : JsObj) : Prop :=
  (∃ id, path = "cases/" +:+ caseId +:+ "/evidence/" +:+ id)
  ∧ payloadFree fileHash document.

(** Two reports of case-1 stored while the clock was set back: the one
    stored first carries the later timestamp. *)
Definition lateReport : JsObj :=
  {[ "id" := JNum 1; "caseId" := JStr "case-1"; "timestamp" := JStr "9000";
     "content" := JStr "Second opinion" ]}.

Definition earlyReport : JsObj :=
  {[ "id" := JNum 2; "caseId" := JStr "case-1"; "timestamp" := JStr "4000";
     "content" := JStr "First findings" ]}.

Definition shuffledArchive : World :=
  mkWorld [lateReport; earlyReport] [] ∅ 3 1 None [] 0
    (λ n, 1000 * Z.of_nat n) (λ _, None) (λ _, None).

(** Two reports of case-1 with the same timestamp, of which the one stored
    first was given the larger id by its caller. *)
Definition insertedLast : JsObj :=
  {[ "id" := JNum 7; "caseId" := JStr "case-1"; "timestamp" := JStr "5000";
     "content" := JStr "Stored first" ]}.

Definition insertedFirst : JsObj :=
  {[ "id" := JNum 3; "caseId" := JStr "case-1"; "timestamp" := JStr "5000";
     "content" := JStr "Stored second" ]}.

Definition renumberedArchive : World :=
  mkWorld [insertedLast; insertedFirst] [] ∅ 8 1 None [] 0
    (λ n, 1000 * Z.of_nat n) (λ _, None) (λ _, None).

(** The objects StorageManager hands to the local store and to the replica. *)
Definition reportData (content : string) (evidence : list string)
    (metadata : option JsObj) : JsObj :=
  spread {[ "content" := JStr content; "evidence" := JArr (JStr <$> evidence) ]}
         (default ∅ metadata).

Definition evidenceData (file : File.t) (fileHash : string) (metadata : JsVal) : JsObj :=
  {[ "fileName" := JStr (File.name file);
     "fileType" := JStr (File.type file);
     "fileSize" := JNum (File.size file);
     "fileHash" := JStr fileHash;
     "binaryData" := JBytes (File.bytes file);
     "metadata" := metadata ]}.

(** ** Further vocabulary: the file type histogram *)

(** The number of descriptors counted under [type]. *)
Definition filesOfType (type : string) (localForensics : list Forensic.t) : nat :=
  length (List.filter (λ f, bool_decide (typeOr f "unknown" = type)) localForensics).

Definition timesOf (count : Count) : Z :=
  match count with
  | Times n => n
  | Text _ => 0
  end.

(** The sum of the numbers of a histogram. *)
Definition totalCount (histogram : list (string * Count)) : Z :=
  foldr Z.add 0 (timesOf <$> histogram.*2).

Section HistogramVocabulary.
Context `{Platform}.

(** A type that no plain object has a property for before it is counted. *)
Definition ordinaryType (type : string) : Prop :=
  inheritedText type = None ∧ type ≠ "__proto__".

(** [n] times the digit 1. *)
Fixpoint ones (n : nat) : string :=
  match n with
  | O => ""
  | S n' => String "1" (ones n')
  end.

(** What is read under [type] after [n] files of that type were counted. *)
Fixpoint countAfter (type : string) (n : nat) : option Count :=
  match n with
  | O => Text <$> inheritedText type
  | S n' => Some (plusOne (countAfter type n'))
  end.

End HistogramVocabulary.

(** ** index.tsx: digests as hexadecimal strings

    [Array.from(new Uint8Array(buffer)).map(b => b.toString(16).padStart(2, '0')).join('')],
    as calculateSHA256 and saveReportToDB format a digest. *)

Definition hexDigit (n : N) : ascii :=
  default "0"%char (String.get (N.to_nat n) "0123456789abcdef").

(** [b.toString(16)] for a byte: one digit below 16, two from there on. *)
Definition toString16 (b : Byte.byte) : string :=
  let n := Byte.to_N b in
  if (n <? 16)%N then String (hexDigit n) ""
  else String (hexDigit (n / 16)) (String (hexDigit (n mod 16)) "").

Fixpoint fill (n : nat) (pad : ascii) : string :=
  match n with
  | O => ""
  | S n' => String pad (fill n' pad)
  end.

(** [s.padStart(targetLength, pad)] for a pad of one character. *)
Definition padStart (targetLength : nat) (pad : ascii) (s : string) : string :=
  fill (targetLength - String.length s) pad +:+ s.

Definition hexByte (b : Byte.byte) : string := padStart 2 "0" (toString16 b).

Definition hexOf (bytes : list Byte.byte) : string :=
  String.concat "" (hexByte <$> bytes).

(** The value of a lower-case hexadecimal digit, and the bytes a string of
    digit pairs stands for. *)
Definition hexValue (c : ascii) : option N :=
  (λ i, N.of_nat i.1) <$>
    list_find (λ d, d = c) (list_ascii_of_string "0123456789abcdef").

Fixpoint unhex (s : string) : option (list Byte.byte) :=
  match s with
  | "" => Some []
  | String hi (String lo rest) =>
      match hexValue hi, hexValue lo, unhex rest with
      | Some h, Some l, Some bs =>
          match Byte.of_N (16 * h + l) with
          | Some b => Some (b :: bs)
          | None => None
          end
      | _, _, _ => None
      end
  | String _ "" => None
  end.

Definition isHexDigit (c : ascii) : Prop := is_Some (hexValue c).

(** ** index.tsx: error diagnostics (diagnoseError) *)

(** [s.includes(sub)]. *)
Fixpoint includes (s sub : string) : bool :=
  String.prefix sub s ||
  match s with
  | "" => false
  | String _ rest => includes rest sub
  end.

(** What the catch clause of handleSubmit receives: an Error object, with
    its name, message and stack, or a string that was thrown as it is. *)
Module Thrown.
Record error := mkError {
  name : string;
  message : string;
  stack : option string;
}.
Inductive t :=
  | Error (e : error)
  | Text (s : string).
End Thrown.

(** [String(error)] on an Error object: Error.prototype.toString. *)
Definition errorToString (e : Thrown.error) : string :=
  if bool_decide (Thrown.name e = "") then Thrown.message e
  else if bool_decide (Thrown.message e = "") then Thrown.name e
  else Thrown.name e +:+ ": " +:+ Thrown.message e.

(** [error.message || String(error)]; a string has no message. *)
Definition thrownMessage (error : Thrown.t) : string :=
  match error with
  | Thrown.Error e =>
      if bool_decide (Thrown.message e = "") then errorToString e else Thrown.message e
  | Thrown.Text s => s
  end.

(** [error.stack ? `\n${error.stack}` : '']. *)
Definition stackSuffix (error : Thrown.t) : string :=
  match error with
  | Thrown.Error e =>
      match Thrown.stack e with
      | Some trace => if bool_decide (trace = "") then "" else LF +:+ trace
      | None => ""
      end
  | Thrown.Text _ => ""
  end.

Record DiagnosticError := mkDiagnostic {
  userMessage : string;
  technicalDetails : string;
  suggestedFix : string;
  code : string;
}.

Definition diagnoseError (error : Thrown.t) : DiagnosticError :=
  let msg := thrownMessage error in
  if includes msg "403" || includes msg "API key" then
    mkDiagnostic
      "Authorization Failed. The system cannot access the AI engine."
      msg
      "Check your 'VITE_API_KEY' in .env or GitHub Secrets. Ensure the key is active and has 'Generative Language API' enabled in Google Cloud Console."
      "AUTH_403"
  else if includes msg "429" || includes msg "quota" then
    mkDiagnostic
      "System is currently overloaded. Please wait a moment."
      msg
      "You have hit the Gemini API rate limit (RPM/TPM). Implement exponential backoff or upgrade to a paid tier if on production."
      "QUOTA_429"
  else if includes msg "SAFETY" || includes msg "blocked" then
    mkDiagnostic
      "Analysis halted due to sensitive content flags."
      msg
      "The model's safety filters triggered. Legal/Forensic docs often trigger 'Violence' or 'Hate Speech' filters. Adjust 'safetySettings' in the API config to BLOCK_ONLY_HIGH."
      "SAFETY_BLOCK"
  else if includes msg "fetch" || includes msg "network" || includes msg "Failed to fetch" then
    mkDiagnostic
      "Connection lost. Cannot reach the AI engine."
      msg
      "Check internet connection. If connection is good, the API endpoint might be blocked by a firewall or CORS policy."
      "NET_ERR"
  else if includes msg "FileReader" || includes msg "read" then
    mkDiagnostic
      "Failed to read one of the evidence files."
      msg
      "The file might be corrupted or permissions are denied. Ensure files are standard formats (PDF, PNG, JPG, TXT)."
      "FILE_IO"
  else
    mkDiagnostic
      "An unexpected internal error occurred."
      (msg +:+ stackSuffix error)
      "Check the browser console for full stack trace. Review 'handleSubmit' logic in index.tsx."
      "UNKNOWN".



(** ** Vocabulary of the diagnostics *)

(** [sub] occurs in [s]. *)
Definition occursIn (sub s : string) : Prop := ∃ before after, s = before +:+ sub +:+ after.

(** The keyword groups of diagnoseError, in the order they are tested,
    each with the code it leads to. *)
Definition keywordGroups : list (string * list string) :=
  [ ("AUTH_403", ["403"; "API key"]);
    ("QUOTA_429", ["429"; "quota"]);
    ("SAFETY_BLOCK", ["SAFETY"; "blocked"]);
    ("NET_ERR", ["fetch"; "network"; "Failed to fetch"]);
    ("FILE_IO", ["FileReader"; "read"]) ].

(** Some keyword of the group occurs in the message. *)
Definition mentions (msg : string) (group : string * list string) : Prop :=
  ∃ keyword, keyword ∈ group.2 ∧ occursIn keyword msg.

(** ** index.tsx: local forensics and the persistence step of handleSubmit *)

Section Submission.
Context `{Platform}.

(** [crypto.subtle.digest('SHA-256', buffer)], which the code only calls. *)
Context (sha256 : list Byte.byte → list Byte.byte).

Definition calculateSHA256 (file : File.t) : string :=
  hexOf (sha256 (File.bytes file)).

(** The descriptor runLocalForensics makes of a selected file. *)
Definition describe (file : File.t) : Forensic.t :=
  Forensic.mk (File.name file) (Some (File.type file)) (File.size file)
    (File.lastModified file) (calculateSHA256 file).

(** [Promise.all(files.map(...))]: one descriptor per file, in order. *)
Definition runLocalForensics (files : list File.t) : list Forensic.t :=
  describe <$> files.

(** [localForensics.find(f => f.name === file.name)?.hash || '']. *)
Definition hashFor (localForensics : list Forensic.t) (file : File.t) : string :=
  match List.find (λ f, bool_decide (Forensic.name f = File.name file)) localForensics with
  | Some f => if bool_decide (Forensic.hash f = "") then "" else Forensic.hash f
  | None => ""
  end.

(** The metadata object of the offline branch and of the online branch. *)
Definition offlineMeta (now : Z) : JsVal :=
  JObj {[ "analysisMode" := JStr "offline";
          "timestamp" := JStr (toISOString now) ]}.

Definition onlineMeta (modelName locationInfo : string) (now : Z) : JsVal :=
  JObj {[ "analysisMode" := JStr "online";
          "model" := JStr modelName;
          "timestamp" := JStr (toISOString now);
          "location" := JStr locationInfo ]}.




End Submission.

(** The first file of the selection that has the name of [file]. *)
Definition firstNamed (files : list File.t) (file : File.t) : option File.t :=
  List.find (λ f, bool_decide (File.name f = File.name file)) files.


(** ** index.tsx: the master case file (handleGenerateMasterPdf), the people
    of the narrative index *)

(** [a === b] on undefined, null, booleans, numbers and strings, which
    compare by value.  Objects, arrays and buffers compare by identity,
    which a value does not record: the entries this code writes carry
    strings in the compared fields, and for other values the test is taken
    to fail. *)
Definition strictEquals (a b : JsVal) : bool :=
  match a, b with
  | JUndef, JUndef => true
  | JNull, JNull => true
  | JBool x, JBool y => bool_decide (x = y)
  | JNum x, JNum y => bool_decide (x = y)
  | JStr x, JStr y => bool_decide (x = y)
  | _, _ => false
  end.

(** [narrativeIndex.filter(i => i.subtype === subtype)]. *)
Definition bySubtype (subtype : string) (narrativeIndex : list JsObj) : list JsObj :=
  List.filter (λ i, strictEquals (prop i "subtype") (JStr subtype)) narrativeIndex.

(** [[...new Set(values)]]: first occurrences, in order. *)
Fixpoint uniqueValues (values : list JsVal) : list JsVal :=
  match values with
  | [] => []
  | x :: rest => x :: List.filter (λ y, negb (strictEquals y x)) (uniqueValues rest)
  end.

(** [`- ${person} (${occurrences.length} reference${occurrences.length > 1 ? 's' : ''})\n`]. *)
Definition referenceLine (people : list JsObj) (person : JsVal) : string :=
  let occurrences := List.filter (λ p, strictEquals (prop p "value") person) people in
  let count := Z.of_nat (length occurrences) in
  "- " +:+ toStr person +:+ " (" +:+ pretty count +:+ " reference" +:+
  (if 1 <? count then "s" else "") +:+ ")" +:+ LF.

(** What the block [if (people.length > 0) { ... }] appends to the
    markdown of the master file. *)
Definition peopleBlock (narrativeIndex : list JsObj) : string :=
  let people := bySubtype "person" narrativeIndex in
  if 0 <? Z.of_nat (length people) then
    let uniquePeople := uniqueValues ((λ p, prop p "value") <$> people) in
    foldl (λ markdown person, markdown +:+ referenceLine people person)
      ("**People:**" +:+ LF) uniquePeople +:+ LF
  else "".

(** The line of a person who is referred to once. *)
Definition oneReference (p : JsObj) : string :=
  "- " +:+ toStr (prop p "value") +:+ " (1 reference)" +:+ LF.

(** An entry whose value is a string that is not empty. *)
Definition named (p : JsObj) : Prop :=
  ∃ name, prop p "value" = JStr name ∧ name ≠ "".

(** ** Merge: idempotence and order independence *)

Section Merge.

Implicit Types (st : MergeState) (items : list JsObj).

Lemma keysOf_nil k : k ∈ keysOf [] ↔ False.
Proof. unfold keysOf. simpl. apply elem_of_nil. Qed.

Lemma keysOf_cons x items k :
  k ∈ keysOf (x :: items) ↔ k = dedupKey x ∨ k ∈ keysOf items.
Proof. unfold keysOf. rewrite fmap_cons. apply elem_of_cons. Qed.

Lemma keysOf_app items1 items2 k :
  k ∈ keysOf (items1 ++ items2) ↔ k ∈ keysOf items1 ∨ k ∈ keysOf items2.
Proof. unfold keysOf. rewrite fmap_app. apply elem_of_app. Qed.

Lemma mergeInv_init : mergeInv ([], ∅).
Proof. split; [constructor | intros k; set_solver]. Qed.

Lemma mergeItem_inv st item : mergeInv st → mergeInv (mergeItem st item).
Proof.
  intros [Hnd Hseen]. unfold mergeItem. case_bool_decide as Hin; [by split|].
  split; simpl.
  - unfold keysOf in *. rewrite fmap_app. simpl.
    apply NoDup_app. split_and!; [done | | apply NoDup_singleton].
    intros k Hk ->%list_elem_of_singleton. by apply Hin, Hseen.
  - intros k. rewrite elem_of_union, elem_of_singleton, keysOf_app,
      keysOf_cons, keysOf_nil, Hseen. tauto.
Qed.

Lemma mergeItem_keys st item k :
  mergeInv st →
  k ∈ keysOf (mergeItem st item).1 ↔ k ∈ keysOf st.1 ∨ k = dedupKey item.
Proof.
  intros [_ Hseen]. unfold mergeItem. case_bool_decide as Hin; simpl.
  - split; [tauto|]. intros [?| ->]; [done | by apply Hseen].
  - rewrite keysOf_app, keysOf_cons, keysOf_nil. tauto.
Qed.

Lemma foldl_mergeItem_inv items st :
  mergeInv st → mergeInv (foldl mergeItem st items).
Proof.
  revert st. induction items as [|x xs IH]; intros st Hst; simpl; [done|].
  by apply IH, mergeItem_inv.
Qed.

Lemma foldl_mergeItem_keys items st k :
  mergeInv st →
  k ∈ keysOf (foldl mergeItem st items).1 ↔ k ∈ keysOf st.1 ∨ k ∈ keysOf items.
Proof.
  revert st. induction items as [|x xs IH]; intros st Hst; cbn [foldl].
  - rewrite keysOf_nil. tauto.
  - rewrite IH by by apply mergeItem_inv. rewrite mergeItem_keys by done.
    rewrite keysOf_cons. tauto.
Qed.

Lemma mergeIndex_inv st index : mergeInv st → mergeInv (mergeIndex st index).
Proof. destruct index; simpl; [apply foldl_mergeItem_inv | done]. Qed.

Lemma mergeIndex_keys st index k :
  mergeInv st →
  k ∈ keysOf (mergeIndex st index).1 ↔
  k ∈ keysOf st.1 ∨ k ∈ keysOf (default [] index).
Proof.
  destruct index; cbn [mergeIndex default]; [apply foldl_mergeItem_keys|].
  intros _. rewrite keysOf_nil. tauto.
Qed.

Lemma foldl_mergeIndex_inv indices st :
  mergeInv st → mergeInv (foldl mergeIndex st indices).
Proof.
  revert st. induction indices as [|x xs IH]; intros st Hst; simpl; [done|].
  by apply IH, mergeIndex_inv.
Qed.

Lemma foldl_mergeIndex_keys indices st k :
  mergeInv st →
  k ∈ keysOf (foldl mergeIndex st indices).1 ↔
  k ∈ keysOf st.1 ∨ k ∈ keysOf (allItems indices).
Proof.
  revert st. induction indices as [|x xs IH]; intros st Hst; cbn [foldl].
  - unfold allItems. cbn [fmap list_fmap concat]. rewrite keysOf_nil. tauto.
  - rewrite IH by by apply mergeIndex_inv. rewrite mergeIndex_keys by done.
    unfold allItems. cbn [fmap list_fmap concat]. rewrite keysOf_app. tauto.
Qed.

(** The result has no two entries with the same key. *)
Lemma merge_NoDup indices : NoDup (keysOf (mergeNarrativeIndices indices)).
Proof. apply (foldl_mergeIndex_inv indices ([], ∅)), mergeInv_init. Qed.

(** The keys of the result are exactly the keys of the input. *)
Lemma merge_keys indices k :
  k ∈ keysOf (mergeNarrativeIndices indices) ↔ k ∈ keysOf (allItems indices).
Proof.
  unfold mergeNarrativeIndices.
  rewrite foldl_mergeIndex_keys by apply mergeInv_init.
  cbn [fst]. rewrite keysOf_nil. tauto.
Qed.

(** A list that already has pairwise distinct keys, none of them seen,
    is appended as it is. *)
Lemma foldl_mergeItem_fresh items st :
  NoDup (keysOf items) →
  (∀ k, k ∈ keysOf items → k ∉ st.2) →
  (foldl mergeItem st items).1 = st.1 ++ items.
Proof.
  revert st. induction items as [|x xs IH]; intros st Hnd Hfresh; simpl.
  - by rewrite app_nil_r.
  - unfold keysOf in Hnd. rewrite fmap_cons in Hnd.
    apply NoDup_cons in Hnd as [Hx Hnd].
    assert (dedupKey x ∉ st.2) as Hnew.
    { apply Hfresh. unfold keysOf. rewrite fmap_cons. left. }
    unfold mergeItem at 2. rewrite bool_decide_eq_false_2 by done.
    rewrite IH; simpl.
    + by rewrite <- app_assoc.
    + done.
    + intros k Hk. rewrite elem_of_union, elem_of_singleton.
      intros [->|Hin]; [done|].
      apply (Hfresh k); [|done]. unfold keysOf. rewrite fmap_cons. by right.
Qed.

Lemma merge_fixed items :
  NoDup (keysOf items) → mergeNarrativeIndices [Some items] = items.
Proof.
  intros Hnd. unfold mergeNarrativeIndices. simpl.
  rewrite foldl_mergeItem_fresh; [done | done | set_solver].
Qed.

(** C4. Merging is idempotent: for every fact list A, merging the single
    list merge([A]) gives merge([A]) again. *)
Theorem merge_idempotent (A : list JsObj) :
  mergeNarrativeIndices [Some (mergeNarrativeIndices [Some A])]
  = mergeNarrativeIndices [Some A].
Proof. apply merge_fixed, merge_NoDup. Qed.

Lemma allItems_Permutation (l1 l2 : list (option (list JsObj))) :
  l1 ≡ₚ l2 → allItems l1 ≡ₚ allItems l2.
Proof.
  intros Hp. unfold allItems.
  induction Hp as [|x l l' _ IH|x y l|l l' l'' _ IH1 _ IH2]; simpl.
  - done.
  - by rewrite IH.
  - rewrite !app_assoc. f_equiv. apply Permutation_app_comm.
  - by etrans.
Qed.

(** On entries of the shapes the extractor builds, the joined key stands
    for the triple: equal keys, equal components. *)
Lemma dedupKey_keyTriple item1 item2 :
  extractedShape item1 → extractedShape item2 →
  dedupKey item1 = dedupKey item2 → keyTriple item1 = keyTriple item2.
Proof.
  assert (toStr (JNum 2) = "2") as H2 by reflexivity.
  assert (toStr (JNum 3) = "3") as H3 by reflexivity.
  unfold extractedShape, dedupKey, keyTriple.
  generalize (toStr (jsOr (prop item1 "value") (prop item1 "title"))).
  generalize (toStr (jsOr (prop item2 "value") (prop item2 "title"))).
  intros v2 v1 Hs1 Hs2.
  destruct Hs1 as [(-> & -> & ->)|[(-> & -> & ->)|(-> & [->|[->| ->]])]];
    destruct Hs2 as [(-> & -> & ->)|[(-> & -> & ->)|(-> & [->|[->| ->]])]];
    unfold jsOr; cbn [truthy toStr negb bool_decide decide_rel];
    rewrite ?H2, ?H3; intros Hk; cbn in Hk; simplify_eq; reflexivity.
Qed.

(** C5. For every sequence of input fact lists and every permutation of
    it, the merge results carry the same set of dedup keys; every key of
    the input is kept, and no key occurs twice in either result. *)
Theorem merge_keys_permutation (l1 l2 : list (option (list JsObj))) :
  l1 ≡ₚ l2 →
  (∀ k, k ∈ keysOf (mergeNarrativeIndices l1)
        ↔ k ∈ keysOf (mergeNarrativeIndices l2))
  ∧ (∀ k, k ∈ keysOf (allItems l1) → k ∈ keysOf (mergeNarrativeIndices l1))
  ∧ (∀ k, k ∈ keysOf (allItems l1) → k ∈ keysOf (mergeNarrativeIndices l2))
  ∧ NoDup (keysOf (mergeNarrativeIndices l1))
  ∧ NoDup (keysOf (mergeNarrativeIndices l2)).
Proof.
  intros Hp. pose proof (allItems_Permutation _ _ Hp) as Hall.
  assert (∀ k, k ∈ keysOf (allItems l1) ↔ k ∈ keysOf (allItems l2)) as Hk.
  { intros k. unfold keysOf. by rewrite Hall. }
  split_and!; try apply merge_NoDup.
  - intros k. by rewrite !merge_keys.
  - intros k. by rewrite merge_keys.
  - intros k. by rewrite merge_keys, Hk.
Qed.

End Merge.

(** ** Running asynchronous code *)

Section Running.

Lemma bind_ok {A B} (m : Async A) (k : A → Async B) w a w' :
  m w = (Ok a, w') → bind m k w = k a w'.
Proof. intros Hm. unfold bind. by rewrite Hm. Qed.

Lemma bind_err {A B} (m : Async A) (k : A → Async B) w e w' :
  m w = (Err e, w') → bind m k w = (Err e, w').
Proof. intros Hm. unfold bind. by rewrite Hm. Qed.

Lemma tryCatch_ok {A} (body : Async A) handler w a w' :
  body w = (Ok a, w') → tryCatch body handler w = (Ok a, w').
Proof. intros Hm. unfold tryCatch. by rewrite Hm. Qed.

Lemma tryCatch_err {A} (body : Async A) handler w e w' :
  body w = (Err e, w') → tryCatch body handler w = handler e w'.
Proof. intros Hm. unfold tryCatch. by rewrite Hm. Qed.

Lemma idbRequest_ok w :
  fault w (tick w) = None → idbRequest w = (Ok (), bumpTick w).
Proof. intros Hf. unfold idbRequest. by rewrite Hf. Qed.

Lemma idbRequest_err w e :
  fault w (tick w) = Some e → idbRequest w = (Err e, bumpTick w).
Proof. intros Hf. unfold idbRequest. by rewrite Hf. Qed.


End Running.

(** ** The replica never fails a save and never touches the local store *)

Section Replica.
Context `{Platform}.

Lemma sameLocal_refl w : sameLocal w w.
Proof. by split. Qed.

Lemma sameLocal_trans w1 w2 w3 :
  sameLocal w1 w2 → sameLocal w2 w3 → sameLocal w1 w3.
Proof. intros [? ?] [? ?]. split; congruence. Qed.

Lemma sameLocal_localOk w w' : sameLocal w w' → localOk w → localOk w'.
Proof.
  intros [_ He] Hok n. unfold environment in He.
  assert (fault w' = fault w) as -> by congruence. apply Hok.
Qed.

Lemma docId_local data w :
  ∃ id w', FirebaseSync.docId data w = (Ok id, w') ∧ sameLocal w w'.
Proof.
  unfold FirebaseSync.docId. destruct (truthy _).
  - eexists _, _. split; [reflexivity | apply sameLocal_refl].
  - eexists _, _. split; [reflexivity | by split].
Qed.

Lemma setDoc_local path data merge w :
  ∃ r w', FirebaseSync.setDoc path data merge w = (r, w') ∧ sameLocal w w'.
Proof.
  unfold FirebaseSync.setDoc.
  destruct (firestore w), (replicaFault w (tick w));
    eexists _, _; (split; [reflexivity | by split]).
Qed.

Lemma consoleLog_local msg e w :
  ∃ w', consoleLog msg e w = (Ok (), w') ∧ sameLocal w w'.
Proof. eexists. split; [reflexivity | by split]. Qed.

Lemma caught_local (body : Async unit) msg w :
  (∃ r w', body w = (r, w') ∧ sameLocal w w') →
  ∃ w', tryCatch body (consoleLog msg) w = (Ok (), w') ∧ sameLocal w w'.
Proof.
  intros (r & w1 & Hb & Hl). unfold tryCatch. rewrite Hb.
  destruct r as [[]|e]; [by eexists|].
  destruct (consoleLog_local msg e w1) as (w2 & -> & Hl2).
  eexists. split; [done | by eapply sameLocal_trans].
Qed.

Lemma syncReport_local caseId data w :
  ∃ w', FirebaseSync.syncReport caseId data w = (Ok (), w') ∧ sameLocal w w'.
Proof.
  unfold FirebaseSync.syncReport, FirebaseSync.isAvailable, bind at 1.
  destruct (firestore w); simpl; [|eexists; split; [done | apply sameLocal_refl]].
  apply caught_local.
  destruct (docId_local data w) as (id & w1 & Hid & Hl1).
  rewrite (bind_ok _ _ _ _ _ Hid).
  unfold bind, dateNow.
  edestruct setDoc_local as (r & w2 & -> & Hl2).
  eexists _, _. split; [done|].
  eapply sameLocal_trans; [apply Hl1|]. eapply sameLocal_trans; [|apply Hl2].
  by split.
Qed.

Lemma syncEvidence_local caseId data w :
  ∃ w', FirebaseSync.syncEvidence caseId data w = (Ok (), w') ∧ sameLocal w w'.
Proof.
  unfold FirebaseSync.syncEvidence, FirebaseSync.isAvailable, bind at 1.
  destruct (firestore w); simpl; [|eexists; split; [done | apply sameLocal_refl]].
  apply caught_local.
  destruct (docId_local data w) as (id & w1 & Hid & Hl1).
  rewrite (bind_ok _ _ _ _ _ Hid).
  unfold bind, dateNow.
  edestruct setDoc_local as (r & w2 & -> & Hl2).
  eexists _, _. split; [done|].
  eapply sameLocal_trans; [apply Hl1|]. eapply sameLocal_trans; [|apply Hl2].
  by split.
Qed.

Lemma syncMetadata_local caseId data w :
  ∃ w', FirebaseSync.syncMetadata caseId data w = (Ok (), w') ∧ sameLocal w w'.
Proof.
  unfold FirebaseSync.syncMetadata, FirebaseSync.isAvailable, bind at 1.
  destruct (firestore w); simpl; [|eexists; split; [done | apply sameLocal_refl]].
  apply caught_local.
  unfold bind, dateNow.
  edestruct setDoc_local as (r & w2 & -> & Hl2).
  eexists _, _. split; [done|].
  eapply sameLocal_trans; [|apply Hl2]. by split.
Qed.

End Replica.

(** ** Sorting keeps the elements *)

Section Sorting.
Context {A : Type} (cmp : A → A → Z).

Lemma insertSorted_Permutation x l : insertSorted cmp x l ≡ₚ x :: l.
Proof.
  induction l as [|y l IH]; simpl; [done|].
  destruct (cmp x y <=? 0); [done|].
  rewrite IH. apply Permutation_swap.
Qed.

Lemma stableSort_Permutation l : stableSort cmp l ≡ₚ l.
Proof.
  induction l as [|x l IH]; simpl; [done|].
  fold (stableSort cmp l). by rewrite insertSorted_Permutation, IH.
Qed.

Lemma stableSort_length l : length (stableSort cmp l) = length l.
Proof. by rewrite stableSort_Permutation. Qed.

End Sorting.

Lemma forEachPush_concat {A B} (g : A → list B) init l :
  forEachPush g init l = init ++ concat (map g l).
Proof.
  unfold forEachPush. revert init.
  induction l as [|x l IH]; intros init; simpl.
  - by rewrite app_nil_r.
  - by rewrite IH, app_assoc.
Qed.

(** ** The local store, request by request *)

Section LocalStore.
Context `{Platform}.

(** The record a save writes: the stamped data under its key. *)
Lemma withKey_lookup gen record k :
  k ≠ "id" → (IndexedDBStorage.withKey gen record).1 !! k = record !! k.
Proof.
  intros Hk. unfold IndexedDBStorage.withKey.
  destruct (prop record "id"); simpl; try done.
  by rewrite lookup_insert_ne.
Qed.

Lemma stamped_caseId data caseId now :
  IndexedDBStorage.stamped data caseId now !! "caseId" = Some (JStr caseId).
Proof.
  unfold IndexedDBStorage.stamped.
  rewrite lookup_insert_ne by done. apply lookup_insert_eq.
Qed.

Lemma stamped_timestamp data caseId now :
  IndexedDBStorage.stamped data caseId now !! "timestamp"
  = Some (JStr (toISOString now)).
Proof. apply lookup_insert_eq. Qed.

Lemma stamped_other data caseId now k :
  k ≠ "caseId" → k ≠ "timestamp" →
  IndexedDBStorage.stamped data caseId now !! k = data !! k.
Proof.
  intros. unfold IndexedDBStorage.stamped. by rewrite !lookup_insert_ne.
Qed.

Lemma saveReport_run caseId data w :
  fault w (tick w) = None →
  IndexedDBStorage.saveReport caseId data w =
  (Ok (),
   let record := IndexedDBStorage.withKey (reportsKeyGen w)
                   (IndexedDBStorage.stamped data caseId (clock w (S (tick w)))) in
   setReports (reports w ++ [record.1]) record.2 (bumpTick (bumpTick w))).
Proof.
  intros Hf. unfold IndexedDBStorage.saveReport.
  rewrite (bind_ok _ _ _ _ _ (idbRequest_ok _ Hf)).
  unfold bind, dateNow, modify. simpl.
  by destruct (IndexedDBStorage.withKey _ _).
Qed.

Lemma saveReport_fail caseId data w e :
  fault w (tick w) = Some e →
  IndexedDBStorage.saveReport caseId data w = (Err e, bumpTick w).
Proof.
  intros Hf. unfold IndexedDBStorage.saveReport.
  by rewrite (bind_err _ _ _ _ _ (idbRequest_err _ _ Hf)).
Qed.

Lemma saveEvidence_run caseId data w :
  fault w (tick w) = None →
  IndexedDBStorage.saveEvidence caseId data w =
  (Ok (),
   let record := IndexedDBStorage.withKey (evidenceKeyGen w)
                   (IndexedDBStorage.stamped data caseId (clock w (S (tick w)))) in
   setEvidence (evidence_files w ++ [record.1]) record.2 (bumpTick (bumpTick w))).
Proof.
  intros Hf. unfold IndexedDBStorage.saveEvidence.
  rewrite (bind_ok _ _ _ _ _ (idbRequest_ok _ Hf)).
  unfold bind, dateNow, modify. simpl.
  by destruct (IndexedDBStorage.withKey _ _).
Qed.

Lemma saveEvidence_fail caseId data w e :
  fault w (tick w) = Some e →
  IndexedDBStorage.saveEvidence caseId data w = (Err e, bumpTick w).
Proof.
  intros Hf. unfold IndexedDBStorage.saveEvidence.
  by rewrite (bind_err _ _ _ _ _ (idbRequest_err _ _ Hf)).
Qed.

Lemma getReports_run caseId w :
  fault w (tick w) = None →
  IndexedDBStorage.getReports caseId w =
  (Ok (readReports caseId w), bumpTick w).
Proof.
  intros Hf. unfold IndexedDBStorage.getReports.
  by rewrite (bind_ok _ _ _ _ _ (idbRequest_ok _ Hf)).
Qed.

Lemma getEvidence_run caseId w :
  fault w (tick w) = None →
  IndexedDBStorage.getEvidence caseId w = (Ok (evidenceOf caseId w), bumpTick w).
Proof.
  intros Hf. unfold IndexedDBStorage.getEvidence.
  by rewrite (bind_ok _ _ _ _ _ (idbRequest_ok _ Hf)).
Qed.

Lemma getCaseMetadata_run caseId w :
  fault w (tick w) = None →
  IndexedDBStorage.getCaseMetadata caseId w = (Ok (case_metadata w !! caseId), bumpTick w).
Proof.
  intros Hf. unfold IndexedDBStorage.getCaseMetadata.
  by rewrite (bind_ok _ _ _ _ _ (idbRequest_ok _ Hf)).
Qed.

Lemma saveCaseMetadata_run caseId data w :
  fault w (tick w) = None →
  IndexedDBStorage.saveCaseMetadata caseId data w =
  (Ok (), setCaseMetadata
            (<[caseId := <["caseId" := JStr caseId]> data]> (case_metadata w))
            (bumpTick w)).
Proof.
  intros Hf. unfold IndexedDBStorage.saveCaseMetadata.
  by rewrite (bind_ok _ _ _ _ _ (idbRequest_ok _ Hf)).
Qed.

End LocalStore.

(** ** StorageManager and the wrappers *)

Section Saves.
Context `{Platform}.

Lemma then_sync (local sync : Async unit) w w1 :
  local w = (Ok (), w1) →
  (∀ w0, ∃ w', sync w0 = (Ok (), w') ∧ sameLocal w0 w') →
  ∃ w', (run local;
         await available ← FirebaseSync.isAvailable;
         if available then sync else ret ()) w = (Ok (), w')
        ∧ sameLocal w1 w'.
Proof.
  intros Hl Hs. rewrite (bind_ok _ _ _ _ _ Hl).
  unfold bind, FirebaseSync.isAvailable.
  destruct (firestore w1); [apply Hs|].
  eexists. split; [reflexivity | apply sameLocal_refl].
Qed.

Lemma then_sync_fail (local sync : Async unit) w w1 e :
  local w = (Err e, w1) →
  (run local;
   await available ← FirebaseSync.isAvailable;
   if available then sync else ret ()) w = (Err e, w1).
Proof. intros Hl. by rewrite (bind_err _ _ _ _ _ Hl). Qed.


(** C9. A report or evidence write issued with an empty caseId is a
    silent no-op: it returns normally and the whole world, stored records
    included, is what it was. *)
Theorem empty_caseId_is_noop content evidence file fileHash metadata w :
  saveReportToDB "" content evidence w = (Ok (), w)
  ∧ saveEvidenceFileToDB "" file fileHash metadata w = (Ok (), w).
Proof. split; reflexivity. Qed.

(** C10. A record persisted by a report or evidence save carries the
    caseId parameter of the call and the timestamp read from the clock
    during the save, whatever caseId or timestamp fields the data
    argument has. *)
Theorem persisted_record_is_stamped caseId (data : JsObj) w :
  fault w (tick w) = None →
  let now := clock w (S (tick w)) in
  (∃ r w', IndexedDBStorage.saveReport caseId data w = (Ok (), w')
           ∧ reports w' = reports w ++ [r]
           ∧ r !! "caseId" = Some (JStr caseId)
           ∧ r !! "timestamp" = Some (JStr (toISOString now)))
  ∧ (∃ r w', IndexedDBStorage.saveEvidence caseId data w = (Ok (), w')
             ∧ evidence_files w' = evidence_files w ++ [r]
             ∧ r !! "caseId" = Some (JStr caseId)
             ∧ r !! "timestamp" = Some (JStr (toISOString now))).
Proof.
  intros Hf now. split.
  - eexists _, _. split; [by apply saveReport_run|].
    split; [reflexivity|]. simpl.
    rewrite !withKey_lookup by done.
    by rewrite stamped_caseId, stamped_timestamp.
  - eexists _, _. split; [by apply saveEvidence_run|].
    split; [reflexivity|]. simpl.
    rewrite !withKey_lookup by done.
    by rewrite stamped_caseId, stamped_timestamp.
Qed.

(** C2, as the code has it.  When the local store rejects the write, the
    StorageManager operation rejects with that storage error and nothing
    is replicated; the wrappers of index.tsx catch the error, write it to
    the console and return normally, so their caller sees no failure. *)
Theorem storage_error_reaches_console_only
    caseId content evidence metadata file fileHash fileMeta w e :
  caseId ≠ "" →
  fault w (tick w) = Some e →
  StorageManager.saveReport caseId content evidence metadata w
    = (Err e, bumpTick w)
  ∧ StorageManager.saveEvidence caseId file fileHash fileMeta w
    = (Err e, bumpTick w)
  ∧ saveReportToDB caseId content evidence w
    = (Ok (), pushConsole ("Failed to save report" +:+ " " +:+ e) (bumpTick w))
  ∧ saveEvidenceFileToDB caseId file fileHash fileMeta w
    = (Ok (), pushConsole ("Failed to save evidence file" +:+ " " +:+ e) (bumpTick w)).
Proof.
  intros Hid Hf.
  assert (∀ md, StorageManager.saveReport caseId content evidence md w
                = (Err e, bumpTick w)) as Hr.
  { intros md. unfold StorageManager.saveReport.
    apply then_sync_fail. by apply saveReport_fail. }
  assert (StorageManager.saveEvidence caseId file fileHash fileMeta w
          = (Err e, bumpTick w)) as He.
  { unfold StorageManager.saveEvidence.
    apply then_sync_fail. by apply saveEvidence_fail. }
  split_and!; [apply Hr | apply He | |].
  - unfold saveReportToDB. rewrite bool_decide_eq_false_2 by done.
    erewrite tryCatch_err; [reflexivity|].
    apply bind_err, Hr.
  - unfold saveEvidenceFileToDB. rewrite bool_decide_eq_false_2 by done.
    erewrite tryCatch_err; [reflexivity | apply He].
Qed.

End Saves.

(** ** The case aggregate after a report save *)

Section Aggregate.
Context `{Platform}.



Lemma reportsOf_app caseId w r rs gen :
  reportsOf caseId (setReports (rs ++ [r]) gen w)
  = List.filter (IndexedDBStorage.hasCaseId caseId) rs
    ++ (if IndexedDBStorage.hasCaseId caseId r then [r] else []).
Proof. unfold reportsOf. simpl. by rewrite List.filter_app. Qed.

Lemma hasCaseId_own (r : JsObj) caseId :
  r !! "caseId" = Some (JStr caseId) → IndexedDBStorage.hasCaseId caseId r = true.
Proof.
  intros Hr. unfold IndexedDBStorage.hasCaseId, prop. rewrite Hr. simpl.
  by apply bool_decide_eq_true_2.
Qed.

Lemma readReports_Permutation caseId w : readReports caseId w ≡ₚ reportsOf caseId w.
Proof.
  unfold readReports, IndexedDBStorage.inKeyOrder.
  by rewrite !stableSort_Permutation.
Qed.

Lemma readable_objects (items : list JsObj) : forallb readable (JObj <$> items) = true.
Proof. induction items as [|x items IH]; [done|]. by rewrite fmap_cons. Qed.

Lemma entriesOfReport_array (r : JsObj) items :
  r !! "narrativeIndex" = Some (JArr (JObj <$> items)) →
  entriesOfReport r = Ok (JObj <$> items).
Proof.
  intros Hr. unfold entriesOfReport, prop. rewrite Hr. simpl.
  unfold jsOr. simpl. by rewrite readable_objects.
Qed.

Lemma entriesOfReports_Ok rs :
  forallb indexReadable rs = true ↔ ∃ indices, entriesOfReports rs = Ok indices.
Proof.
  induction rs as [|r rs IH]; cbn [forallb entriesOfReports].
  - split; [by eexists | done].
  - rewrite andb_true_iff, IH. unfold indexReadable.
    destruct (entriesOfReport r) as [index|e].
    + split.
      * intros [_ [indices ->]]. by eexists.
      * destruct (entriesOfReports rs); [by eauto | by intros [? ?]].
    + split; [by intros [? _] | by intros [? ?]].
Qed.

Lemma entriesOfReports_Err rs :
  forallb indexReadable rs = false → ∃ e, entriesOfReports rs = Err e.
Proof.
  intros Hf. destruct (entriesOfReports rs) as [indices|e] eqn:He; [|by eexists].
  assert (forallb indexReadable rs = true) as Ht
    by (apply entriesOfReports_Ok; by eexists).
  congruence.
Qed.

Lemma forallb_Permutation {A} (f : A → bool) (l1 l2 : list A) :
  l1 ≡ₚ l2 → forallb f l1 = forallb f l2.
Proof.
  induction 1 as [|x l l' _ IH|x y l|l l' l'' _ IH1 _ IH2]; cbn.
  - done.
  - by rewrite IH.
  - by destruct (f x), (f y).
  - congruence.
Qed.

(** A report save on a database that rejects nothing, up to the merge: the
    report is written, and what follows depends on whether the merge can
    read the indices of the reports of the case. *)
Lemma saveReportToDB_steps caseId content evidence w :
  caseId ≠ "" →
  localOk w →
  ∃ w2 record,
    reports w2 = reports w ++ [record]
    ∧ evidence_files w2 = evidence_files w
    ∧ case_metadata w2 = case_metadata w
    ∧ fault w2 = fault w
    ∧ record !! "caseId" = Some (JStr caseId)
    ∧ record !! "content" = Some (JStr content)
    ∧ record !! "evidence" = Some (JArr (JStr <$> evidence))
    ∧ record !! "reportHash" = Some (JStr (sha256hex content))
    ∧ record !! "narrativeIndex"
      = Some (JArr (JObj <$> extractNarrativeIndex content))
    ∧ (∀ indices, entriesOfReports (readReports caseId w2) = Ok indices →
         ∃ w' agg,
           saveReportToDB caseId content evidence w = (Ok (), w')
           ∧ reports w' = reports w2
           ∧ evidence_files w' = evidence_files w2
           ∧ fault w' = fault w2
           ∧ case_metadata w' = <[caseId := agg]> (case_metadata w2)
           ∧ agg !! "caseId" = Some (JStr caseId)
           ∧ agg !! "reportCount"
             = Some (JNum (Z.of_nat (length (readReports caseId w2))))
           ∧ agg !! "evidenceCount" = Some (JNum (Z.of_nat (length evidence)))
           ∧ agg !! "lastReportHash" = Some (JStr (sha256hex content))
           ∧ agg !! "narrativeIndex" = Some (JArr (mergeEntries indices)))
    ∧ (∀ e, entriesOfReports (readReports caseId w2) = Err e →
         saveReportToDB caseId content evidence w
         = (Ok (), pushConsole ("Failed to save report" +:+ " " +:+ e) (bumpTick w2))).
Proof.
  intros Hid Hok.
  unfold saveReportToDB. rewrite bool_decide_eq_false_2 by done.
  cbv zeta.
  set (extra := Some _).
  unfold StorageManager.saveReport. cbv zeta.
  set (data := spread _ _).
  edestruct (then_sync (IndexedDBStorage.saveReport caseId data)
               (FirebaseSync.syncReport caseId data) w) as (w2 & Hsave & Hl2).
  { apply saveReport_run, Hok. }
  { intros w0. apply syncReport_local. }
  set (record := IndexedDBStorage.withKey _ _) in Hl2.
  cbv zeta in Hl2.
  assert (localOk w2) as Hok2.
  { by apply (sameLocal_localOk _ _ Hl2). }
  destruct Hl2 as [Hst2 Henv2]. unfold localState in Hst2. simpl in Hst2.
  injection Hst2 as Hrep2 Hev2 Hmeta2 _ _.
  unfold environment in Henv2. simpl in Henv2. injection Henv2 as _ Hfault2 _.
  unfold tryCatch. rewrite (bind_ok _ _ _ _ _ Hsave).
  unfold StorageManager.getReports.
  rewrite (bind_ok _ _ _ _ _ (getReports_run caseId w2 (Hok2 _))).
  assert (∀ k, k ≠ "id" → k ≠ "caseId" → k ≠ "timestamp" →
            record.1 !! k = data !! k) as Hfield.
  { intros k ???. unfold record. rewrite withKey_lookup by done.
    by rewrite stamped_other. }
  assert (record.1 !! "caseId" = Some (JStr caseId)) as Hrc.
  { unfold record. rewrite withKey_lookup by done. apply stamped_caseId. }
  assert (record.1 !! "content" = Some (JStr content)) as Hrcontent.
  { rewrite Hfield by done. unfold data, spread, extra. simpl.
    rewrite lookup_union_r by (by rewrite !lookup_insert_ne).
    apply lookup_insert_eq. }
  assert (record.1 !! "evidence" = Some (JArr (JStr <$> evidence))) as Hrev.
  { rewrite Hfield by done. unfold data, spread, extra. simpl.
    rewrite lookup_union_r by (by rewrite !lookup_insert_ne).
    rewrite lookup_insert_ne by done. apply lookup_singleton_eq. }
  assert (record.1 !! "reportHash" = Some (JStr (sha256hex content))) as Hrh.
  { rewrite Hfield by done. unfold data, spread, extra. simpl.
    apply lookup_union_Some_l. apply lookup_insert_eq. }
  assert (record.1 !! "narrativeIndex"
          = Some (JArr (JObj <$> extractNarrativeIndex content))) as Hrn.
  { rewrite Hfield by done. unfold data, spread, extra. simpl.
    apply lookup_union_Some_l.
    rewrite lookup_insert_ne by done. apply lookup_singleton_eq. }
  exists w2, record.1.
  split; [done|]. split; [done|]. split; [done|]. split; [done|].
  split; [done|]. split; [done|]. split; [done|]. split; [done|].
  split; [done|]. split.
  - intros indices Hindices.
    rewrite (bind_ok (liftResult _) _ (bumpTick w2) indices (bumpTick w2))
      by (unfold liftResult; by rewrite Hindices).
    rewrite (bind_ok dateNow _ _ _ _ eq_refl).
    unfold StorageManager.saveCaseMetadata.
    set (agg := insert "reportCount" _ _).
    edestruct (then_sync (IndexedDBStorage.saveCaseMetadata caseId agg)
                 (FirebaseSync.syncMetadata caseId agg) (bumpTick (bumpTick w2)))
      as (w5 & Hput & Hl5).
    { apply saveCaseMetadata_run, Hok2. }
    { intros w0. apply syncMetadata_local. }
    rewrite Hput.
    destruct Hl5 as [Hst5 Henv5]. unfold localState in Hst5. simpl in Hst5.
    injection Hst5 as Hrep5 Hev5 Hmeta5 _ _.
    unfold environment in Henv5. simpl in Henv5. injection Henv5 as _ Hfault5 _.
    exists w5, (<["caseId" := JStr caseId]> agg). by split_and!.
  - intros e He.
    rewrite (bind_err (liftResult _) _ (bumpTick w2) e (bumpTick w2))
      by (unfold liftResult; by rewrite He).
    reflexivity.
Qed.

Lemma caseReadable_snoc caseId w w2 (record : JsObj) items :
  reports w2 = reports w ++ [record] →
  record !! "caseId" = Some (JStr caseId) →
  record !! "narrativeIndex" = Some (JArr (JObj <$> items)) →
  reportsOf caseId w2 = reportsOf caseId w ++ [record]
  ∧ forallb indexReadable (reportsOf caseId w2)
    = forallb indexReadable (reportsOf caseId w).
Proof.
  intros Hrep Hc Hix.
  assert (reportsOf caseId w2 = reportsOf caseId w ++ [record]) as Hof.
  { unfold reportsOf. rewrite Hrep, List.filter_app. simpl.
    by rewrite (hasCaseId_own _ _ Hc). }
  split; [done|]. rewrite Hof, forallb_app. cbn.
  unfold indexReadable at 2. rewrite (entriesOfReport_array _ _ Hix).
  by rewrite !andb_true_r.
Qed.

(** C1, as the code has it.  After a report save for a non-empty caseId on
    a local store that rejects no request: when the merge can read the
    narrative index of every report stored for the case (no index, or an
    array without null or undefined entries, as every index this function
    stores is), the save completes and the stored aggregate of the case
    has reportCount equal to the number of Report records persisted for
    the case, the new one included, and evidenceCount equal to the number
    of evidence names passed to this save, the evidence store not being
    read; when it cannot, the report is stored all the same and the
    aggregates are left as they were. *)
Theorem saveReportToDB_recounts caseId content evidence w :
  caseId ≠ "" →
  localOk w →
  (caseReadable caseId w →
   ∃ w' agg,
     saveReportToDB caseId content evidence w = (Ok (), w')
     ∧ case_metadata w' !! caseId = Some agg
     ∧ prop agg "reportCount" = JNum (Z.of_nat (length (reportsOf caseId w')))
     ∧ prop agg "evidenceCount" = JNum (Z.of_nat (length evidence))
     ∧ length (reportsOf caseId w') = S (length (reportsOf caseId w))
     ∧ evidence_files w' = evidence_files w
     ∧ caseReadable caseId w')
  ∧ (¬ caseReadable caseId w →
     ∃ w' record,
       saveReportToDB caseId content evidence w = (Ok (), w')
       ∧ reports w' = reports w ++ [record]
       ∧ record !! "caseId" = Some (JStr caseId)
       ∧ evidence_files w' = evidence_files w
       ∧ case_metadata w' = case_metadata w).
Proof.
  intros Hid Hok.
  destruct (saveReportToDB_steps caseId content evidence w Hid Hok)
    as (w2 & record & Hrep2 & Hev2 & Hmeta2 & Hfault2 & Hc & _ & _ & _ & Hix
        & Hgood & Hbad).
  destruct (caseReadable_snoc caseId w w2 record _ Hrep2 Hc Hix) as [Hof2 Hread2].
  split.
  - intros Hread. unfold caseReadable in Hread.
    destruct (proj1 (entriesOfReports_Ok (readReports caseId w2))) as [indices Hi].
    { rewrite (forallb_Permutation _ _ _ (readReports_Permutation caseId w2)).
      by rewrite Hread2. }
    destruct (Hgood indices Hi)
      as (w' & agg & Hrun & Hrep & Hev & _ & Hmeta & _ & Hcount & Hecount & _).
    assert (reportsOf caseId w' = reportsOf caseId w2) as Hof.
    { unfold reportsOf. by rewrite Hrep. }
    exists w', agg. split_and!.
    + done.
    + rewrite Hmeta. apply lookup_insert_eq.
    + unfold prop. rewrite Hcount. cbn.
      by rewrite (readReports_Permutation caseId w2), Hof.
    + unfold prop. by rewrite Hecount.
    + rewrite Hof, Hof2, length_app. cbn. lia.
    + by rewrite Hev, Hev2.
    + unfold caseReadable. by rewrite Hof, Hread2.
  - intros Hunread.
    assert (forallb indexReadable (reportsOf caseId w) = false) as Hf.
    { unfold caseReadable in Hunread. by destruct (forallb _ _). }
    destruct (entriesOfReports_Err (readReports caseId w2)) as [e He].
    { rewrite (forallb_Permutation _ _ _ (readReports_Permutation caseId w2)).
      by rewrite Hread2. }
    exists (pushConsole ("Failed to save report" +:+ " " +:+ e) (bumpTick w2)), record.
    split_and!; [by apply Hbad | done..].
Qed.

End Aggregate.

(** ** Export: the binary payload does not flow into the document *)

Section ExportData.
Context `{Platform}.

Lemma simulates_ret {A} (RA : A → A → Prop) a1 a2 :
  RA a1 a2 → simulates RA (ret a1) (ret a2).
Proof. intros Ha w1 w2 Hw. by split. Qed.

Lemma simulates_bind {A B} (RA : A → A → Prop) (RB : B → B → Prop) m1 m2 k1 k2 :
  simulates RA m1 m2 →
  (∀ a1 a2, RA a1 a2 → simulates RB (k1 a1) (k2 a2)) →
  simulates RB (bind m1 k1) (bind m2 k2).
Proof.
  intros Hm Hk w1 w2 Hw. specialize (Hm w1 w2 Hw). unfold bind.
  destruct (m1 w1) as [[a1|e1] w1'], (m2 w2) as [[a2|e2] w2']; try done.
  destruct Hm as [Ha Hw']. by apply Hk.
Qed.

Lemma payloadVariant_bumpTick w1 w2 :
  payloadVariant w1 w2 → payloadVariant (bumpTick w1) (bumpTick w2).
Proof.
  intros (Hev & Hrep & Hmeta & Htick & Hclock & Hfault).
  split_and!; simpl; try done. by rewrite Htick.
Qed.

Lemma simulates_idbRequest : simulates eq idbRequest idbRequest.
Proof.
  intros w1 w2 Hw. pose proof (payloadVariant_bumpTick _ _ Hw) as Hb.
  destruct Hw as (_ & _ & _ & Htick & _ & Hfault).
  unfold idbRequest. rewrite Hfault, Htick.
  by destruct (fault w2 (tick w2)).
Qed.

Lemma simulates_dateNow : simulates eq dateNow dateNow.
Proof.
  intros w1 w2 Hw. pose proof (payloadVariant_bumpTick _ _ Hw) as Hb.
  destruct Hw as (_ & _ & _ & Htick & Hclock & _).
  unfold dateNow. by rewrite Hclock, Htick.
Qed.

Lemma simulates_getWorld : simulates payloadVariant getWorld getWorld.
Proof. by intros w1 w2 Hw. Qed.

Lemma samePayloadFree_lookup e1 e2 k :
  samePayloadFree e1 e2 → k ≠ "binaryData" → e1 !! k = e2 !! k.
Proof.
  intros He Hk. unfold samePayloadFree in He.
  rewrite <- (lookup_delete_ne e1 "binaryData" k) by done.
  rewrite <- (lookup_delete_ne e2 "binaryData" k) by done.
  by rewrite He.
Qed.

(** Redaction forgets the payload. *)
Lemma redact_samePayloadFree e1 e2 :
  samePayloadFree e1 e2 → StorageManager.redact e1 = StorageManager.redact e2.
Proof.
  intros He. unfold StorageManager.redact, prop.
  rewrite (samePayloadFree_lookup e1 e2 "fileSize") by done.
  rewrite <- (insert_delete_eq e1), <- (insert_delete_eq e2).
  by rewrite He.
Qed.

Lemma hasCaseId_samePayloadFree caseId e1 e2 :
  samePayloadFree e1 e2 →
  IndexedDBStorage.hasCaseId caseId e1 = IndexedDBStorage.hasCaseId caseId e2.
Proof.
  intros He. unfold IndexedDBStorage.hasCaseId, prop.
  by rewrite (samePayloadFree_lookup e1 e2 "caseId").
Qed.

Lemma filter_samePayloadFree caseId es1 es2 :
  Forall2 samePayloadFree es1 es2 →
  Forall2 samePayloadFree
    (List.filter (IndexedDBStorage.hasCaseId caseId) es1)
    (List.filter (IndexedDBStorage.hasCaseId caseId) es2).
Proof.
  induction 1 as [|e1 e2 es1 es2 He _ IH]; simpl; [constructor|].
  rewrite (hasCaseId_samePayloadFree caseId _ _ He).
  destruct (IndexedDBStorage.hasCaseId caseId e2); [by constructor | done].
Qed.

Lemma redact_all es1 es2 :
  Forall2 samePayloadFree es1 es2 →
  (λ e, JObj (StorageManager.redact e)) <$> es1
  = (λ e, JObj (StorageManager.redact e)) <$> es2.
Proof.
  induction 1 as [|e1 e2 es1 es2 He _ IH]; [done|].
  rewrite !fmap_cons. by rewrite (redact_samePayloadFree _ _ He), IH.
Qed.

Lemma simulates_getReports caseId :
  simulates eq (StorageManager.getReports caseId) (StorageManager.getReports caseId).
Proof.
  unfold StorageManager.getReports, IndexedDBStorage.getReports.
  eapply simulates_bind; [apply simulates_idbRequest|]. intros _ _ _.
  eapply simulates_bind; [apply simulates_getWorld|]. intros w1 w2 Hw.
  apply simulates_ret. destruct Hw as (_ & Hrep & _). by rewrite Hrep.
Qed.

Lemma simulates_getEvidence caseId :
  simulates (Forall2 samePayloadFree)
    (StorageManager.getEvidence caseId) (StorageManager.getEvidence caseId).
Proof.
  unfold StorageManager.getEvidence, IndexedDBStorage.getEvidence.
  eapply simulates_bind; [apply simulates_idbRequest|]. intros _ _ _.
  eapply simulates_bind; [apply simulates_getWorld|]. intros w1 w2 Hw.
  apply simulates_ret. destruct Hw as (Hev & _).
  by apply filter_samePayloadFree.
Qed.

Lemma simulates_getCaseMetadata caseId :
  simulates eq (StorageManager.getCaseMetadata caseId)
    (StorageManager.getCaseMetadata caseId).
Proof.
  unfold StorageManager.getCaseMetadata, IndexedDBStorage.getCaseMetadata.
  eapply simulates_bind; [apply simulates_idbRequest|]. intros _ _ _.
  eapply simulates_bind; [apply simulates_getWorld|]. intros w1 w2 Hw.
  apply simulates_ret. destruct Hw as (_ & _ & Hmeta & _). by rewrite Hmeta.
Qed.

Lemma simulates_getAllCases :
  simulates eq StorageManager.getAllCases StorageManager.getAllCases.
Proof.
  unfold StorageManager.getAllCases, IndexedDBStorage.getAllCases.
  eapply simulates_bind; [apply simulates_idbRequest|]. intros _ _ _.
  eapply simulates_bind; [apply simulates_getWorld|]. intros w1 w2 Hw.
  apply simulates_ret. destruct Hw as (_ & Hrep & _). by rewrite Hrep.
Qed.

Lemma simulates_exportCase caseId :
  simulates eq (StorageManager.exportCase caseId) (StorageManager.exportCase caseId).
Proof.
  unfold StorageManager.exportCase.
  eapply simulates_bind; [apply simulates_getReports|]. intros rs ? <-.
  eapply simulates_bind; [apply simulates_getEvidence|]. intros es1 es2 Hes.
  eapply simulates_bind; [apply simulates_getCaseMetadata|]. intros md ? <-.
  apply simulates_ret. by rewrite (redact_all _ _ Hes).
Qed.

Lemma simulates_exportCases cases acc :
  simulates eq (StorageManager.exportCases cases acc)
    (StorageManager.exportCases cases acc).
Proof.
  revert acc. induction cases as [|c cases IH]; intros acc; simpl.
  - by apply simulates_ret.
  - eapply simulates_bind; [apply simulates_exportCase|]. intros e ? <-.
    apply IH.
Qed.

Lemma simulates_exportAllData :
  simulates eq StorageManager.exportAllData StorageManager.exportAllData.
Proof.
  unfold StorageManager.exportAllData.
  eapply simulates_bind; [apply simulates_getAllCases|]. intros cases ? <-.
  eapply simulates_bind; [apply simulates_dateNow|]. intros now ? <-.
  eapply simulates_bind; [apply simulates_exportCases|]. intros entries ? <-.
  by apply simulates_ret.
Qed.

Lemma simulates_result {A} (m : Async A) w1 w2 :
  simulates eq m m → payloadVariant w1 w2 → (m w1).1 = (m w2).1.
Proof.
  intros Hm Hw. specialize (Hm w1 w2 Hw).
  destruct (m w1) as [[a1|e1] w1'], (m w2) as [[a2|e2] w2']; simpl; try done.
  - by destruct Hm as [-> _].
  - by destruct Hm as [-> _].
Qed.

(** The shape of the document when the store answers. *)
Lemma entryOf_sameLocal caseId w w' :
  sameLocal w w' → entryOf caseId w' = entryOf caseId w.
Proof.
  intros [Hst _]. unfold localState in Hst. injection Hst as Hr He Hm _ _.
  unfold entryOf, readReports, reportsOf, evidenceOf. by rewrite Hr, He, Hm.
Qed.

Lemma exportCase_run caseId w :
  localOk w →
  StorageManager.exportCase caseId w
  = (Ok (entryOf caseId w), bumpTick (bumpTick (bumpTick w))).
Proof.
  intros Hok. unfold StorageManager.exportCase.
  unfold StorageManager.getReports, StorageManager.getEvidence,
    StorageManager.getCaseMetadata.
  rewrite (bind_ok _ _ _ _ _ (getReports_run caseId w (Hok _))).
  rewrite (bind_ok _ _ _ _ _ (getEvidence_run caseId (bumpTick w) (Hok _))).
  rewrite (bind_ok _ _ _ _ _
             (getCaseMetadata_run caseId (bumpTick (bumpTick w)) (Hok _))).
  reflexivity.
Qed.

Lemma exportCases_run cases acc w :
  localOk w →
  ∃ w', StorageManager.exportCases cases acc w
        = (Ok (foldl (λ acc caseId, assign acc caseId (entryOf caseId w)) acc cases), w')
        ∧ sameLocal w w'.
Proof.
  revert acc w. induction cases as [|c cases IH]; intros acc w Hok; simpl.
  - eexists. split; [reflexivity | apply sameLocal_refl].
  - rewrite (bind_ok _ _ _ _ _ (exportCase_run c w Hok)).
    assert (sameLocal w (bumpTick (bumpTick (bumpTick w)))) as Hl by by split.
    destruct (IH (assign acc c (entryOf c w)) _ (sameLocal_localOk _ _ Hl Hok))
      as (w' & -> & Hl').
    exists w'. split; [reflexivity | by eapply sameLocal_trans].
Qed.

Lemma foldl_entries (f : string → JsVal) cases (acc : JsObj) caseId entry :
  (∀ c e, acc !! c = Some e → e = f c) →
  foldl (λ (acc : JsObj) c, assign acc c (f c)) acc cases !! caseId = Some entry →
  entry = f caseId.
Proof.
  revert acc. induction cases as [|c cases IH]; intros acc Hacc; simpl.
  - apply Hacc.
  - apply IH. intros c' e. unfold assign. case_bool_decide; [apply Hacc|].
    destruct (decide (c = c')) as [->|Hne].
    + rewrite lookup_insert_eq. congruence.
    + rewrite lookup_insert_ne by done. apply Hacc.
Qed.

Lemma getAllCases_run w :
  fault w (tick w) = None →
  StorageManager.getAllCases w
  = (Ok (IndexedDBStorage.distinct
           (omap IndexedDBStorage.caseIdOf (IndexedDBStorage.inKeyOrder (reports w)))),
     bumpTick w).
Proof.
  intros Hf. unfold StorageManager.getAllCases, IndexedDBStorage.getAllCases.
  by rewrite (bind_ok _ _ _ _ _ (idbRequest_ok _ Hf)).
Qed.

(** The record StorageManager.saveEvidence hands to the local store. *)
Lemma saved_evidence_placeholder (file : File.t) fileHash metadata caseId now gen :
  let data : JsObj :=
    {[ "fileName" := JStr (File.name file);
       "fileType" := JStr (File.type file);
       "fileSize" := JNum (File.size file);
       "fileHash" := JStr fileHash;
       "binaryData" := JBytes (File.bytes file);
       "metadata" := metadata ]} in
  let record := (IndexedDBStorage.withKey gen
                   (IndexedDBStorage.stamped data caseId now)).1 in
  record !! "binaryData" = Some (JBytes (File.bytes file))
  ∧ StorageManager.redact record !! "binaryData"
    = Some (JStr ("<BINARY " +:+ pretty (Z.of_nat (length (File.bytes file)))
                  +:+ " bytes>")).
Proof.
  intros data record.
  assert (∀ k, k ≠ "id" → k ≠ "caseId" → k ≠ "timestamp" →
               record !! k = data !! k) as Hrec.
  { intros k ? ? ?. unfold record.
    rewrite withKey_lookup by done. by apply stamped_other. }
  split.
  - rewrite Hrec by done. unfold data.
    rewrite !lookup_insert_ne by done. by rewrite lookup_insert_eq.
  - unfold StorageManager.redact. rewrite lookup_insert_eq.
    unfold prop. rewrite Hrec by done. unfold data.
    rewrite !lookup_insert_ne by done. by rewrite lookup_insert_eq.
Qed.

(** C6. For every stored state, each evidence entry of the exported
    document is the stored record with binaryData replaced by a
    placeholder built from the fileSize field alone, which for a record
    written by saveEvidence is the byte count of the file; and two states
    that differ only in the binaryData of their evidence records yield
    the same export. *)
Theorem exportAllData_hides_payload w :
  (localOk w →
   ∃ entries exportedAt,
     (StorageManager.exportAllData w).1
     = Ok (JObj {[ "cases" := JObj entries; "exportedAt" := JStr exportedAt ]})
     ∧ ∀ caseId entry, entries !! caseId = Some entry → entry = entryOf caseId w)
  ∧ (∀ e : JsObj,
       StorageManager.redact e !! "binaryData"
       = Some (JStr (StorageManager.placeholder (prop e "fileSize"))))
  ∧ (∀ (file : File.t) fileHash metadata caseId now gen,
       StorageManager.redact
         (IndexedDBStorage.withKey gen
            (IndexedDBStorage.stamped
               {[ "fileName" := JStr (File.name file);
                  "fileType" := JStr (File.type file);
                  "fileSize" := JNum (File.size file);
                  "fileHash" := JStr fileHash;
                  "binaryData" := JBytes (File.bytes file);
                  "metadata" := metadata ]} caseId now)).1 !! "binaryData"
       = Some (JStr ("<BINARY " +:+ pretty (Z.of_nat (length (File.bytes file)))
                     +:+ " bytes>")))
  ∧ (∀ w2, payloadVariant w w2 →
       (StorageManager.exportAllData w).1 = (StorageManager.exportAllData w2).1).
Proof.
  split_and!.
  - intros Hok. unfold StorageManager.exportAllData.
    rewrite (bind_ok _ _ _ _ _ (getAllCases_run w (Hok _))).
    rewrite (bind_ok dateNow _ _ _ _ eq_refl).
    set (cases := IndexedDBStorage.distinct _).
    set (w3 := bumpTick (bumpTick w)).
    assert (sameLocal w w3) as Hl by by split.
    destruct (exportCases_run cases ∅ w3 (sameLocal_localOk _ _ Hl Hok))
      as (w' & Hrun & _).
    rewrite (bind_ok _ _ _ _ _ Hrun). simpl.
    eexists _, _. split; [reflexivity|].
    intros caseId entry Hentry.
    apply (foldl_entries (λ c, entryOf c w) cases ∅); [|done].
    intros c e. by rewrite lookup_empty.
  - intros e. apply lookup_insert_eq.
  - intros file fileHash metadata caseId now gen.
    apply (saved_evidence_placeholder file fileHash metadata caseId now gen).
  - intros w2 Hw. by apply simulates_result, Hw; apply simulates_exportAllData.
Qed.

End ExportData.

(** ** The offline engine: metadata anomalies *)

Section MetadataScan.
Context `{Platform}.






End MetadataScan.

(** ** The offline engine: temporal gaps *)

Section TemporalScan.
Context `{Platform}.
















Lemma insertSorted_Sorted x (l : list Forensic.t) :
  Sorted notAfter l → Sorted notAfter (insertSorted byLastModified x l).
Proof.
  induction 1 as [|y l Hl IH Hhd]; simpl.
  - by repeat constructor.
  - unfold byLastModified at 1.
    destruct (Z.leb_spec (Forensic.lastModified x - Forensic.lastModified y) 0).
    + constructor; [by constructor|]. constructor. unfold notAfter. lia.
    + constructor; [done|].
      destruct l as [|z l]; simpl.
      * constructor. unfold notAfter. lia.
      * destruct (byLastModified x z <=? 0).
        -- constructor. unfold notAfter. lia.
        -- constructor. by inversion Hhd.
Qed.

Lemma sortedFiles_Sorted localForensics : Sorted notAfter (sortedFiles localForensics).
Proof.
  unfold sortedFiles, stableSort.
  induction localForensics as [|x l IH]; simpl; [constructor|].
  by apply insertSorted_Sorted.
Qed.







End TemporalScan.

(** ** The case aggregate is put, not merged *)

Section CaseMetadata.
Context `{Platform}.

(** What saveCaseMetadata leaves in the local store: the given fields
    under the caseId, whatever was there; other cases are not touched. *)
Lemma saveCaseMetadata_puts caseId (data : JsObj) w :
  fault w (tick w) = None →
  ∃ w', StorageManager.saveCaseMetadata caseId data w = (Ok (), w')
        ∧ case_metadata w' !! caseId = Some (<["caseId" := JStr caseId]> data)
        ∧ ∀ other, other ≠ caseId →
            case_metadata w' !! other = case_metadata w !! other.
Proof.
  intros Hf. unfold StorageManager.saveCaseMetadata.
  edestruct (then_sync (IndexedDBStorage.saveCaseMetadata caseId data)
               (FirebaseSync.syncMetadata caseId data) w) as (w' & Hrun & Hl).
  { by apply saveCaseMetadata_run. }
  { intros w0. apply syncMetadata_local. }
  exists w'. split; [done|].
  destruct Hl as [Hst _]. unfold localState in Hst. simpl in Hst.
  injection Hst as _ _ Hmeta _ _. rewrite Hmeta. split.
  - apply lookup_insert_eq.
  - intros other Hne. by rewrite lookup_insert_ne.
Qed.

End CaseMetadata.

(** ** The model on the sample data *)

Section Examples.
#[local] Existing Instance samplePlatform.

(** C1 does not hold as stated: a first report that names two evidence
    files leaves evidenceCount at 2 while no EvidenceFile record of the
    case is persisted. *)
Lemma evidenceCount_is_not_a_store_count :
  aggregateField afterFirstReport "case-1" "reportCount" = Some (JNum 1)
  ∧ aggregateField afterFirstReport "case-1" "evidenceCount" = Some (JNum 2)
  ∧ Z.of_nat (length (evidenceOf "case-1" afterFirstReport)) = 0.
Proof. split_and!; vm_compute; reflexivity. Qed.

(** The recount on a second report of case-1, which names one file. *)
Lemma saveReportToDB_recounts_witness :
  "case-1" ≠ ""
  ∧ localOk afterFirstReport
  ∧ caseReadable "case-1" afterFirstReport
  ∧ (∃ w' agg,
       saveReportToDB "case-1" "Addendum" ["c.txt"] afterFirstReport = (Ok (), w')
       ∧ case_metadata w' !! "case-1" = Some agg
       ∧ prop agg "reportCount" = JNum (Z.of_nat (length (reportsOf "case-1" w')))
       ∧ prop agg "evidenceCount" = JNum (Z.of_nat (length ["c.txt"]))
       ∧ length (reportsOf "case-1" w') = S (length (reportsOf "case-1" afterFirstReport))
       ∧ evidence_files w' = evidence_files afterFirstReport
       ∧ caseReadable "case-1" w')
  ∧ localOk legacyArchive
  ∧ ¬ caseReadable "case-1" legacyArchive
  ∧ (∃ w' record,
       saveReportToDB "case-1" "Addendum" ["c.txt"] legacyArchive = (Ok (), w')
       ∧ reports w' = reports legacyArchive ++ [record]
       ∧ record !! "caseId" = Some (JStr "case-1")
       ∧ evidence_files w' = evidence_files legacyArchive
       ∧ case_metadata w' = case_metadata legacyArchive).
Proof.
  assert (caseReadable "case-1" afterFirstReport) as Hread
    by (vm_compute; reflexivity).
  assert (¬ caseReadable "case-1" legacyArchive) as Hunread
    by (vm_compute; discriminate).
  split_and!.
  - discriminate.
  - intros n. reflexivity.
  - exact Hread.
  - apply (saveReportToDB_recounts "case-1" "Addendum" ["c.txt"] afterFirstReport);
      [discriminate | intros n; reflexivity | exact Hread].
  - intros n. reflexivity.
  - exact Hunread.
  - apply (saveReportToDB_recounts "case-1" "Addendum" ["c.txt"] legacyArchive);
      [discriminate | intros n; reflexivity | exact Hunread].
Defined.

(** C2 does not hold as stated: with a local store that rejects the
    write, both wrappers return normally; nothing is stored and the error
    is only on the console. *)
Lemma storage_error_is_swallowed :
  fault fullDiskWorld (tick fullDiskWorld) = Some "QuotaExceededError"
  ∧ (saveReportToDB "case-1" "Findings" ["a.pdf"] fullDiskWorld).1 = Ok ()
  ∧ (saveEvidenceFileToDB "case-1" scanA "digest" JNull fullDiskWorld).1 = Ok ()
  ∧ reports (saveReportToDB "case-1" "Findings" ["a.pdf"] fullDiskWorld).2 = []
  ∧ console (saveReportToDB "case-1" "Findings" ["a.pdf"] fullDiskWorld).2
    = ["Failed to save report QuotaExceededError"].
Proof. split_and!; vm_compute; reflexivity. Qed.

(** The same failure, seen at both levels. *)
Lemma storage_error_witness :
  "case-1" ≠ ""
  ∧ fault fullDiskWorld (tick fullDiskWorld) = Some "QuotaExceededError"
  ∧ StorageManager.saveReport "case-1" "Findings" ["a.pdf"] None fullDiskWorld
    = (Err "QuotaExceededError", bumpTick fullDiskWorld)
  ∧ StorageManager.saveEvidence "case-1" scanA "digest" JNull fullDiskWorld
    = (Err "QuotaExceededError", bumpTick fullDiskWorld)
  ∧ saveReportToDB "case-1" "Findings" ["a.pdf"] fullDiskWorld
    = (Ok (), pushConsole ("Failed to save report" +:+ " " +:+ "QuotaExceededError")
                (bumpTick fullDiskWorld))
  ∧ saveEvidenceFileToDB "case-1" scanA "digest" JNull fullDiskWorld
    = (Ok (), pushConsole ("Failed to save evidence file" +:+ " " +:+ "QuotaExceededError")
                (bumpTick fullDiskWorld)).
Proof.
  split; [discriminate|]. split; [reflexivity|].
  apply (storage_error_reaches_console_only "case-1" "Findings" ["a.pdf"] None
           scanA "digest" JNull fullDiskWorld "QuotaExceededError").
  - discriminate.
  - reflexivity.
Defined.

(** C3, the defect at work: the aggregate of case-1 is saved with createdAt
    and tags, locally and on the replica; saving the single field
    reportCount afterwards leaves a local record without them, while the
    replica document, written with merge, keeps them. *)
Theorem saveCaseMetadata_drops_fields :
  aggregateField aggregateWorld "case-1" "createdAt" = Some (JStr "1000")
  ∧ aggregateField aggregateWorld "case-1" "tags" = Some (JArr [JStr "fraud"])
  ∧ aggregateField
      (StorageManager.saveCaseMetadata "case-1" {[ "reportCount" := JNum 2 ]}
         aggregateWorld).2 "case-1" "reportCount"
    = Some (JNum 2)
  ∧ aggregateField
      (StorageManager.saveCaseMetadata "case-1" {[ "reportCount" := JNum 2 ]}
         aggregateWorld).2 "case-1" "createdAt"
    = None
  ∧ aggregateField
      (StorageManager.saveCaseMetadata "case-1" {[ "reportCount" := JNum 2 ]}
         aggregateWorld).2 "case-1" "tags"
    = None
  ∧ replicaField
      (StorageManager.saveCaseMetadata "case-1" {[ "reportCount" := JNum 2 ]}
         aggregateWorld).2 "cases/case-1" "reportCount"
    = Some (JNum 2)
  ∧ replicaField
      (StorageManager.saveCaseMetadata "case-1" {[ "reportCount" := JNum 2 ]}
         aggregateWorld).2 "cases/case-1" "createdAt"
    = Some (JStr "1000").
Proof. split_and!; vm_compute; reflexivity. Qed.

(** Three lists merged in two orders: the same keys, first seen in a
    different order. *)
Lemma merge_keys_permutation_witness :
  [Some [factSection; factPerson]; None; Some [factPerson; factDate]]
  ≡ₚ [Some [factPerson; factDate]; Some [factSection; factPerson]; None]
  ∧ keysOf (mergeNarrativeIndices
              [Some [factSection; factPerson]; None; Some [factPerson; factDate]])
    = ["section-2-Parties"; "entity-person-Ada Lovelace"; "entity-date-2025-09-19"]
  ∧ keysOf (mergeNarrativeIndices
              [Some [factPerson; factDate]; Some [factSection; factPerson]; None])
    = ["entity-person-Ada Lovelace"; "entity-date-2025-09-19"; "section-2-Parties"]
  ∧ NoDup (keysOf (mergeNarrativeIndices
                     [Some [factSection; factPerson]; None; Some [factPerson; factDate]])).
Proof.
  assert ([Some [factSection; factPerson]; None; Some [factPerson; factDate]]
          ≡ₚ [Some [factPerson; factDate]; Some [factSection; factPerson]; None])
    as Hp.
  { apply (Permutation_app_comm [_; _] [_]). }
  split; [exact Hp|].
  split; [vm_compute; reflexivity|].
  split; [vm_compute; reflexivity|].
  exact (proj1 (proj2 (proj2 (proj2 (merge_keys_permutation _ _ Hp))))).
Defined.

(** Data that carries another caseId and an old timestamp is stored under
    the caseId of the call and the time of the save. *)
Lemma persisted_record_is_stamped_witness :
  fault emptyWorld (tick emptyWorld) = None
  ∧ forgedData !! "caseId" = Some (JStr "other-case")
  ∧ (∃ r w', IndexedDBStorage.saveReport "case-1" forgedData emptyWorld = (Ok (), w')
             ∧ reports w' = reports emptyWorld ++ [r]
             ∧ r !! "caseId" = Some (JStr "case-1")
             ∧ r !! "timestamp"
               = Some (JStr (toISOString (clock emptyWorld (S (tick emptyWorld))))))
  ∧ (∃ r w', IndexedDBStorage.saveEvidence "case-1" forgedData emptyWorld = (Ok (), w')
             ∧ evidence_files w' = evidence_files emptyWorld ++ [r]
             ∧ r !! "caseId" = Some (JStr "case-1")
             ∧ r !! "timestamp"
               = Some (JStr (toISOString (clock emptyWorld (S (tick emptyWorld)))))).
Proof.
  split; [reflexivity|]. split; [vm_compute; reflexivity|].
  apply (persisted_record_is_stamped "case-1" forgedData emptyWorld).
  reflexivity.
Defined.

(** Two archives that hold the same file with different bytes export the
    same document. *)
Lemma exportAllData_hides_payload_witness :
  payloadVariant (archive scanA) (archive scanB)
  ∧ storedScan scanA !! "binaryData" = Some (JBytes [Byte.x25; Byte.x50; Byte.x44])
  ∧ storedScan scanB !! "binaryData" = Some (JBytes [Byte.x00; Byte.xff; Byte.x7f])
  ∧ StorageManager.redact (storedScan scanA) !! "binaryData"
    = Some (JStr "<BINARY 3 bytes>")
  ∧ (StorageManager.exportAllData (archive scanA)).1
    = (StorageManager.exportAllData (archive scanB)).1.
Proof.
  assert (payloadVariant (archive scanA) (archive scanB)) as Hv.
  { split_and!; try reflexivity.
    constructor; [|constructor].
    unfold samePayloadFree, storedScan. by rewrite !delete_insert_eq. }
  split; [exact Hv|].
  split; [apply lookup_insert_eq|].
  split; [apply lookup_insert_eq|].
  split; [vm_compute; reflexivity|].
  exact (proj2 (proj2 (proj2 (exportAllData_hides_payload (archive scanA)))) _ Hv).
Defined.



End Examples.

(** ** Merge: first-seen order and incremental merging *)

Section FirstSeen.

Implicit Types (st : MergeState) (items : list JsObj) (seen : gset string).

Lemma foldl_mergeItem_firstSeen items st :
  foldl mergeItem st items
  = (st.1 ++ firstSeenFrom st.2 items, list_to_set (keysOf items) ∪ st.2).
Proof.
  revert st. induction items as [|x xs IH]; intros [merged seen]; cbn [foldl].
  - cbn. rewrite app_nil_r. f_equal. set_solver.
  - rewrite IH. unfold mergeItem. cbn [fst snd firstSeenFrom].
    case_bool_decide as Hin; cbn [fst snd].
    + f_equal. unfold keysOf. rewrite fmap_cons. cbn. set_solver.
    + rewrite <- app_assoc. f_equal. unfold keysOf. rewrite fmap_cons. cbn.
      set_solver.
Qed.

Lemma firstSeenFrom_app seen items1 items2 :
  firstSeenFrom seen (items1 ++ items2)
  = firstSeenFrom seen items1
    ++ firstSeenFrom (list_to_set (keysOf items1) ∪ seen) items2.
Proof.
  revert seen. induction items1 as [|x xs IH]; intros seen; cbn [app firstSeenFrom].
  - cbn. f_equal. set_solver.
  - unfold keysOf. rewrite fmap_cons. fold (keysOf xs). cbn [list_to_set].
    case_bool_decide as Hin.
    + rewrite IH. do 2 f_equal. set_solver.
    + rewrite IH. cbn. do 3 f_equal. set_solver.
Qed.

Lemma foldl_mergeIndex_firstSeen indices st :
  foldl mergeIndex st indices
  = (st.1 ++ firstSeenFrom st.2 (allItems indices),
     list_to_set (keysOf (allItems indices)) ∪ st.2).
Proof.
  revert st. induction indices as [|index indices IH]; intros [merged seen];
    cbn [foldl].
  - cbn. rewrite app_nil_r. f_equal. set_solver.
  - rewrite IH. unfold allItems. cbn [fmap list_fmap concat].
    fold (allItems indices).
    destruct index as [items|]; cbn [mergeIndex default].
    + rewrite foldl_mergeItem_firstSeen. cbn [fst snd].
      rewrite firstSeenFrom_app, <- app_assoc. f_equal.
      unfold keysOf. rewrite fmap_app, list_to_set_app_L. set_solver.
    + cbn [app fst snd]. done.
Qed.

Lemma merge_firstSeen indices :
  mergeNarrativeIndices indices = firstSeen (allItems indices).
Proof.
  unfold mergeNarrativeIndices. by rewrite foldl_mergeIndex_firstSeen.
Qed.

Lemma firstSeenFrom_sublist seen items : firstSeenFrom seen items `sublist_of` items.
Proof.
  revert seen. induction items as [|x xs IH]; intros seen; cbn; [done|].
  case_bool_decide; [by apply sublist_cons | by apply sublist_skip].
Qed.

Lemma firstSeenFrom_first seen items item :
  item ∈ firstSeenFrom seen items →
  ∃ before after,
    items = before ++ (item :: after)
    ∧ (dedupKey item ∉ keysOf before)
    ∧ (dedupKey item ∉ seen).
Proof.
  revert seen. induction items as [|x xs IH]; intros seen; cbn.
  - by intros ?%elem_of_nil.
  - case_bool_decide as Hin.
    + intros (before & after & -> & Hb & Hs)%IH.
      exists (x :: before), after. split_and!; [done | | done].
      rewrite keysOf_cons. intros [Heq|?]; [|done]. apply Hs. by rewrite Heq.
    + intros [->|Hitem]%elem_of_cons.
      * exists [], xs. split_and!; [done | by intros ?%keysOf_nil | exact Hin].
      * apply IH in Hitem as (before & after & -> & Hb & Hs).
        exists (x :: before), after. split_and!; [done | | set_solver].
        rewrite keysOf_cons. intros [Heq|?]; [|done]. set_solver.
Qed.

(** A list with pairwise distinct keys, none of them seen, is kept whole. *)
Lemma firstSeenFrom_fresh seen items :
  NoDup (keysOf items) → (∀ k, k ∈ keysOf items → k ∉ seen) →
  firstSeenFrom seen items = items.
Proof.
  revert seen. induction items as [|x xs IH]; intros seen Hnd Hfresh; cbn; [done|].
  unfold keysOf in Hnd. rewrite fmap_cons in Hnd. fold (keysOf xs) in Hnd.
  apply NoDup_cons in Hnd as [Hx Hnd].
  rewrite bool_decide_eq_false_2
    by (apply Hfresh; rewrite keysOf_cons; by left).
  f_equal. apply IH; [done|].
  intros k Hk. rewrite elem_of_union, elem_of_singleton.
  intros [->|Hs]; [done|]. apply (Hfresh k); [|done]. rewrite keysOf_cons. by right.
Qed.

Lemma keys_of_merge indices :
  list_to_set (C := gset string) (keysOf (mergeNarrativeIndices indices))
  = list_to_set (keysOf (allItems indices)).
Proof.
  apply set_eq. intros k. rewrite !elem_of_list_to_set. apply merge_keys.
Qed.

Lemma allItems_app indices1 indices2 :
  allItems (indices1 ++ indices2) = allItems indices1 ++ allItems indices2.
Proof. unfold allItems. by rewrite fmap_app, concat_app. Qed.

(** X1. mergeNarrativeIndices keeps, of all the facts of its input lists
    read in argument order, the first fact of every dedup key and nothing
    else, in the order those facts are met: the result is a sublist of the
    concatenated input, and every fact of the result stands in the input
    with no fact of the same key before it.  Empty and null lists add
    nothing. *)
Theorem merge_keeps_first_seen (indices : list (option (list JsObj))) :
  mergeNarrativeIndices indices = firstSeen (allItems indices)
  ∧ mergeNarrativeIndices indices `sublist_of` allItems indices
  ∧ (∀ item, item ∈ mergeNarrativeIndices indices →
       ∃ before after,
         allItems indices = before ++ (item :: after)
         ∧ (dedupKey item ∉ keysOf before))
  ∧ mergeNarrativeIndices (None :: indices) = mergeNarrativeIndices indices
  ∧ mergeNarrativeIndices (Some [] :: indices) = mergeNarrativeIndices indices
  ∧ mergeNarrativeIndices [] = [].
Proof.
  split_and!.
  - apply merge_firstSeen.
  - rewrite merge_firstSeen. apply firstSeenFrom_sublist.
  - intros item Hitem. rewrite merge_firstSeen in Hitem.
    apply firstSeenFrom_first in Hitem as (before & after & ? & ? & _). eauto.
  - by rewrite !merge_firstSeen.
  - by rewrite !merge_firstSeen.
  - done.
Qed.

(** X2. Merging can be done incrementally: merging all the stored indices
    and one more gives what merging the previous merged index with the new
    one gives, and merging the lists gives what merging their concatenation
    as one list gives. *)
Theorem merge_incremental (indices : list (option (list JsObj)))
    (index : option (list JsObj)) :
  mergeNarrativeIndices (indices ++ [index])
  = mergeNarrativeIndices [Some (mergeNarrativeIndices indices); index]
  ∧ mergeNarrativeIndices indices = mergeNarrativeIndices [Some (allItems indices)].
Proof.
  split.
  - rewrite (merge_firstSeen (indices ++ [index])), allItems_app.
    rewrite (merge_firstSeen [Some _; index]).
    replace (allItems [Some (mergeNarrativeIndices indices); index])
      with (mergeNarrativeIndices indices ++ allItems [index]) by reflexivity.
    unfold firstSeen. rewrite !firstSeenFrom_app, keys_of_merge. f_equal.
    rewrite (firstSeenFrom_fresh ∅ (mergeNarrativeIndices indices)).
    + symmetry. apply merge_firstSeen.
    + apply merge_NoDup.
    + intros k _. set_solver.
  - rewrite !merge_firstSeen. unfold allItems at 2. cbn. by rewrite app_nil_r.
Qed.

End FirstSeen.

(** ** Sorting: order and stability *)

Section StableSort.
Context {A : Type} (cmp : A → A → Z) (key : A → Z).

Lemma byKey_tail x l : byKey cmp key (x :: l) → byKey cmp key l.
Proof. intros Hk a b Ha Hb. apply Hk; by right. Qed.

Lemma insertSorted_key_Sorted x l :
  byKey cmp key (x :: l) →
  Sorted (λ a b, key a ≤ key b) l →
  Sorted (λ a b, key a ≤ key b) (insertSorted cmp x l).
Proof.
  intros Hk. induction 1 as [|y l Hl IH Hhd]; simpl.
  - by repeat constructor.
  - rewrite (Hk x y) by set_solver.
    destruct (Z.leb_spec (key x - key y) 0).
    + constructor; [by constructor|]. constructor. lia.
    + constructor.
      * apply IH. intros a b Ha Hb. apply Hk; set_solver.
      * destruct l as [|z l]; simpl.
        -- constructor. lia.
        -- destruct (cmp x z <=? 0); constructor; [lia|]. by inversion Hhd.
Qed.

Lemma stableSort_key_Sorted l :
  byKey cmp key l → Sorted (λ a b, key a ≤ key b) (stableSort cmp l).
Proof.
  induction l as [|x l IH]; intros Hk; simpl; [constructor|].
  fold (stableSort cmp l). apply insertSorted_key_Sorted.
  - intros a b Ha Hb. apply Hk.
    + apply elem_of_cons in Ha as [->|Ha]; [left|right].
      by rewrite <- (stableSort_Permutation cmp l).
    + apply elem_of_cons in Hb as [->|Hb]; [left|right].
      by rewrite <- (stableSort_Permutation cmp l).
  - apply IH. by eapply byKey_tail.
Qed.

Lemma insertSorted_havingKey t x l :
  byKey cmp key (x :: l) →
  havingKey key t (insertSorted cmp x l) = havingKey key t (x :: l).
Proof.
  induction l as [|y l IH]; intros Hk; [done|]. simpl.
  rewrite (Hk x y) by set_solver.
  destruct (Z.leb_spec (key x - key y) 0); [done|].
  unfold havingKey in *. simpl. rewrite IH.
  - simpl. destruct (Z.eqb_spec (key x) t), (Z.eqb_spec (key y) t); try done. lia.
  - intros a b Ha Hb. apply Hk; set_solver.
Qed.

(** Elements with the same key keep their order. *)
Lemma stableSort_havingKey t l :
  byKey cmp key l → havingKey key t (stableSort cmp l) = havingKey key t l.
Proof.
  induction l as [|x l IH]; intros Hk; [done|]. simpl.
  fold (stableSort cmp l). rewrite insertSorted_havingKey.
  - unfold havingKey in *. simpl. rewrite IH; [done | by eapply byKey_tail].
  - intros a b Ha Hb. apply Hk.
    + apply elem_of_cons in Ha as [->|Ha]; [left|right].
      by rewrite <- (stableSort_Permutation cmp l).
    + apply elem_of_cons in Hb as [->|Hb]; [left|right].
      by rewrite <- (stableSort_Permutation cmp l).
Qed.

(** A list that is in order already is returned as it is. *)
Lemma stableSort_Sorted_id l :
  byKey cmp key l → Sorted (λ a b, key a ≤ key b) l → stableSort cmp l = l.
Proof.
  intros Hk. induction 1 as [|x l Hl IH Hhd]; [done|]. simpl.
  fold (stableSort cmp l). rewrite IH by by eapply byKey_tail.
  destruct Hhd as [|y l Hxy]; [done|]. simpl.
  rewrite (Hk x y) by set_solver.
  by destruct (Z.leb_spec (key x - key y) 0); [|lia].
Qed.

End StableSort.

(** ** Reading reports back in time order *)

Section ReadingBack.
Context `{Platform}.

Lemma byTimestamp_byKey (rs : list JsObj) :
  Forall parsable rs → byKey IndexedDBStorage.byTimestamp timeOf rs.
Proof.
  intros Hp a b Ha Hb. rewrite Forall_forall in Hp.
  destruct (Hp a Ha) as [ta Hta], (Hp b Hb) as [tb Htb].
  unfold IndexedDBStorage.byTimestamp, timeOf. by rewrite Hta, Htb.
Qed.

Lemma stableSort_in_order {A} (cmp : A → A → Z) l :
  Sorted (λ a b, cmp a b ≤ 0) l → stableSort cmp l = l.
Proof.
  induction 1 as [|x l Hl IH Hhd]; [done|]. simpl.
  fold (stableSort cmp l). rewrite IH.
  destruct Hhd as [|y l Hxy]; [done|]. simpl.
  by destruct (Z.leb_spec (cmp x y) 0); [|lia].
Qed.

(** X3. getReports returns the stored reports of the case, all of them and
    no other, in non-decreasing order of their timestamps whatever the
    order they were stored in.  Reports with the same timestamp come in
    the order of their primary keys, in which the caseId index lists them;
    that is the order they were stored in when the stored order is
    ascending in the key, as it is when every id came from the key
    generator.  The store is left as it is.  (The timestamps are the ones
    saveReport writes, which parse as dates.) *)
Theorem getReports_in_time_order caseId w :
  fault w (tick w) = None →
  Forall parsable (reportsOf caseId w) →
  ∃ rs,
    StorageManager.getReports caseId w = (Ok rs, bumpTick w)
    ∧ rs ≡ₚ reportsOf caseId w
    ∧ Sorted (λ a b, timeOf a ≤ timeOf b) rs
    ∧ (∀ t, havingKey timeOf t rs
            = havingKey timeOf t (IndexedDBStorage.inKeyOrder (reportsOf caseId w)))
    ∧ (Sorted (λ a b, IndexedDBStorage.byPrimaryKey a b ≤ 0) (reportsOf caseId w) →
       ∀ t, havingKey timeOf t rs = havingKey timeOf t (reportsOf caseId w)).
Proof.
  intros Hf Hp.
  assert (IndexedDBStorage.inKeyOrder (reportsOf caseId w) ≡ₚ reportsOf caseId w)
    as Hperm by apply stableSort_Permutation.
  assert (Forall parsable (IndexedDBStorage.inKeyOrder (reportsOf caseId w))) as Hp'
    by by rewrite Hperm.
  pose proof (byTimestamp_byKey _ Hp') as Hk.
  exists (readReports caseId w). split; [by apply getReports_run|].
  unfold readReports. split_and!.
  - by rewrite stableSort_Permutation.
  - by apply stableSort_key_Sorted.
  - intros t. by apply stableSort_havingKey.
  - intros Hs t. rewrite (stableSort_havingKey _ _ t _ Hk).
    unfold IndexedDBStorage.inKeyOrder. by rewrite stableSort_in_order.
Qed.

End ReadingBack.

(** ** The timeline of the offline report *)

Section Timeline.
Context `{Platform}.

Lemma byLastModified_byKey (l : list Forensic.t) :
  byKey byLastModified Forensic.lastModified l.
Proof. by intros a b _ _. Qed.

(** X4. The timeline of the offline report lists every descriptor once,
    ascending by lastModified, and descriptors with the same lastModified
    stay in input order; an input that is in order already is listed as it
    is. *)
Theorem timeline_is_stable (timestamp : string) (files : list File.t)
    (localForensics : list Forensic.t) :
  timelineSection timestamp files (sortedFiles localForensics)
  = headLines timestamp files
    ++ (timelineLine <$> sortedFiles localForensics) ++ [""]
  ∧ length (timelineLine <$> sortedFiles localForensics) = length localForensics
  ∧ sortedFiles localForensics ≡ₚ localForensics
  ∧ Sorted notAfter (sortedFiles localForensics)
  ∧ (∀ t, havingKey Forensic.lastModified t (sortedFiles localForensics)
          = havingKey Forensic.lastModified t localForensics)
  ∧ (Sorted notAfter localForensics → sortedFiles localForensics = localForensics)
  ∧ sortedFiles (sortedFiles localForensics) = sortedFiles localForensics.
Proof.
  split_and!.
  - unfold timelineSection. rewrite forEachPush_concat. do 2 f_equal.
    cbn [app]. induction (sortedFiles localForensics) as [|f l IH]; [done|].
    cbn. by rewrite IH.
  - rewrite length_fmap. apply stableSort_length.
  - apply stableSort_Permutation.
  - apply sortedFiles_Sorted.
  - intros t. apply stableSort_havingKey, byLastModified_byKey.
  - intros Hs. by apply (stableSort_Sorted_id _ _ _ (byLastModified_byKey _)).
  - apply (stableSort_Sorted_id _ _ _ (byLastModified_byKey _)).
    apply (stableSort_key_Sorted _ _ _ (byLastModified_byKey _)).
Qed.

End Timeline.

(** ** The list of cases *)

Section Cases.
Context `{Platform}.

Lemma distinct_elem (l : list string) c : c ∈ IndexedDBStorage.distinct l ↔ c ∈ l.
Proof.
  induction l as [|x l IH]; [done|]. cbn [IndexedDBStorage.distinct].
  rewrite !elem_of_cons, list_elem_of_In, List.filter_In, <- list_elem_of_In, IH.
  rewrite negb_true_iff, bool_decide_eq_false.
  destruct (decide (c = x)); naive_solver.
Qed.

Lemma distinct_NoDup (l : list string) : NoDup (IndexedDBStorage.distinct l).
Proof.
  induction l as [|x l IH]; [constructor|]. cbn [IndexedDBStorage.distinct].
  constructor.
  - rewrite list_elem_of_In, List.filter_In, negb_true_iff, bool_decide_eq_false.
    naive_solver.
  - by apply NoDup_ListNoDup, List.NoDup_filter, NoDup_ListNoDup.
Qed.

Lemma caseIdOf_Some (r : JsObj) c :
  IndexedDBStorage.caseIdOf r = Some c ↔ prop r "caseId" = JStr c ∧ c ≠ "".
Proof.
  unfold IndexedDBStorage.caseIdOf. destruct (prop r "caseId"); try naive_solver.
  case_bool_decide; naive_solver.
Qed.

(** X5. getAllCases lists each case identifier once: exactly the non-empty
    caseIds found on the stored reports.  A case that has evidence but no
    report is not listed, and the store is left as it is. *)
Theorem getAllCases_lists_report_cases w :
  fault w (tick w) = None →
  ∃ cases,
    StorageManager.getAllCases w = (Ok cases, bumpTick w)
    ∧ NoDup cases
    ∧ (∀ c, c ∈ cases ↔ c ≠ "" ∧ ∃ r, r ∈ reports w ∧ prop r "caseId" = JStr c)
    ∧ (∀ c, reportsOf c w = [] → c ∉ cases).
Proof.
  intros Hf. eexists. split; [by apply getAllCases_run|].
  assert (∀ c, c ∈ IndexedDBStorage.distinct
                     (omap IndexedDBStorage.caseIdOf
                        (IndexedDBStorage.inKeyOrder (reports w)))
               ↔ c ≠ "" ∧ ∃ r, r ∈ reports w ∧ prop r "caseId" = JStr c) as Hin.
  { intros c. rewrite distinct_elem, list_elem_of_omap.
    unfold IndexedDBStorage.inKeyOrder.
    setoid_rewrite (stableSort_Permutation IndexedDBStorage.byPrimaryKey (reports w)).
    setoid_rewrite caseIdOf_Some. naive_solver. }
  split_and!; [apply distinct_NoDup | exact Hin |].
  intros c Hnone (_ & r & Hr & Hc)%Hin.
  assert (r ∈ reportsOf c w) as Hrc.
  { unfold reportsOf. rewrite list_elem_of_In, List.filter_In, <- list_elem_of_In.
    split; [done|]. unfold IndexedDBStorage.hasCaseId. rewrite Hc.
    by apply bool_decide_eq_true_2. }
  rewrite Hnone in Hrc. by apply elem_of_nil in Hrc.
Qed.

End Cases.

Section ReadingBackExample.
#[local] Existing Instance samplePlatform.

Lemma getReports_in_time_order_witness :
  reportsOf "case-1" shuffledArchive = [lateReport; earlyReport]
  ∧ timeOf lateReport = 9000
  ∧ timeOf earlyReport = 4000
  ∧ (∃ rs, StorageManager.getReports "case-1" shuffledArchive
           = (Ok rs, bumpTick shuffledArchive)
      ∧ rs ≡ₚ reportsOf "case-1" shuffledArchive
      ∧ Sorted (λ a b, timeOf a ≤ timeOf b) rs
      ∧ (∀ t, havingKey timeOf t rs
              = havingKey timeOf t
                  (IndexedDBStorage.inKeyOrder (reportsOf "case-1" shuffledArchive)))
      ∧ (Sorted (λ a b, IndexedDBStorage.byPrimaryKey a b ≤ 0)
           (reportsOf "case-1" shuffledArchive) →
         ∀ t, havingKey timeOf t rs
              = havingKey timeOf t (reportsOf "case-1" shuffledArchive)))
  ∧ Sorted (λ a b, IndexedDBStorage.byPrimaryKey a b ≤ 0)
      (reportsOf "case-1" shuffledArchive)
  ∧ reports renumberedArchive = [insertedLast; insertedFirst]
  ∧ (λ r, prop r "id") <$> readReports "case-1" renumberedArchive = [JNum 3; JNum 7].
Proof.
  split_and!; [reflexivity.. | | | reflexivity | vm_compute; reflexivity].
  - apply (getReports_in_time_order "case-1" shuffledArchive); [reflexivity|].
    repeat constructor; by eexists.
  - repeat constructor. vm_compute. discriminate.
Defined.

End ReadingBackExample.

(** ** What the operations leave alone *)

Section Keeping.
Context `{Platform}.

(** A family of relations between the world before and the world after,
    one per case, that holds across every step taken outside the local
    stores and across the three writes of a case. *)
Context (R : string → World → World → Prop) `{!∀ c, PreOrder (R c)}.
Hypothesis R_local : ∀ c w w', sameLocal w w' → R c w w'.
Hypothesis R_addReport : ∀ c w r gen,
  ownedBy c r → wellStamped r → R c w (setReports (reports w ++ [r]) gen w).
Hypothesis R_addEvidence : ∀ c w r gen,
  ownedBy c r → wellStamped r → R c w (setEvidence (evidence_files w ++ [r]) gen w).
Hypothesis R_put : ∀ c w data,
  R c w (setCaseMetadata (<[c := <["caseId" := JStr c]> data]> (case_metadata w)) w).

Lemma keeps_ret {A} c (a : A) : keeps (R c) (ret a).
Proof. intros w. reflexivity. Qed.

Lemma keeps_liftResult {A} c (r : Result A) : keeps (R c) (liftResult r).
Proof. intros w. reflexivity. Qed.

Lemma keeps_getWorld c : keeps (R c) getWorld.
Proof. intros w. reflexivity. Qed.

Lemma keeps_bind {A B} c (m : Async A) (k : A → Async B) :
  keeps (R c) m → (∀ a, keeps (R c) (k a)) → keeps (R c) (bind m k).
Proof.
  intros Hm Hk w. unfold bind. specialize (Hm w).
  destruct (m w) as [[a|e] w1]; [|done].
  etrans; [exact Hm | apply Hk].
Qed.

Lemma keeps_tryCatch {A} c (body : Async A) handler :
  keeps (R c) body → (∀ e, keeps (R c) (handler e)) → keeps (R c) (tryCatch body handler).
Proof.
  intros Hm Hk w. unfold tryCatch. specialize (Hm w).
  destruct (body w) as [[a|e] w1]; [done|].
  etrans; [exact Hm | apply Hk].
Qed.

Lemma keeps_local {A} c (m : Async A) :
  (∀ w, sameLocal w (m w).2) → keeps (R c) m.
Proof. intros Hm w. apply R_local, Hm. Qed.

Lemma keeps_idbRequest c : keeps (R c) idbRequest.
Proof.
  apply keeps_local. intros w. unfold idbRequest.
  by destruct (fault w (tick w)).
Qed.

Lemma keeps_dateNow c : keeps (R c) dateNow.
Proof. by apply keeps_local. Qed.

Lemma keeps_consoleLog c msg e : keeps (R c) (consoleLog msg e).
Proof. by apply keeps_local. Qed.

Lemma keeps_isAvailable c : keeps (R c) FirebaseSync.isAvailable.
Proof. by apply keeps_local. Qed.

Lemma keeps_syncReport c caseId data : keeps (R c) (FirebaseSync.syncReport caseId data).
Proof.
  apply keeps_local. intros w.
  by destruct (syncReport_local caseId data w) as (w' & -> & ?).
Qed.

Lemma keeps_syncEvidence c caseId data : keeps (R c) (FirebaseSync.syncEvidence caseId data).
Proof.
  apply keeps_local. intros w.
  by destruct (syncEvidence_local caseId data w) as (w' & -> & ?).
Qed.

Lemma keeps_syncMetadata c caseId data : keeps (R c) (FirebaseSync.syncMetadata caseId data).
Proof.
  apply keeps_local. intros w.
  by destruct (syncMetadata_local caseId data w) as (w' & -> & ?).
Qed.

Lemma stamped_owned gen data c now :
  ownedBy c (IndexedDBStorage.withKey gen (IndexedDBStorage.stamped data c now)).1
  ∧ wellStamped (IndexedDBStorage.withKey gen (IndexedDBStorage.stamped data c now)).1.
Proof.
  unfold ownedBy, wellStamped. rewrite !withKey_lookup by done.
  rewrite stamped_caseId, stamped_timestamp. eauto.
Qed.

Lemma keeps_local_saveReport c data : keeps (R c) (IndexedDBStorage.saveReport c data).
Proof.
  unfold IndexedDBStorage.saveReport.
  apply keeps_bind; [apply keeps_idbRequest | intros _].
  apply keeps_bind; [apply keeps_dateNow | intros now].
  intros w. unfold modify. cbn [snd].
  destruct (stamped_owned (reportsKeyGen w) data c now).
  destruct (IndexedDBStorage.withKey _ _). by apply R_addReport.
Qed.

Lemma keeps_local_saveEvidence c data : keeps (R c) (IndexedDBStorage.saveEvidence c data).
Proof.
  unfold IndexedDBStorage.saveEvidence.
  apply keeps_bind; [apply keeps_idbRequest | intros _].
  apply keeps_bind; [apply keeps_dateNow | intros now].
  intros w. unfold modify. cbn [snd].
  destruct (stamped_owned (evidenceKeyGen w) data c now).
  destruct (IndexedDBStorage.withKey _ _). by apply R_addEvidence.
Qed.

Lemma keeps_local_saveCaseMetadata c data :
  keeps (R c) (IndexedDBStorage.saveCaseMetadata c data).
Proof.
  unfold IndexedDBStorage.saveCaseMetadata.
  apply keeps_bind; [apply keeps_idbRequest | intros _].
  intros w. apply R_put.
Qed.

Lemma keeps_read {A} c (f : World → A) :
  keeps (R c) (run idbRequest; await w ← getWorld; ret (f w)).
Proof.
  apply keeps_bind; [apply keeps_idbRequest | intros _].
  apply keeps_bind; [apply keeps_getWorld | intros w0]. apply keeps_ret.
Qed.

Lemma keeps_getReports c caseId : keeps (R c) (StorageManager.getReports caseId).
Proof. apply keeps_read. Qed.

Lemma keeps_getEvidence c caseId : keeps (R c) (StorageManager.getEvidence caseId).
Proof. apply (keeps_read c (λ w, List.filter _ (evidence_files w))). Qed.

Lemma keeps_getCaseMetadata c caseId : keeps (R c) (StorageManager.getCaseMetadata caseId).
Proof. apply (keeps_read c (λ w, case_metadata w !! caseId)). Qed.

Lemma keeps_getAllCases c : keeps (R c) StorageManager.getAllCases.
Proof. apply (keeps_read c (λ w, IndexedDBStorage.distinct _)). Qed.

Lemma keeps_then_sync c (local sync : Async unit) :
  keeps (R c) local → keeps (R c) sync →
  keeps (R c) (run local;
               await available ← FirebaseSync.isAvailable;
               if available then sync else ret ()).
Proof.
  intros Hl Hs. apply keeps_bind; [done | intros _].
  apply keeps_bind; [apply keeps_isAvailable | intros []]; [done | apply keeps_ret].
Qed.

Lemma keeps_saveReport c content evidence metadata :
  keeps (R c) (StorageManager.saveReport c content evidence metadata).
Proof.
  apply keeps_then_sync; [apply keeps_local_saveReport | apply keeps_syncReport].
Qed.

Lemma keeps_saveEvidence c file fileHash metadata :
  keeps (R c) (StorageManager.saveEvidence c file fileHash metadata).
Proof.
  apply keeps_then_sync; [apply keeps_local_saveEvidence | apply keeps_syncEvidence].
Qed.

Lemma keeps_saveCaseMetadata c metadata :
  keeps (R c) (StorageManager.saveCaseMetadata c metadata).
Proof.
  apply keeps_then_sync; [apply keeps_local_saveCaseMetadata | apply keeps_syncMetadata].
Qed.

Lemma keeps_saveReportToDB c content evidence :
  keeps (R c) (saveReportToDB c content evidence).
Proof.
  unfold saveReportToDB. destruct (bool_decide (c = "")); [apply keeps_ret|].
  apply keeps_tryCatch; [|intros e; apply keeps_consoleLog].
  apply keeps_bind; [apply keeps_saveReport | intros _].
  apply keeps_bind; [apply keeps_getReports | intros rs].
  apply keeps_bind; [apply keeps_liftResult | intros indices].
  apply keeps_bind; [apply keeps_dateNow | intros now].
  apply keeps_saveCaseMetadata.
Qed.

Lemma keeps_saveEvidenceFileToDB c file fileHash metadata :
  keeps (R c) (saveEvidenceFileToDB c file fileHash metadata).
Proof.
  unfold saveEvidenceFileToDB. destruct (bool_decide (c = "")); [apply keeps_ret|].
  apply keeps_tryCatch; [apply keeps_saveEvidence | intros e; apply keeps_consoleLog].
Qed.

Lemma keeps_exportCases c cases acc : keeps (R c) (StorageManager.exportCases cases acc).
Proof.
  revert acc. induction cases as [|caseId rest IH]; intros acc; [apply keeps_ret|].
  cbn [StorageManager.exportCases].
  apply keeps_bind; [|intros entry; apply IH].
  unfold StorageManager.exportCase.
  apply keeps_bind; [apply keeps_getReports | intros rs].
  apply keeps_bind; [apply keeps_getEvidence | intros es].
  apply keeps_bind; [apply keeps_getCaseMetadata | intros md]. apply keeps_ret.
Qed.

Lemma keeps_exportAllData c : keeps (R c) StorageManager.exportAllData.
Proof.
  unfold StorageManager.exportAllData.
  apply keeps_bind; [apply keeps_getAllCases | intros cases].
  apply keeps_bind; [apply keeps_dateNow | intros now].
  apply keeps_bind; [apply keeps_exportCases | intros entries]. apply keeps_ret.
Qed.

End Keeping.

(** ** One case at a time *)

Section CaseIsolation.
Context `{Platform}.

#[local] Instance touchesOnly_PreOrder c : PreOrder (touchesOnly c).
Proof.
  split.
  - intros w. split_and!; [exists []; by rewrite app_nil_r..|done].
  - intros w1 w2 w3 ((a1 & Hr1 & Ha1) & (b1 & He1 & Hb1) & Hm1)
                    ((a2 & Hr2 & Ha2) & (b2 & He2 & Hb2) & Hm2).
    split_and!.
    + exists (a1 ++ a2). rewrite Hr2, Hr1, app_assoc. split; [done|].
      by apply Forall_app.
    + exists (b1 ++ b2). rewrite He2, He1, app_assoc. split; [done|].
      by apply Forall_app.
    + intros other Ho. by rewrite Hm2, Hm1.
Qed.

Lemma touchesOnly_local c w w' : sameLocal w w' → touchesOnly c w w'.
Proof.
  intros [Hl _]. unfold localState in Hl. simplify_eq.
  split_and!; [exists []; by rewrite app_nil_r..|]. intros. congruence.
Qed.

Lemma touchesOnly_addReport c w r gen :
  ownedBy c r → wellStamped r → touchesOnly c w (setReports (reports w ++ [r]) gen w).
Proof.
  intros Hr _. split_and!; [by exists [r]; split; [|constructor] | |done].
  exists []. by rewrite app_nil_r.
Qed.

Lemma touchesOnly_addEvidence c w r gen :
  ownedBy c r → wellStamped r →
  touchesOnly c w (setEvidence (evidence_files w ++ [r]) gen w).
Proof.
  intros Hr _. split_and!; [|by exists [r]; split; [|constructor] |done].
  exists []. by rewrite app_nil_r.
Qed.

Lemma touchesOnly_put c w data :
  touchesOnly c w
    (setCaseMetadata (<[c := <["caseId" := JStr c]> data]> (case_metadata w)) w).
Proof.
  split_and!; [exists []; by rewrite app_nil_r..|].
  intros other Ho. cbn. by rewrite lookup_insert_ne.
Qed.

Lemma owned_elsewhere c other (added : list JsObj) :
  other ≠ c → Forall (ownedBy c) added →
  List.filter (IndexedDBStorage.hasCaseId other) added = [].
Proof.
  intros Ho. induction 1 as [|r added Hr _ IH]; [done|]. cbn [List.filter].
  unfold IndexedDBStorage.hasCaseId at 1, prop. rewrite Hr. cbn.
  by rewrite bool_decide_eq_false_2.
Qed.

Lemma touchesOnly_elsewhere c w w' :
  touchesOnly c w w' →
  reports w `prefix_of` reports w'
  ∧ evidence_files w `prefix_of` evidence_files w'
  ∧ ∀ other, other ≠ c →
      reportsOf other w' = reportsOf other w
      ∧ evidenceOf other w' = evidenceOf other w
      ∧ case_metadata w' !! other = case_metadata w !! other.
Proof.
  intros ((a & Hr & Ha) & (b & He & Hb) & Hm).
  split_and!; [by exists a | by exists b|].
  intros other Ho. unfold reportsOf, evidenceOf. rewrite Hr, He, !List.filter_app.
  rewrite (owned_elsewhere c other a), (owned_elsewhere c other b) by done.
  rewrite !app_nil_r.
  split_and!; [done..|by apply Hm].
Qed.

(** X6. Whatever the database and the replica do, saving a report or an
    evidence file of one case only appends records of that case to the two
    record stores and replaces that case's aggregate: for every other case
    the reports and evidence read back, and the aggregate, are what they
    were. *)
Theorem saves_touch_one_case caseId content evidence file fileHash metadata w :
  touchesOnly caseId w (saveReportToDB caseId content evidence w).2
  ∧ touchesOnly caseId w (saveEvidenceFileToDB caseId file fileHash metadata w).2
  ∧ (∀ w', touchesOnly caseId w w' →
       reports w `prefix_of` reports w'
       ∧ evidence_files w `prefix_of` evidence_files w'
       ∧ ∀ other, other ≠ caseId →
           reportsOf other w' = reportsOf other w
           ∧ evidenceOf other w' = evidenceOf other w
           ∧ case_metadata w' !! other = case_metadata w !! other).
Proof.
  split_and!.
  - apply (keeps_saveReportToDB touchesOnly);
      auto using touchesOnly_local, touchesOnly_addReport, touchesOnly_put.
  - apply (keeps_saveEvidenceFileToDB touchesOnly);
      auto using touchesOnly_local, touchesOnly_addEvidence.
  - apply touchesOnly_elsewhere.
Qed.

End CaseIsolation.

(** ** The replica is best effort *)

Section BestEffort.
Context `{Platform}.

Lemma then_sync_settles (local sync : Async unit) w :
  (∀ w0, ∃ w', sync w0 = (Ok (), w') ∧ sameLocal w0 w') →
  let both := run local;
              await available ← FirebaseSync.isAvailable;
              if available then sync else ret () in
  (both w).1 = (local w).1
  ∧ sameLocal (local w).2 (both w).2
  ∧ (firestore (local w).2 = None → both w = local w).
Proof.
  intros Hs both. destruct (local w) as [[[]|e] w1] eqn:Hl.
  - destruct (then_sync local sync w w1 Hl Hs) as (w' & Hb & Hw).
    subst both. cbv beta. rewrite Hb. split_and!; [done..|].
    intros Hn. cbn in Hn. rewrite <- Hb, (bind_ok _ _ _ _ _ Hl).
    unfold bind, FirebaseSync.isAvailable. by rewrite Hn.
  - subst both. cbv beta. rewrite (then_sync_fail local sync w w1 e Hl).
    split_and!; [done | apply sameLocal_refl | done].
Qed.

(** X7. The replica cannot change what a save does locally.  Each of the
    three StorageManager writes settles exactly as the write to the local
    store alone, and leaves the local stores as that write leaves them,
    whether a replica is configured or not and whether its write succeeds
    or fails; without a replica the two are the same computation. *)
Theorem replica_is_best_effort caseId content evidence metadata file fileHash
    fileMeta aggregate w :
  let viaManager (m local : Async unit) :=
    (m w).1 = (local w).1
    ∧ sameLocal (local w).2 (m w).2
    ∧ (firestore (local w).2 = None → m w = local w) in
  viaManager (StorageManager.saveReport caseId content evidence metadata)
             (IndexedDBStorage.saveReport caseId (reportData content evidence metadata))
  ∧ viaManager (StorageManager.saveEvidence caseId file fileHash fileMeta)
               (IndexedDBStorage.saveEvidence caseId (evidenceData file fileHash fileMeta))
  ∧ viaManager (StorageManager.saveCaseMetadata caseId aggregate)
               (IndexedDBStorage.saveCaseMetadata caseId aggregate).
Proof.
  cbv zeta.
  unfold StorageManager.saveReport, StorageManager.saveEvidence,
    StorageManager.saveCaseMetadata, reportData, evidenceData.
  cbv zeta. split; [|split].
  - apply (then_sync_settles (IndexedDBStorage.saveReport caseId _)
             (FirebaseSync.syncReport caseId _)).
    intros w0. apply syncReport_local.
  - apply (then_sync_settles (IndexedDBStorage.saveEvidence caseId _)
             (FirebaseSync.syncEvidence caseId _)).
    intros w0. apply syncEvidence_local.
  - apply (then_sync_settles (IndexedDBStorage.saveCaseMetadata caseId _)
             (FirebaseSync.syncMetadata caseId _)).
    intros w0. apply syncMetadata_local.
Qed.

Lemma replicaGains_refl P w : replicaGains P w w.
Proof. unfold replicaGains. destruct (firestore w); auto. Qed.

Lemma replicaGains_same P w w' : firestore w' = firestore w → replicaGains P w w'.
Proof. unfold replicaGains. intros ->. destruct (firestore w); auto. Qed.

Lemma replicaGains_from P w1 w2 w3 :
  firestore w2 = firestore w1 → replicaGains P w2 w3 → replicaGains P w1 w3.
Proof. unfold replicaGains. by intros ->. Qed.

Lemma replicaGains_to P w1 w2 w3 :
  replicaGains P w1 w2 → firestore w3 = firestore w2 → replicaGains P w1 w3.
Proof. unfold replicaGains. by intros ? ->. Qed.

Lemma local_saveEvidence_replica caseId data w :
  firestore (IndexedDBStorage.saveEvidence caseId data w).2 = firestore w.
Proof.
  unfold IndexedDBStorage.saveEvidence, bind, idbRequest, dateNow, modify.
  destruct (fault w (tick w)); [done|]. cbn.
  by destruct (IndexedDBStorage.withKey _ _).
Qed.

Lemma evidenceData_payloadFree file fileHash metadata now :
  payloadFree fileHash
    (<["note" := JStr "Binary data stored locally only"]>
       (<["syncedAt" := JNum now]>
          (delete "binaryData" (evidenceData file fileHash metadata)))).
Proof.
  unfold payloadFree, evidenceData. split_and!.
  - rewrite !lookup_insert_ne by done. apply lookup_delete_eq.
  - rewrite !lookup_insert_ne by done. rewrite lookup_delete_ne by done.
    by simplify_map_eq.
  - apply lookup_insert_eq.
Qed.

Lemma syncEvidence_replica caseId file fileHash metadata w :
  replicaGains (evidenceDocument caseId fileHash) w
    (FirebaseSync.syncEvidence caseId (evidenceData file fileHash metadata) w).2.
Proof.
  unfold FirebaseSync.syncEvidence, FirebaseSync.isAvailable, bind at 1.
  destruct (firestore w) as [docs|] eqn:Hfs; cbn [negb];
    [|by apply replicaGains_same].
  unfold tryCatch.
  destruct (docId_local (evidenceData file fileHash metadata) w) as (id & w1 & Hid & _).
  assert (firestore w1 = Some docs) as Hfs1.
  { revert Hid. unfold FirebaseSync.docId. destruct (truthy _).
    - by intros [= _ <-].
    - by intros [= _ <-]. }
  rewrite (bind_ok _ _ _ _ _ Hid). unfold bind, dateNow, FirebaseSync.setDoc.
  cbn [firestore bumpTick tick replicaFault]. rewrite Hfs1.
  destruct (replicaFault w1 (S (tick w1))).
  - apply replicaGains_same. cbn. by rewrite Hfs1.
  - unfold replicaGains. rewrite Hfs. cbn. right. eexists _, _. split; [reflexivity|].
    split; [by exists id | apply evidenceData_payloadFree].
Qed.

(** X8. The bytes of an evidence file never reach the replica.  After a
    save of an evidence file, through StorageManager or through
    saveEvidenceFileToDB, the replica is what it was, or what it was with
    one document written: a document of the evidence collection of the
    case, without a binaryData field, with the file's digest and the note
    that the binary data is stored locally only.  No other document is
    added, changed or removed, and without a replica none appears. *)
Theorem evidence_bytes_stay_local caseId file fileHash metadata w :
  replicaGains (evidenceDocument caseId fileHash) w
    (StorageManager.saveEvidence caseId file fileHash metadata w).2
  ∧ replicaGains (evidenceDocument caseId fileHash) w
      (saveEvidenceFileToDB caseId file fileHash metadata w).2
  ∧ (∀ docs docs',
       firestore w = Some docs →
       firestore (saveEvidenceFileToDB caseId file fileHash metadata w).2 = Some docs' →
       ∀ path,
         docs' !! path = docs !! path
         ∨ ∃ document, docs' !! path = Some document
                       ∧ evidenceDocument caseId fileHash path document
                       ∧ ∀ other, other ≠ path → docs' !! other = docs !! other).
Proof.
  assert (replicaGains (evidenceDocument caseId fileHash) w
            (StorageManager.saveEvidence caseId file fileHash metadata w).2) as Hs.
  { unfold StorageManager.saveEvidence. fold (evidenceData file fileHash metadata).
    pose proof (local_saveEvidence_replica caseId (evidenceData file fileHash metadata) w) as Hl.
    unfold bind at 1.
    destruct (IndexedDBStorage.saveEvidence _ _ w) as [[[]|e] w1]; cbn in Hl |- *;
      [|by apply replicaGains_same].
    apply (replicaGains_from _ w w1); [exact Hl|].
    unfold bind, FirebaseSync.isAvailable.
    destruct (firestore w1) eqn:Hfs1; [apply syncEvidence_replica|].
    apply replicaGains_refl. }
  assert (replicaGains (evidenceDocument caseId fileHash) w
            (saveEvidenceFileToDB caseId file fileHash metadata w).2) as Hw.
  { unfold saveEvidenceFileToDB. destruct (bool_decide _); [apply replicaGains_refl|].
    unfold tryCatch.
    destruct (StorageManager.saveEvidence _ _ _ _ w) as [[[]|e] w1]; [done|].
    by apply (replicaGains_to _ w w1). }
  split; [done|]. split; [done|].
  intros docs docs' Hdocs Hdocs' path. unfold replicaGains in Hw.
  rewrite Hdocs, Hdocs' in Hw. destruct Hw as [->|(written & document & -> & Hdoc)].
  - by left.
  - destruct (decide (path = written)) as [->|Hne].
    + right. exists document. rewrite lookup_insert_eq. split_and!; [done..|].
      intros other Hother. by rewrite lookup_insert_ne.
    + left. by rewrite lookup_insert_ne.
Qed.

End BestEffort.

Section BestEffortExample.
#[local] Existing Instance samplePlatform.

Lemma evidence_bytes_stay_local_witness :
  replicaGains (evidenceDocument "case-1" "digest") replicaWorld
    (saveEvidenceFileToDB "case-1" scanA "digest" JNull replicaWorld).2
  ∧ (λ r, r !! "binaryData")
      <$> evidence_files (saveEvidenceFileToDB "case-1" scanA "digest" JNull replicaWorld).2
    = [ Some (JBytes (File.bytes scanA)) ]
  ∧ replicaField (saveEvidenceFileToDB "case-1" scanA "digest" JNull replicaWorld).2
      "cases/case-1/evidence/2000" "fileHash" = Some (JStr "digest")
  ∧ replicaField (saveEvidenceFileToDB "case-1" scanA "digest" JNull replicaWorld).2
      "cases/case-1/evidence/2000" "binaryData" = None.
Proof.
  split; [apply (evidence_bytes_stay_local "case-1" scanA "digest" JNull replicaWorld)|].
  split_and!; vm_compute; reflexivity.
Defined.

End BestEffortExample.

(** ** The shape of the store *)

Section Shape.
Context `{Platform}.

#[local] Instance staysWellFormed_PreOrder : PreOrder staysWellFormed.
Proof. split; unfold staysWellFormed; [by intros w | intros w1 w2 w3; auto]. Qed.

Lemma staysWellFormed_local w w' : sameLocal w w' → staysWellFormed w w'.
Proof.
  intros [Hl _]. unfold localState in Hl. injection Hl as Hr He Hm _ _.
  unfold staysWellFormed, wellFormedStore, metadataKeyed. by rewrite Hr, He, Hm.
Qed.

Lemma staysWellFormed_addReport w r gen :
  wellStamped r → staysWellFormed w (setReports (reports w ++ [r]) gen w).
Proof.
  intros Hr (Hrs & Hes & Hm). split_and!; [|done..].
  cbn. apply Forall_app. split; [done | by constructor].
Qed.

Lemma staysWellFormed_addEvidence w r gen :
  wellStamped r → staysWellFormed w (setEvidence (evidence_files w ++ [r]) gen w).
Proof.
  intros Hr (Hrs & Hes & Hm). split_and!; [done| |done].
  cbn. apply Forall_app. split; [done | by constructor].
Qed.

Lemma staysWellFormed_put c w data :
  staysWellFormed w
    (setCaseMetadata (<[c := <["caseId" := JStr c]> data]> (case_metadata w)) w).
Proof.
  intros (Hrs & Hes & Hm). split_and!; [done..|].
  intros caseId agg. cbn. destruct (decide (caseId = c)) as [->|Hc].
  - rewrite lookup_insert_eq. intros [= <-]. apply lookup_insert_eq.
  - rewrite lookup_insert_ne by done. apply Hm.
Qed.

(** X9. The shape of the local store is an invariant.  If every stored
    report and evidence record carries a string caseId and a string
    timestamp, and every aggregate carries the caseId it is stored under,
    the same holds after any write, wrapper call or export, whatever the
    arguments and whether the database or the replica fail.  It holds of
    the empty store. *)
Theorem store_stays_well_formed
    caseId content evidence reportMeta file fileHash fileMeta aggregate w :
  wellFormedStore w →
  wellFormedStore (StorageManager.saveReport caseId content evidence reportMeta w).2
  ∧ wellFormedStore (StorageManager.saveEvidence caseId file fileHash fileMeta w).2
  ∧ wellFormedStore (StorageManager.saveCaseMetadata caseId aggregate w).2
  ∧ wellFormedStore (saveReportToDB caseId content evidence w).2
  ∧ wellFormedStore (saveEvidenceFileToDB caseId file fileHash fileMeta w).2
  ∧ wellFormedStore (StorageManager.exportAllData w).2
  ∧ ∀ w0, reports w0 = [] → evidence_files w0 = [] → case_metadata w0 = ∅ →
      wellFormedStore w0.
Proof.
  intros Hw.
  pose proof staysWellFormed_local. pose proof staysWellFormed_addReport.
  pose proof staysWellFormed_addEvidence. pose proof staysWellFormed_put.
  split_and!.
  - apply (keeps_saveReport (λ _, staysWellFormed)); auto.
  - apply (keeps_saveEvidence (λ _, staysWellFormed)); auto.
  - apply (keeps_saveCaseMetadata (λ _, staysWellFormed)); auto.
  - apply (keeps_saveReportToDB (λ _, staysWellFormed)); auto.
  - apply (keeps_saveEvidenceFileToDB (λ _, staysWellFormed)); auto.
  - apply (keeps_exportAllData (λ _, staysWellFormed)) with (c := caseId); auto.
  - intros w0 Hr He Hm. unfold wellFormedStore, metadataKeyed.
    rewrite Hr, He, Hm. split_and!; [constructor..|]. intros ??. by rewrite lookup_empty.
Qed.

End Shape.

Section ShapeExample.
#[local] Existing Instance samplePlatform.

Lemma store_stays_well_formed_witness :
  wellFormedStore (archive scanA)
  ∧ wellFormedStore
      (saveReportToDB "case-2" "Findings" ["a.pdf"] (archive scanA)).2
  ∧ wellFormedStore (StorageManager.exportAllData (archive scanA)).2.
Proof.
  assert (wellFormedStore (archive scanA)) as Hw.
  { split_and!.
    - constructor; [|constructor]. by exists "case-1", "1000".
    - constructor; [|constructor]. by exists "case-1", "6000".
    - intros caseId agg Hl. cbn in Hl. by rewrite lookup_empty in Hl. }
  split; [exact Hw|].
  pose proof (store_stays_well_formed "case-2" "Findings" ["a.pdf"] None
                scanA "digest" JNull ∅ (archive scanA) Hw) as (_ & _ & _ & Hr & _ & He & _).
  by split.
Defined.

End ShapeExample.

(** ** Saving and reading back *)

Section RoundTrips.
Context `{Platform}.








Lemma getAllCases_members w c :
  c ∈ IndexedDBStorage.distinct
        (omap IndexedDBStorage.caseIdOf (IndexedDBStorage.inKeyOrder (reports w)))
  ↔ c ≠ "" ∧ ∃ r, r ∈ reports w ∧ prop r "caseId" = JStr c.
Proof.
  rewrite distinct_elem, list_elem_of_omap.
  unfold IndexedDBStorage.inKeyOrder.
  setoid_rewrite (stableSort_Permutation IndexedDBStorage.byPrimaryKey (reports w)).
  setoid_rewrite caseIdOf_Some. naive_solver.
Qed.






Lemma evidenceData_field file fileHash metadata :
  let data := evidenceData file fileHash metadata in
  data !! "id" = None
  ∧ data !! "fileName" = Some (JStr (File.name file))
  ∧ data !! "fileType" = Some (JStr (File.type file))
  ∧ data !! "fileSize" = Some (JNum (Z.of_nat (length (File.bytes file))))
  ∧ data !! "fileHash" = Some (JStr fileHash)
  ∧ data !! "binaryData" = Some (JBytes (File.bytes file))
  ∧ data !! "metadata" = Some metadata.
Proof. cbv zeta. unfold evidenceData, File.size. split_and!; by simplify_map_eq. Qed.

(** X12. An evidence file saved by saveEvidenceFileToDB can be read back
    whole.  On a database that rejects nothing, the save appends one
    record with the file's name and type, its size equal to the number of
    its bytes, the digest given, the metadata given and the bytes
    themselves; getEvidence of the case then returns the evidence it held
    before followed by that record, and reports and aggregates are not
    touched. *)
Theorem evidence_round_trip caseId file fileHash metadata w :
  caseId ≠ "" →
  localOk w →
  ∃ w' record,
    saveEvidenceFileToDB caseId file fileHash metadata w = (Ok (), w')
    ∧ evidence_files w' = evidence_files w ++ [record]
    ∧ record !! "fileName" = Some (JStr (File.name file))
    ∧ record !! "fileType" = Some (JStr (File.type file))
    ∧ record !! "fileSize" = Some (JNum (Z.of_nat (length (File.bytes file))))
    ∧ record !! "fileHash" = Some (JStr fileHash)
    ∧ record !! "binaryData" = Some (JBytes (File.bytes file))
    ∧ record !! "metadata" = Some metadata
    ∧ (StorageManager.getEvidence caseId w').1 = Ok (evidenceOf caseId w ++ [record])
    ∧ reports w' = reports w
    ∧ case_metadata w' = case_metadata w.
Proof.
  intros Hid Hok.
  unfold saveEvidenceFileToDB. rewrite bool_decide_eq_false_2 by done.
  unfold StorageManager.saveEvidence. cbv zeta.
  fold (evidenceData file fileHash metadata).
  set (data := evidenceData file fileHash metadata).
  edestruct (then_sync (IndexedDBStorage.saveEvidence caseId data)
               (FirebaseSync.syncEvidence caseId data) w) as (w2 & Hsave & Hl2).
  { apply saveEvidence_run, Hok. }
  { intros w0. apply syncEvidence_local. }
  set (record := IndexedDBStorage.withKey _ _) in Hl2. cbv zeta in Hl2.
  assert (localOk w2) as Hok2 by (by apply (sameLocal_localOk _ _ Hl2)).
  destruct Hl2 as [Hst2 _]. unfold localState in Hst2. simpl in Hst2.
  injection Hst2 as Hrep2 Hev2 Hmeta2 _ _.
  rewrite (tryCatch_ok _ _ _ _ _ Hsave).
  assert (∀ k, k ≠ "id" → k ≠ "caseId" → k ≠ "timestamp" →
            record.1 !! k = data !! k) as Hfield.
  { intros k ???. unfold record. rewrite withKey_lookup by done.
    by rewrite stamped_other. }
  assert (record.1 !! "caseId" = Some (JStr caseId)) as Hrc.
  { unfold record. rewrite withKey_lookup by done. apply stamped_caseId. }
  destruct (evidenceData_field file fileHash metadata)
    as (_ & Hn & Ht & Hs & Hh & Hb & Hm).
  exists w2, record.1. split_and!; try done; try (by rewrite Hfield).
  unfold StorageManager.getEvidence.
  rewrite (getEvidence_run caseId w2 (Hok2 _)). cbn.
  unfold evidenceOf. rewrite Hev2, List.filter_app. simpl.
  by rewrite (hasCaseId_own _ _ Hrc).
Qed.

(** X13. A saved aggregate is read back as saved.  On a database that
    rejects nothing, getCaseMetadata after saveCaseMetadata returns the
    object given with its caseId field set to the key, whatever aggregate
    the case had before; the aggregates of other cases are unchanged, and
    a case that has no aggregate reads as null. *)
Theorem aggregate_round_trip caseId (data : JsObj) w :
  localOk w →
  ∃ w',
    StorageManager.saveCaseMetadata caseId data w = (Ok (), w')
    ∧ (StorageManager.getCaseMetadata caseId w').1
      = Ok (Some (<["caseId" := JStr caseId]> data))
    ∧ (∀ other, other ≠ caseId →
         (StorageManager.getCaseMetadata other w').1
         = (StorageManager.getCaseMetadata other w).1)
    ∧ (∀ absent, case_metadata w' !! absent = None →
         (StorageManager.getCaseMetadata absent w').1 = Ok None).
Proof.
  intros Hok.
  destruct (saveCaseMetadata_puts caseId data w (Hok _)) as (w' & Hrun & Hown & Hother).
  assert (localOk w') as Hok'.
  { unfold StorageManager.saveCaseMetadata in Hrun.
    edestruct (then_sync (IndexedDBStorage.saveCaseMetadata caseId data)
                 (FirebaseSync.syncMetadata caseId data) w) as (w2 & Hrun2 & Hl).
    { by apply saveCaseMetadata_run. }
    { intros w0. apply syncMetadata_local. }
    rewrite Hrun in Hrun2. injection Hrun2 as <-.
    apply (sameLocal_localOk _ _ Hl). intros n. apply Hok. }
  exists w'. unfold StorageManager.getCaseMetadata. split_and!.
  - done.
  - rewrite (getCaseMetadata_run caseId w' (Hok' _)). cbn. by rewrite Hown.
  - intros other Ho.
    rewrite (getCaseMetadata_run other w' (Hok' _)),
            (getCaseMetadata_run other w (Hok _)). cbn. by rewrite Hother.
  - intros absent Ha. rewrite (getCaseMetadata_run absent w' (Hok' _)). cbn.
    by rewrite Ha.
Qed.

End RoundTrips.

Section RoundTripExamples.
#[local] Existing Instance samplePlatform.

Lemma getAllCases_lists_report_cases_witness :
  reportsOf "case-1" shuffledArchive = [lateReport; earlyReport]
  ∧ ∃ cases,
      StorageManager.getAllCases shuffledArchive = (Ok cases, bumpTick shuffledArchive)
      ∧ NoDup cases
      ∧ (∀ c, c ∈ cases
           ↔ c ≠ "" ∧ ∃ r, r ∈ reports shuffledArchive ∧ prop r "caseId" = JStr c)
      ∧ (∀ c, reportsOf c shuffledArchive = [] → c ∉ cases).
Proof.
  split; [reflexivity|].
  apply (getAllCases_lists_report_cases shuffledArchive). reflexivity.
Defined.



Lemma evidence_round_trip_witness :
  ∃ w' record,
    saveEvidenceFileToDB "case-1" scanB "digest-b" JNull (archive scanA) = (Ok (), w')
    ∧ evidence_files w' = evidence_files (archive scanA) ++ [record]
    ∧ record !! "fileName" = Some (JStr "scan.pdf")
    ∧ record !! "fileType" = Some (JStr "application/pdf")
    ∧ record !! "fileSize" = Some (JNum 3)
    ∧ record !! "fileHash" = Some (JStr "digest-b")
    ∧ record !! "binaryData" = Some (JBytes [Byte.x00; Byte.xff; Byte.x7f])
    ∧ record !! "metadata" = Some JNull
    ∧ (StorageManager.getEvidence "case-1" w').1
      = Ok (evidenceOf "case-1" (archive scanA) ++ [record])
    ∧ reports w' = reports (archive scanA)
    ∧ case_metadata w' = case_metadata (archive scanA).
Proof.
  apply (evidence_round_trip "case-1" scanB "digest-b" JNull (archive scanA)).
  - discriminate.
  - intros n. reflexivity.
Defined.

Lemma aggregate_round_trip_witness :
  aggregateField aggregateWorld "case-1" "createdAt" = Some (JStr "1000")
  ∧ ∃ w',
      StorageManager.saveCaseMetadata "case-1" {[ "reportCount" := JNum 2 ]} aggregateWorld
      = (Ok (), w')
      ∧ (StorageManager.getCaseMetadata "case-1" w').1
        = Ok (Some (<["caseId" := JStr "case-1"]> {[ "reportCount" := JNum 2 ]}))
      ∧ (∀ other, other ≠ "case-1" →
           (StorageManager.getCaseMetadata other w').1
           = (StorageManager.getCaseMetadata other aggregateWorld).1)
      ∧ (∀ absent, case_metadata w' !! absent = None →
           (StorageManager.getCaseMetadata absent w').1 = Ok None).
Proof.
  split; [vm_compute; reflexivity|].
  apply (aggregate_round_trip "case-1" {[ "reportCount" := JNum 2 ]} aggregateWorld).
  intros n. reflexivity.
Defined.

End RoundTripExamples.

(** ** The export document *)

Section ExportDocument.
Context `{Platform}.

#[local] Instance sameLocal_PreOrder : PreOrder sameLocal.
Proof. split; [intros w; apply sameLocal_refl | intros w1 w2 w3; apply sameLocal_trans]. Qed.

Lemma assign_lookup (object : JsObj) key value c :
  assign object key value !! c
  = if bool_decide (c = key ∧ key ≠ "__proto__") then Some value else object !! c.
Proof.
  unfold assign. destruct (decide (key = "__proto__")) as [Hp|Hp].
  - rewrite (bool_decide_eq_true_2 _ Hp). by rewrite bool_decide_eq_false_2 by tauto.
  - rewrite (bool_decide_eq_false_2 _ Hp). destruct (decide (c = key)) as [->|Hne].
    + rewrite lookup_insert_eq. by rewrite bool_decide_eq_true_2.
    + rewrite lookup_insert_ne by done. by rewrite bool_decide_eq_false_2 by tauto.
Qed.

Lemma foldl_entries_lookup (f : string → JsVal) cases (acc : JsObj) c :
  foldl (λ (acc : JsObj) c, assign acc c (f c)) acc cases !! c
  = if bool_decide (c ∈ cases ∧ c ≠ "__proto__") then Some (f c) else acc !! c.
Proof.
  revert acc. induction cases as [|c' cases IH]; intros acc; cbn [foldl].
  - rewrite bool_decide_eq_false_2; [done|]. intros [[]%elem_of_nil _].
  - rewrite IH, assign_lookup. destruct (decide (c ∈ cases ∧ c ≠ "__proto__")) as [Hin|Hin].
    + rewrite (bool_decide_eq_true_2 _ Hin).
      rewrite bool_decide_eq_true_2; [done|]. split; [right|]; tauto.
    + rewrite (bool_decide_eq_false_2 _ Hin).
      destruct (decide (c = c' ∧ c' ≠ "__proto__")) as [[-> Hp]|Hne].
      * rewrite (bool_decide_eq_true_2 (c' = c' ∧ _)) by done.
        rewrite bool_decide_eq_true_2; [done|]. split; [by left | done].
      * rewrite (bool_decide_eq_false_2 _ Hne).
        rewrite bool_decide_eq_false_2; [done|].
        intros [[->|?]%elem_of_cons ?]; tauto.
Qed.

Lemma hasCaseId_true c (r : JsObj) :
  IndexedDBStorage.hasCaseId c r = true ↔ prop r "caseId" = JStr c.
Proof.
  unfold IndexedDBStorage.hasCaseId. destruct (prop r "caseId"); try done.
  rewrite bool_decide_eq_true. naive_solver.
Qed.

Lemma reportsOf_nonempty c w :
  reportsOf c w ≠ [] ↔ ∃ r, r ∈ reports w ∧ prop r "caseId" = JStr c.
Proof.
  unfold reportsOf. split.
  - destruct (List.filter _ _) as [|r rs] eqn:Hf; [done|]. intros _.
    assert (In r (List.filter (IndexedDBStorage.hasCaseId c) (reports w))) as Hr
      by (rewrite Hf; by left).
    apply List.filter_In in Hr as [Hr Hc]. exists r.
    split; [by apply list_elem_of_In | by apply hasCaseId_true].
  - intros (r & Hr & Hc) Hnil.
    assert (In r (List.filter (IndexedDBStorage.hasCaseId c) (reports w))) as Hin.
    { apply List.filter_In. split; [by apply list_elem_of_In | by apply hasCaseId_true]. }
    by rewrite Hnil in Hin.
Qed.

(** X14. What an export holds.  exportAllData never writes to the local
    stores, whether it succeeds or fails, and rejects with the error of
    the first failing read.  On a database that rejects nothing, the
    document is stamped with the clock reading taken after the list of
    cases was read, and its cases object has an entry exactly for every
    caseId that has a stored report and is neither empty nor __proto__.
    A case that has evidence or an aggregate but no report is not
    exported; and a case called __proto__ is not exported either, since
    assigning to that key of the cases object sets its prototype and adds
    no entry. *)
Theorem export_lists_report_cases w :
  sameLocal w (StorageManager.exportAllData w).2
  ∧ (∀ e, fault w (tick w) = Some e →
       StorageManager.exportAllData w = (Err e, bumpTick w))
  ∧ (localOk w →
     ∃ entries,
       (StorageManager.exportAllData w).1
       = Ok (JObj {[ "cases" := JObj entries;
                     "exportedAt" := JStr (toISOString (clock w (S (tick w)))) ]})
       ∧ (∀ caseId, caseId ≠ "" → caseId ≠ "__proto__" → reportsOf caseId w ≠ [] →
            entries !! caseId = Some (entryOf caseId w))
       ∧ (∀ caseId, caseId = "" ∨ caseId = "__proto__" ∨ reportsOf caseId w = [] →
            entries !! caseId = None)).
Proof.
  split_and!.
  - apply (keeps_exportAllData (λ _, sameLocal)) with (c := ""); auto.
  - intros e He. unfold StorageManager.exportAllData, StorageManager.getAllCases,
      IndexedDBStorage.getAllCases.
    apply bind_err, bind_err. by apply idbRequest_err.
  - intros Hok. unfold StorageManager.exportAllData.
    rewrite (bind_ok _ _ _ _ _ (getAllCases_run w (Hok _))).
    rewrite (bind_ok dateNow _ _ _ _ eq_refl).
    set (cases := IndexedDBStorage.distinct _).
    set (w3 := bumpTick (bumpTick w)).
    assert (sameLocal w w3) as Hl by by split.
    destruct (exportCases_run cases ∅ w3 (sameLocal_localOk _ _ Hl Hok))
      as (w' & Hrun & _).
    rewrite (bind_ok _ _ _ _ _ Hrun). cbn [fst ret].
    eexists. split; [reflexivity|].
    assert (∀ c, c ∈ cases ↔ c ≠ "" ∧ reportsOf c w ≠ []) as Hcases.
    { intros c. unfold cases. rewrite getAllCases_members.
      by rewrite reportsOf_nonempty. }
    split.
    + intros c Hc Hp Hr.
      rewrite (foldl_entries_lookup (λ c, entryOf c w3) cases ∅ c).
      rewrite bool_decide_eq_true_2; [done|]. split; [by apply Hcases | done].
    + intros c Hc.
      rewrite (foldl_entries_lookup (λ c, entryOf c w3) cases ∅ c).
      rewrite bool_decide_eq_false_2; [apply lookup_empty|].
      intros [[? ?]%Hcases ?]. by destruct Hc as [?|[?|?]].
Qed.

End ExportDocument.

(** ** The file type histogram *)

Section Histogram.
Context `{Platform}.

Lemma append_cons c s t : String c s +:+ t = String c (s +:+ t).
Proof. reflexivity. Qed.

Lemma append_empty_l s : "" +:+ s = s.
Proof. reflexivity. Qed.

Lemma append_empty_r s : s +:+ "" = s.
Proof. induction s as [|c s IH]; [done|]. by rewrite append_cons, IH. Qed.

Lemma append_append s1 s2 s3 : (s1 +:+ s2) +:+ s3 = s1 +:+ (s2 +:+ s3).
Proof. induction s1 as [|c s1 IH]; [done|]. by rewrite !append_cons, IH. Qed.


Lemma setOwn_fst {A} key (value : A) object :
  (setOwn key value object).*1
  = if bool_decide (key ∈ object.*1) then object.*1 else object.*1 ++ [key].
Proof.
  induction object as [|[k v] object IH]; cbn [setOwn].
  - by rewrite bool_decide_eq_false_2 by apply not_elem_of_nil.
  - destruct (decide (k = key)) as [->|Hk].
    + rewrite (bool_decide_eq_true_2 (key = key)) by done.
      cbn [fmap list_fmap fst]. by rewrite bool_decide_eq_true_2 by by left.
    + rewrite (bool_decide_eq_false_2 (k = key)) by done.
      cbn [fmap list_fmap fst].
      change (list_fmap _ _ fst (setOwn key value object))
        with ((setOwn key value object).*1).
      change (list_fmap _ _ fst object) with (object.*1).
      rewrite IH. destruct (decide (key ∈ object.*1)) as [Hin|Hin].
      * rewrite (bool_decide_eq_true_2 _ Hin).
        by rewrite bool_decide_eq_true_2 by by right.
      * rewrite (bool_decide_eq_false_2 _ Hin).
        rewrite bool_decide_eq_false_2; [done|].
        intros [?|?]%elem_of_cons; [by subst | done].
Qed.

Lemma setOwn_NoDup {A} key (value : A) object :
  NoDup object.*1 → NoDup (setOwn key value object).*1.
Proof.
  intros Hnd. rewrite setOwn_fst. case_bool_decide as Hin; [done|].
  apply NoDup_app. split_and!; [done| |apply NoDup_singleton].
  intros x Hx ->%list_elem_of_singleton. done.
Qed.

Lemma setOwn_elem {A} key (value : A) object k v :
  NoDup object.*1 →
  (k, v) ∈ setOwn key value object
  ↔ (k ≠ key ∧ (k, v) ∈ object) ∨ (k = key ∧ v = value).
Proof.
  induction object as [|[a x] object IH]; intros Hnd; cbn [setOwn].
  - rewrite list_elem_of_singleton. setoid_rewrite elem_of_nil. naive_solver.
  - cbn [fmap list_fmap fst] in Hnd. apply NoDup_cons in Hnd as [Ha Hnd].
    change (list_fmap _ _ fst object) with (object.*1) in Ha.
    specialize (IH Hnd).
    assert (∀ y, (a, y) ∈ object → False) as Hfresh.
    { intros y Hy. apply Ha. apply list_elem_of_fmap. by exists (a, y). }
    case_bool_decide as Hak.
    + subst a. setoid_rewrite elem_of_cons. naive_solver.
    + setoid_rewrite elem_of_cons. rewrite IH. naive_solver.
Qed.

Lemma getOwn_Some {A} key (object : list (string * A)) v :
  NoDup object.*1 → getOwn key object = Some v ↔ (key, v) ∈ object.
Proof.
  induction object as [|[a x] object IH]; intros Hnd; cbn [getOwn].
  - split; [done | by intros ?%elem_of_nil].
  - cbn [fmap list_fmap fst] in Hnd. apply NoDup_cons in Hnd as [Ha Hnd].
    change (list_fmap _ _ fst object) with (object.*1) in Ha.
    assert (∀ y, (a, y) ∈ object → False) as Hfresh.
    { intros y Hy. apply Ha. apply list_elem_of_fmap. by exists (a, y). }
    rewrite elem_of_cons. case_bool_decide as Hak.
    + subst a. naive_solver.
    + rewrite (IH Hnd). naive_solver.
Qed.

Lemma getOwn_None {A} key (object : list (string * A)) :
  getOwn key object = None ↔ key ∉ object.*1.
Proof.
  induction object as [|[a x] object IH]; cbn [getOwn].
  - split; [intros _; apply not_elem_of_nil | done].
  - cbn [fmap list_fmap fst]. rewrite not_elem_of_cons. case_bool_decide as Hak.
    + subst a. naive_solver.
    + rewrite IH. naive_solver.
Qed.

Lemma fileTypes_snoc l f :
  fileTypes (l ++ [f]) = countType (typeOr f "unknown") (fileTypes l).
Proof. unfold fileTypes. by rewrite foldl_app. Qed.

Lemma filesOfType_snoc type l f :
  filesOfType type (l ++ [f])
  = (filesOfType type l + if bool_decide (typeOr f "unknown" = type) then 1 else 0)%nat.
Proof.
  unfold filesOfType. rewrite List.filter_app, length_app. cbn [List.filter].
  by destruct (bool_decide _).
Qed.

Lemma filesOfType_pos type l :
  (0 < filesOfType type l)%nat ↔ ∃ f, f ∈ l ∧ typeOr f "unknown" = type.
Proof.
  unfold filesOfType. split.
  - destruct (List.filter _ _) as [|f fs] eqn:Hf; [cbn; lia|]. intros _.
    assert (In f (List.filter (λ f, bool_decide (typeOr f "unknown" = type)) l)) as Hin
      by (rewrite Hf; by left).
    apply List.filter_In in Hin as [Hin Ht]. exists f.
    split; [by apply list_elem_of_In | by apply bool_decide_eq_true in Ht].
  - intros (f & Hf & Ht).
    assert (In f (List.filter (λ f, bool_decide (typeOr f "unknown" = type)) l)) as Hin.
    { apply List.filter_In. split; [by apply list_elem_of_In|].
      by apply bool_decide_eq_true_2. }
    destruct (List.filter _ _); [done | cbn; lia].
Qed.

(** The state of the accumulator after any number of files. *)
Lemma fileTypes_inv l :
  NoDup (fileTypes l).*1
  ∧ ∀ type count,
      (type, count) ∈ fileTypes l
      ↔ (0 < filesOfType type l)%nat ∧ type ≠ "__proto__"
        ∧ countAfter type (filesOfType type l) = Some count.
Proof.
  induction l as [|f l [Hnd IH]] using rev_ind.
  - split; [constructor|]. intros type count. cbn.
    split; [by intros ?%elem_of_nil | lia].
  - rewrite fileTypes_snoc. set (T := typeOr f "unknown").
    assert (T ≠ "__proto__" → countOf (fileTypes l) T = countAfter T (filesOfType T l))
      as Hread.
    { intros HT. unfold countOf.
      destruct (getOwn T (fileTypes l)) as [count|] eqn:Hown.
      - apply getOwn_Some in Hown; [|done]. apply IH in Hown as (_ & _ & ->). done.
      - apply getOwn_None in Hown.
        destruct (filesOfType T l) as [|n] eqn:Hn; [done|]. exfalso. apply Hown.
        apply list_elem_of_fmap. exists (T, plusOne (countAfter T n)).
        split; [done|]. apply IH. rewrite Hn. split_and!; [lia | done | done]. }
    unfold countType. fold T. case_bool_decide as HT.
    + split; [done|]. intros type count. rewrite filesOfType_snoc. fold T.
      rewrite IH. case_bool_decide as Hty; [|by rewrite Nat.add_0_r].
      subst type. naive_solver.
    + split; [by apply setOwn_NoDup|]. intros type count.
      rewrite setOwn_elem by done. rewrite filesOfType_snoc. fold T.
      rewrite (Hread HT), IH. case_bool_decide as Hty.
      * subst type. rewrite Nat.add_1_r. cbn [countAfter]. split.
        -- intros [[? _]|[_ ->]]; [done|]. split_and!; [lia | done | done].
        -- intros (_ & _ & [= <-]). by right.
      * rewrite Nat.add_0_r. naive_solver.
Qed.

Lemma countAfter_ordinary type n :
  inheritedText type = None → countAfter type (S n) = Some (Times (Z.of_nat (S n))).
Proof.
  intros Hi. induction n as [|n IH].
  - cbn. by rewrite Hi.
  - change (countAfter type (S (S n))) with (Some (plusOne (countAfter type (S n)))).
    rewrite IH. cbn [plusOne]. do 2 f_equal. lia.
Qed.

Lemma ones_snoc n : ones n +:+ "1" = ones (S n).
Proof. induction n as [|n IH]; [done|]. cbn [ones]. by rewrite append_cons, IH. Qed.

Lemma countAfter_inherited type text n :
  inheritedText type = Some text → text ≠ "" →
  countAfter type (S n) = Some (Text (text +:+ ones (S n))).
Proof.
  intros Hi Htext. induction n as [|n IH].
  - cbn. rewrite Hi. cbn. by rewrite bool_decide_eq_false_2.
  - change (countAfter type (S (S n))) with (Some (plusOne (countAfter type (S n)))).
    rewrite IH. cbn [plusOne]. rewrite bool_decide_eq_false_2.
    + by rewrite append_append, ones_snoc.
    + by destruct text.
Qed.

Lemma setOwn_total key value object :
  totalCount (setOwn key value object)
  = totalCount object + timesOf value - timesOf (default (Times 0) (getOwn key object)).
Proof.
  unfold totalCount. induction object as [|[k v] object IH]; cbn [setOwn getOwn].
  - cbn. lia.
  - case_bool_decide; [cbn; lia|]. rewrite !fmap_cons in *. cbn [foldr snd]. lia.
Qed.

Lemma fileTypes_total l :
  Forall (λ f, inheritedText (typeOr f "unknown") = None
               ∧ typeOr f "unknown" ≠ "__proto__") l →
  totalCount (fileTypes l) = Z.of_nat (length l).
Proof.
  induction l as [|f l IH] using rev_ind; [done|].
  intros [Hl [[Hi Hp] _]%Forall_cons]%Forall_app.
  rewrite fileTypes_snoc. unfold countType. rewrite bool_decide_eq_false_2 by done.
  rewrite setOwn_total, (IH Hl), length_app. cbn [length].
  destruct (fileTypes_inv l) as [Hnd Hin]. unfold countOf.
  destruct (getOwn _ (fileTypes l)) as [count|] eqn:Hown.
  - apply getOwn_Some in Hown; [|done]. apply Hin in Hown as (Hpos & _ & Hcount).
    destruct (filesOfType _ l) as [|n]; [lia|].
    rewrite (countAfter_ordinary _ n Hi) in Hcount. injection Hcount as <-.
    cbn [plusOne timesOf default id]. lia.
  - rewrite Hi. cbn. lia.
Qed.

Lemma filter_complement_Permutation {A} (p : A → bool) l :
  List.filter p l ++ List.filter (λ a, negb (p a)) l ≡ₚ l.
Proof.
  induction l as [|x l IH]; [done|]. cbn [List.filter].
  destruct (p x); cbn [negb app].
  - by rewrite IH.
  - by rewrite <- Permutation_middle, IH.
Qed.

Lemma objectEntries_Permutation {A} (object : list (string * A)) :
  objectEntries object ≡ₚ object.
Proof.
  unfold objectEntries. rewrite stableSort_Permutation.
  apply filter_complement_Permutation.
Qed.

Lemma objectEntries_plain {A} (object : list (string * A)) :
  (∀ key, key ∈ object.*1 → arrayIndex key = None) → objectEntries object = object.
Proof.
  intros Hkeys. unfold objectEntries.
  assert (Forall (λ entry, isIndex entry = false) object) as Hall.
  { apply Forall_forall. intros [k v] Hin. unfold isIndex. cbn.
    rewrite Hkeys; [done|]. apply list_elem_of_fmap. by exists (k, v). }
  clear Hkeys.
  assert (List.filter isIndex object = []) as ->.
  { induction Hall as [|entry object Hentry _ IH]; [done|]. cbn [List.filter].
    by rewrite Hentry. }
  assert (List.filter (λ entry, negb (isIndex entry)) object = object) as ->.
  { induction Hall as [|entry object Hentry _ IH]; [done|]. cbn [List.filter].
    rewrite Hentry. cbn [negb]. by rewrite IH. }
  done.
Qed.

Lemma objectEntries_index_first {A} (object : list (string * A)) :
  ∃ indexed others,
    objectEntries object = indexed ++ others
    ∧ Forall (λ entry, isIndex entry = true) indexed
    ∧ Sorted (λ a b, default 0 (arrayIndex a.1) ≤ default 0 (arrayIndex b.1)) indexed
    ∧ others = List.filter (λ entry, negb (isIndex entry)) object.
Proof.
  eexists _, _. split; [reflexivity|]. split_and!; [| |done].
  - apply Forall_forall. intros entry Hin. rewrite stableSort_Permutation in Hin.
    apply list_elem_of_In, List.filter_In in Hin. tauto.
  - apply (stableSort_key_Sorted byIndex (λ entry, default 0 (arrayIndex entry.1))).
    by intros a b _ _.
Qed.

(** X15. The file type distribution of the offline report.  Every type is
    listed once, and the type __proto__ never.  A type that plain objects
    inherit no property for is listed exactly when some file has it, files
    without a type counting as unknown, and its count is the number of
    those files; when all types are of that kind the counts add up to the
    number of files.  For a type that plain objects do inherit a property
    for, such as constructor, what is listed is not a number: it is the
    text of that property followed by one digit 1 for each file.  Section 5
    prints one line per listed type in the order of Object.entries: types
    that are array indices first, ascending, then the others in the order
    they were first met; when no type is an array index, that is the order
    in which the types were first met. *)
Theorem fileTypes_is_histogram localForensics :
  NoDup (fileTypes localForensics).*1
  ∧ (∀ count, ("__proto__", count) ∉ fileTypes localForensics)
  ∧ (∀ type count, type ≠ "__proto__" →
       (type, count) ∈ fileTypes localForensics
       ↔ (0 < filesOfType type localForensics)%nat
         ∧ countAfter type (filesOfType type localForensics) = Some count)
  ∧ (∀ type count, ordinaryType type →
       (type, count) ∈ fileTypes localForensics
       ↔ count = Times (Z.of_nat (filesOfType type localForensics))
         ∧ (0 < filesOfType type localForensics)%nat)
  ∧ (∀ type text count, inheritedText type = Some text → text ≠ "" →
       (type, count) ∈ fileTypes localForensics →
       count = Text (text +:+ ones (filesOfType type localForensics)))
  ∧ (Forall (λ f, ordinaryType (typeOr f "unknown")) localForensics →
     totalCount (fileTypes localForensics) = Z.of_nat (length localForensics))
  ∧ (ordinaryType "unknown" →
     ∀ f, f ∈ localForensics → typeMissing f = true →
       ∃ n, ("unknown", Times n) ∈ fileTypes localForensics)
  ∧ patternSection localForensics
    = [ "## 5. Pattern Analysis" +:+ LF; "**File Type Distribution:**" +:+ LF ]
      ++ (typeCountLine <$> objectEntries (fileTypes localForensics)) ++ [ "" ]
  ∧ objectEntries (fileTypes localForensics) ≡ₚ fileTypes localForensics
  ∧ (∃ indexed others,
       objectEntries (fileTypes localForensics) = indexed ++ others
       ∧ Forall (λ entry, isIndex entry = true) indexed
       ∧ Sorted (λ a b, default 0 (arrayIndex a.1) ≤ default 0 (arrayIndex b.1))
           indexed
       ∧ others = List.filter (λ entry, negb (isIndex entry)) (fileTypes localForensics))
  ∧ ((∀ f, f ∈ localForensics → arrayIndex (typeOr f "unknown") = None) →
     objectEntries (fileTypes localForensics) = fileTypes localForensics).
Proof.
  destruct (fileTypes_inv localForensics) as [Hnd Hin].
  assert (∀ type count, ordinaryType type →
            (type, count) ∈ fileTypes localForensics
            ↔ count = Times (Z.of_nat (filesOfType type localForensics))
              ∧ (0 < filesOfType type localForensics)%nat) as Hord.
  { intros type count [Hi Hp]. rewrite Hin.
    destruct (filesOfType type localForensics) as [|n]; [split; lia|].
    rewrite (countAfter_ordinary _ n Hi). split.
    - intros (_ & _ & [= <-]). split; [done | lia].
    - intros [-> _]. split_and!; [lia | done | done]. }
  split_and!; [done | | | done | | | | | apply objectEntries_Permutation
               | apply objectEntries_index_first |].
  - intros count Hc%Hin. by destruct Hc as (_ & ? & _).
  - intros type count Hp. rewrite Hin. naive_solver.
  - intros type text count Hi Htext (Hpos & _ & Hcount)%Hin.
    destruct (filesOfType type localForensics) as [|n]; [lia|].
    rewrite (countAfter_inherited type text n Hi Htext) in Hcount. congruence.
  - intros Hall. apply fileTypes_total.
    eapply Forall_impl; [exact Hall|]. by intros f [? ?].
  - intros Hunknown f Hf Hmissing.
    exists (Z.of_nat (filesOfType "unknown" localForensics)).
    apply Hord; [done|]. split; [done|]. apply filesOfType_pos. exists f.
    split; [done|]. unfold typeOr, typeMissing in *.
    destruct (Forensic.type f); [|done]. by rewrite Hmissing.
  - unfold patternSection. rewrite forEachPush_concat. cbn [app].
    replace (concat _)
      with (typeCountLine <$> objectEntries (fileTypes localForensics)); [done|].
    clear Hnd Hin Hord.
    induction (objectEntries (fileTypes localForensics)) as [|e es IH]; [done|].
    rewrite fmap_cons. cbn [map concat app]. by rewrite IH.
  - intros Hplain. apply objectEntries_plain. intros key Hkey.
    apply list_elem_of_fmap in Hkey as ([type count] & -> & Hentry).
    apply Hin in Hentry as ((f & Hf & <-)%filesOfType_pos & _). by apply Hplain.
Qed.

End Histogram.

Section HistogramExample.
#[local] Existing Instance samplePlatform.

Lemma fileTypes_is_histogram_witness :
  fileTypes oddTypes
  = [ ("image/png", Times 2);
      ("constructor", Text "function Object() { [native code] }11");
      ("7", Times 1);
      ("unknown", Times 1) ]
  ∧ (objectEntries (fileTypes oddTypes)).*1 = [ "7"; "image/png"; "constructor"; "unknown" ]
  ∧ ordinaryType "image/png"
  ∧ filesOfType "image/png" oddTypes = 2%nat
  ∧ ("image/png", Times 2) ∈ fileTypes oddTypes
  ∧ fileTypes [evidenceA; evidenceB; evidenceC]
    = [ ("application/pdf", Times 1); ("unknown", Times 1); ("image/png", Times 1) ]
  ∧ totalCount (fileTypes [evidenceA; evidenceB; evidenceC]) = 3.
Proof.
  assert (∀ type, type ≠ "constructor" → type ≠ "__proto__" → ordinaryType type) as Hord.
  { intros type Hc Hp. split; [|done]. cbn. by rewrite bool_decide_eq_false_2. }
  split_and!; [reflexivity | reflexivity | by apply Hord | reflexivity | |
               reflexivity |].
  - apply (fileTypes_is_histogram oddTypes); [by apply Hord|].
    split; [reflexivity | vm_compute; lia].
  - apply (fileTypes_is_histogram [evidenceA; evidenceB; evidenceC]).
    repeat constructor; by apply Hord.
Defined.

End HistogramExample.

(** ** Digests as hexadecimal strings *)

Section Hex.

Lemma concat_empty_cons x xs : String.concat "" (x :: xs) = x +:+ String.concat "" xs.
Proof. destruct xs; cbn; [by rewrite append_empty_r | done]. Qed.

Lemma hexOf_cons b bs : hexOf (b :: bs) = hexByte b +:+ hexOf bs.
Proof. unfold hexOf. by rewrite fmap_cons, concat_empty_cons. Qed.

Lemma hexByte_pair b :
  ∃ hi lo h l,
    hexByte b = String hi (String lo "")
    ∧ hexValue hi = Some h ∧ hexValue lo = Some l
    ∧ Byte.of_N (16 * h + l) = Some b.
Proof. destruct b; by eexists _, _, _, _. Qed.

(** X16. The hexadecimal form of a digest is faithful.  The string that
    calculateSHA256 and saveReportToDB build from the bytes of a digest
    has two characters per byte, all of them digits 0-9 or a-f, and
    determines the bytes: decoding it gives them back, so two different
    digests never get the same string. *)
Theorem hexOf_is_faithful bytes :
  unhex (hexOf bytes) = Some bytes
  ∧ String.length (hexOf bytes) = (2 * length bytes)%nat
  ∧ Forall isHexDigit (list_ascii_of_string (hexOf bytes))
  ∧ (∀ other, hexOf other = hexOf bytes → other = bytes).
Proof.
  assert (∀ bs, unhex (hexOf bs) = Some bs) as Hround.
  { induction bs as [|b bs IH]; [done|]. rewrite hexOf_cons.
    destruct (hexByte_pair b) as (hi & lo & h & l & -> & Hh & Hl & Hb).
    rewrite !append_cons, append_empty_l. cbn [unhex]. by rewrite Hh, Hl, IH, Hb. }
  split_and!.
  - apply Hround.
  - induction bytes as [|b bs IH]; [done|]. rewrite hexOf_cons.
    destruct (hexByte_pair b) as (hi & lo & h & l & -> & _).
    rewrite !append_cons, append_empty_l. cbn [String.length length]. rewrite IH. lia.
  - induction bytes as [|b bs IH]; [constructor|]. rewrite hexOf_cons.
    destruct (hexByte_pair b) as (hi & lo & h & l & -> & Hh & Hl & _).
    rewrite !append_cons, append_empty_l. cbn [list_ascii_of_string].
    repeat constructor; [by exists h | by exists l | done].
  - intros other Heq. pose proof (Hround other) as Ho.
    rewrite Heq, Hround in Ho. by injection Ho.
Qed.

End Hex.

(** ** Error diagnostics *)

Section Diagnostics.

Lemma prefix_app sub s : String.prefix sub s = true ↔ ∃ after, s = sub +:+ after.
Proof.
  revert s. induction sub as [|a sub IH]; intros s.
  - split; [intros _; exists s; reflexivity | intros _; by destruct s].
  - setoid_rewrite append_cons.
    destruct s as [|b s]; [split; [done | by intros [? ?]]|].
    cbn [String.prefix].
    destruct (ascii_dec a b) as [->|Hne].
    + rewrite IH. split; intros [after Ha]; exists after; congruence.
    + split; [done|]. intros [after Ha]. congruence.
Qed.

Lemma occursIn_cons sub c s :
  occursIn sub (String c s) ↔ (∃ after, String c s = sub +:+ after) ∨ occursIn sub s.
Proof.
  split.
  - intros ([|b before] & after & Hs).
    + left. by exists after.
    + right. exists before, after. rewrite append_cons in Hs. congruence.
  - intros [[after Hs]|(before & after & Hs)].
    + by exists "", after.
    + exists (String c before), after. by rewrite append_cons, Hs.
Qed.

Lemma includes_occursIn s sub : includes s sub = true ↔ occursIn sub s.
Proof.
  induction s as [|c s IH]; cbn [includes]; rewrite orb_true_iff, prefix_app.
  - split.
    + intros [[after Hs]|?]; [by exists "", after | done].
    + intros ([|??] & after & Hs); [left; by exists after | done].
  - by rewrite IH, occursIn_cons.
Qed.

Lemma mentions_test msg group :
  mentions msg group ↔ existsb (includes msg) group.2 = true.
Proof.
  unfold mentions. rewrite existsb_exists.
  setoid_rewrite includes_occursIn. setoid_rewrite list_elem_of_In. done.
Qed.

Lemma not_mentions_test msg group :
  ¬ mentions msg group ↔ existsb (includes msg) group.2 = false.
Proof. rewrite mentions_test. by destruct (existsb _ _). Qed.

Lemma occursIn_trans a b s : occursIn a b → occursIn b s → occursIn a s.
Proof.
  intros (b1 & b2 & ->) (s1 & s2 & ->).
  exists (s1 +:+ b1), (b2 +:+ s2).
  by rewrite !append_append.
Qed.

(** The five tests of diagnoseError, as tests of the keyword groups. *)
Lemma diagnoseError_tests error :
  let msg := thrownMessage error in
  let found := list_find (λ group, existsb (includes msg) group.2 = true) keywordGroups in
  code (diagnoseError error) = from_option (λ p, p.2.1) "UNKNOWN" found
  ∧ technicalDetails (diagnoseError error)
    = from_option (λ _, msg) (msg +:+ stackSuffix error) found.
Proof.
  cbv zeta. unfold diagnoseError, keywordGroups. cbv zeta.
  generalize (thrownMessage error +:+ stackSuffix error).
  generalize (thrownMessage error). intros msg details.
  cbn [list_find existsb snd]. rewrite !orb_false_r, !orb_assoc.
  destruct (includes msg "403" || includes msg "API key"); [by split|].
  destruct (includes msg "429" || includes msg "quota"); [by split|].
  destruct (includes msg "SAFETY" || includes msg "blocked"); [by split|].
  destruct (includes msg "fetch" || includes msg "network" || includes msg "Failed to fetch");
    [by split|].
  destruct (includes msg "FileReader" || includes msg "read"); by split.
Qed.

Lemma found_first msg (groups : list (string * list string)) i group :
  groups !! i = Some group →
  mentions msg group →
  (∀ j earlier, (j < i)%nat → groups !! j = Some earlier → ¬ mentions msg earlier) →
  list_find (λ g, existsb (includes msg) g.2 = true) groups = Some (i, group).
Proof.
  intros Hi Hm Hearlier. apply list_find_Some. split_and!; [done | by apply mentions_test|].
  intros j earlier Hj Hlt. rewrite <- mentions_test. by apply (Hearlier j).
Qed.

Lemma found_none msg (groups : list (string * list string)) :
  (∀ group, group ∈ groups → ¬ mentions msg group)
  ↔ list_find (λ g, existsb (includes msg) g.2 = true) groups = None.
Proof.
  rewrite list_find_None, Forall_forall. by setoid_rewrite mentions_test.
Qed.

Lemma found_code msg i group :
  list_find (λ g, existsb (includes msg) g.2 = true) keywordGroups = Some (i, group) →
  group.1 ≠ "UNKNOWN" ∧ group.1 ≠ "FILE_IO" ∨ (i = 4%nat ∧ group.1 = "FILE_IO").
Proof.
  intros (Hi & _ & _)%list_find_Some. unfold keywordGroups in Hi.
  destruct i as [|[|[|[|[|i]]]]]; simplify_eq/=; auto.
Qed.

(** X17. diagnoseError reports the first keyword group, in the order
    authorization, quota, safety, network, file reading, of which a
    keyword occurs somewhere in the message, and gives the message as the
    technical details; it reports UNKNOWN exactly when no keyword of any
    group occurs, and then appends the stack, if there is one, to the
    details.  The test for the words Failed to fetch never decides
    anything: a message that has them has the word fetch. *)
Theorem diagnoseError_first_match error :
  let msg := thrownMessage error in
  let diagnosis := diagnoseError error in
  (∀ i group, keywordGroups !! i = Some group → mentions msg group →
     (∀ j earlier, (j < i)%nat → keywordGroups !! j = Some earlier →
        ¬ mentions msg earlier) →
     code diagnosis = group.1 ∧ technicalDetails diagnosis = msg)
  ∧ (code diagnosis = "UNKNOWN"
     ↔ ∀ group, group ∈ keywordGroups → ¬ mentions msg group)
  ∧ (code diagnosis = "UNKNOWN" →
     technicalDetails diagnosis = msg +:+ stackSuffix error)
  ∧ (occursIn "Failed to fetch" msg → occursIn "fetch" msg).
Proof.
  cbv zeta. destruct (diagnoseError_tests error) as [Hc Ht]. cbv zeta in Hc, Ht.
  split_and!.
  - intros i group Hi Hm Hearlier.
    by rewrite Hc, Ht, (found_first _ _ i group Hi Hm Hearlier).
  - rewrite found_none, Hc.
    destruct (list_find _ _) as [[i group]|] eqn:Hfound; [|done]. cbn.
    split; [|done]. intros Hu. by destruct (found_code _ _ _ Hfound) as [[? _]|[_ ?]]; congruence.
  - rewrite Hc, Ht.
    destruct (list_find _ _) as [[i group]|] eqn:Hfound; [|done]. cbn.
    intros Hu. by destruct (found_code _ _ _ Hfound) as [[? _]|[_ ?]]; congruence.
  - apply occursIn_trans. by exists "Failed to ", "".
Qed.




End Diagnostics.

(** ** The persistence step of handleSubmit *)

Section SubmissionFlow.
Context `{Platform}.
Context (sha256 : list Byte.byte → list Byte.byte).

#[local] Existing Instance touchesOnly_PreOrder.








Lemma find_describe (P : string → bool) files :
  List.find (λ f, P (Forensic.name f)) (runLocalForensics sha256 files)
  = describe sha256 <$> List.find (λ f, P (File.name f)) files.
Proof.
  induction files as [|f files IH]; [done|].
  cbn. destruct (P (File.name f)); [done | apply IH].
Qed.

Lemma firstNamed_own files file :
  file ∈ files → NoDup (File.name <$> files) → firstNamed files file = Some file.
Proof.
  unfold firstNamed. induction files as [|f files IH]; [by intros ?%elem_of_nil|].
  rewrite fmap_cons, NoDup_cons. intros [->|Hin]%elem_of_cons [Hf Hnd]; cbn.
  - by rewrite bool_decide_eq_true_2.
  - rewrite bool_decide_eq_false_2; [by apply IH|].
    intros Heq. apply Hf. rewrite Heq. apply list_elem_of_fmap. by exists file.
Qed.

Lemma firstNamed_some files file :
  file ∈ files →
  ∃ first, firstNamed files file = Some first
           ∧ first ∈ files ∧ File.name first = File.name file.
Proof.
  unfold firstNamed. induction files as [|f files IH]; [by intros ?%elem_of_nil|].
  intros Hin. cbn. case_bool_decide as Hf.
  - exists f. split_and!; [done | by left | done].
  - apply elem_of_cons in Hin as [->|Hin]; [done|].
    destruct (IH Hin) as (first & -> & ? & ?). exists first. split_and!; [done | by right | done].
Qed.

(** X20. Which digest an evidence record gets.  With the descriptors that
    local forensics makes of the selection, the digest looked up for a
    selected file is the digest of the first file of the selection that
    has the same name: the file's own digest when no two selected files
    share a name, and the digest of an earlier file otherwise.  Before
    any descriptor exists the digest is the empty string. *)
Theorem stored_digest_is_first_of_name files file :
  file ∈ files →
  (∃ first,
     firstNamed files file = Some first
     ∧ File.name first = File.name file
     ∧ hashFor (runLocalForensics sha256 files) file = calculateSHA256 sha256 first)
  ∧ (NoDup (File.name <$> files) →
     hashFor (runLocalForensics sha256 files) file = calculateSHA256 sha256 file)
  ∧ hashFor [] file = "".
Proof.
  intros Hin.
  assert (∀ first, firstNamed files file = Some first →
            hashFor (runLocalForensics sha256 files) file = calculateSHA256 sha256 first)
    as Hfirst.
  { intros first Hf. unfold hashFor.
    pose proof (find_describe (λ name, bool_decide (name = File.name file)) files) as Hfd.
    cbv beta in Hfd. rewrite Hfd.
    unfold firstNamed in Hf. rewrite Hf. cbn. by case_bool_decide as He; [rewrite He|]. }
  split_and!.
  - destruct (firstNamed_some files file Hin) as (first & Hf & _ & Hname).
    exists first. split_and!; [done | done | by apply Hfirst].
  - intros Hnd. by apply Hfirst, firstNamed_own.
  - reflexivity.
Qed.

End SubmissionFlow.

Section SubmissionExample.

Lemma stored_digest_is_first_of_name_witness :
  File.name scanB = File.name scanA
  ∧ calculateSHA256 (λ bytes, bytes) scanA = "255044"
  ∧ calculateSHA256 (λ bytes, bytes) scanB = "00ff7f"
  ∧ hashFor (runLocalForensics (λ bytes, bytes) [scanA; scanB]) scanB = "255044".
Proof.
  split_and!; [reflexivity..|].
  destruct (stored_digest_is_first_of_name (λ bytes, bytes) [scanA; scanB] scanB)
    as ((first & Hfirst & _ & Hhash) & _).
  { right. left. }
  injection Hfirst as <-. exact Hhash.
Defined.

End SubmissionExample.

(** ** The people of a master case file *)

Section MasterFile.

Lemma person_key (p : JsObj) name :
  extractedShape p →
  strictEquals (prop p "subtype") (JStr "person") = true →
  prop p "value" = JStr name → name ≠ "" →
  dedupKey p = "entity-person-" +:+ name.
Proof.
  intros Hshape Hsub Hv Hne. unfold extractedShape in Hshape. unfold dedupKey. rewrite Hv.
  destruct (prop p "subtype") as [| | | |s| | |] eqn:Hs; try done.
  cbn in Hsub. apply bool_decide_eq_true in Hsub as ->.
  destruct Hshape as [(_ & [=] & _)|[(_ & [=] & _)|(-> & _)]].
  unfold jsOr. cbn [truthy toStr].
  rewrite !bool_decide_eq_false_2 by done. cbn [negb].
  reflexivity.
Qed.

Lemma bySubtype_elem subtype index p :
  p ∈ bySubtype subtype index
  ↔ p ∈ index ∧ strictEquals (prop p "subtype") (JStr subtype) = true.
Proof. unfold bySubtype. by rewrite !list_elem_of_In, List.filter_In. Qed.

Lemma filter_sublist {A} (P : A → bool) l : List.filter P l `sublist_of` l.
Proof.
  induction l as [|x l IH]; [done|]. cbn.
  destruct (P x); [by apply sublist_skip | by apply sublist_cons].
Qed.

Lemma strictEquals_strings (a b : JsVal) x y :
  a = JStr x → b = JStr y → strictEquals a b = bool_decide (x = y).
Proof. by intros -> ->. Qed.

Lemma uniqueValues_NoDup (values : list JsVal) :
  Forall (λ v, ∃ s, v = JStr s) values → NoDup values → uniqueValues values = values.
Proof.
  induction 1 as [|v values [s ->] Hall IH]; [done|].
  intros [Hv Hnd]%NoDup_cons. cbn [uniqueValues]. rewrite IH by done. f_equal.
  clear IH Hnd. induction Hall as [|w values [t ->] Hall IH]; [done|].
  apply not_elem_of_cons in Hv as [Hne Hv]. cbn.
  rewrite bool_decide_eq_false_2 by congruence. cbn. f_equal. by apply IH.
Qed.

Lemma occurrences_one (people : list JsObj) p :
  Forall named people →
  NoDup ((λ p, prop p "value") <$> people) →
  p ∈ people →
  length (List.filter (λ q, strictEquals (prop q "value") (prop p "value")) people) = 1%nat.
Proof.
  intros Hall Hnd Hp.
  assert (∀ people', Forall named people' →
            (prop p "value" ∉ (λ p, prop p "value") <$> people') →
            List.filter (λ q, strictEquals (prop q "value") (prop p "value")) people' = [])
    as Hnone.
  { induction 1 as [|q qs (t & Hq & _) _ IH]; [done|].
    rewrite fmap_cons. intros [Hne Hnot]%not_elem_of_cons. cbn.
    rewrite Hq in Hne |- *. destruct (prop p "value"); cbn; try by apply IH.
    rewrite bool_decide_eq_false_2 by congruence. by apply IH. }
  induction Hall as [|q qs (t & Hq & _) Hall IH]; [by apply elem_of_nil in Hp|].
  rewrite fmap_cons in Hnd. apply NoDup_cons in Hnd as [Hq' Hnd].
  apply elem_of_cons in Hp as [->|Hp].
  - cbn. rewrite Hq. cbn. rewrite bool_decide_eq_true_2 by done. cbn.
    rewrite <- Hq. by rewrite Hnone.
  - cbn. assert (prop q "value" ≠ prop p "value") as Hne.
    { intros Heq. apply Hq'. rewrite Heq. apply list_elem_of_fmap. by exists p. }
    destruct (strictEquals (prop q "value") (prop p "value")) eqn:Hs; [|by apply IH].
    destruct Hne. rewrite Hq in Hs |- *.
    destruct (prop p "value"); try done. cbn in Hs.
    by apply bool_decide_eq_true in Hs as ->.
Qed.

Lemma foldl_lines {A B} (f g : A → string) (h : B → A) start (l : list B) :
  (∀ x, x ∈ l → f (h x) = g (h x)) →
  foldl (λ markdown a, markdown +:+ f a) start (h <$> l)
  = foldl (λ markdown x, markdown +:+ g (h x)) start l.
Proof.
  revert start. induction l as [|x l IH]; intros start Hfg; [done|].
  cbn. rewrite Hfg by by left. apply IH. intros y Hy. apply Hfg. by right.
Qed.

(** X21. In a master case file every person has one reference.  When the
    narrative index has one entry per dedup key, as the aggregate that
    saveReportToDB stores has, and its entries have the shapes
    extractNarrativeIndex gives them, with names that are strings, the
    people block lists every person entry once, in the order of the
    index, each with the count 1: the plural is never printed. *)
Theorem people_have_one_reference narrativeIndex :
  NoDup (keysOf narrativeIndex) →
  Forall extractedShape narrativeIndex →
  Forall named (bySubtype "person" narrativeIndex) →
  let people := bySubtype "person" narrativeIndex in
  (∀ p, p ∈ people → referenceLine people (prop p "value") = oneReference p)
  ∧ uniqueValues ((λ p, prop p "value") <$> people) = (λ p, prop p "value") <$> people
  ∧ peopleBlock narrativeIndex
    = if 0 <? Z.of_nat (length people)
      then foldl (λ markdown p, markdown +:+ oneReference p)
             ("**People:**" +:+ LF) people +:+ LF
      else "".
Proof.
  intros Hnd Hshape Hnamed people.
  assert (NoDup ((λ p, prop p "value") <$> people)) as Hvalues.
  { assert (NoDup (keysOf people)) as Hkeys.
    { unfold keysOf in *. eapply sublist_NoDup; [exact Hnd|]. apply fmap_sublist, filter_sublist. }
    assert (∀ p, p ∈ people → ∃ name, prop p "value" = JStr name
                                     ∧ dedupKey p = "entity-person-" +:+ name) as Hkey.
    { intros p Hp. rewrite Forall_forall in Hnamed, Hshape.
      destruct (Hnamed p Hp) as (name & Hv & Hne). exists name. split; [done|].
      apply bySubtype_elem in Hp as [Hin Hsub]. by apply person_key; [apply Hshape|..]. }
    clearbody people. clear Hnamed.
    induction people as [|p people IH]; [constructor|].
    rewrite fmap_cons. unfold keysOf in Hkeys. rewrite fmap_cons in Hkeys.
    apply NoDup_cons in Hkeys as [Hp Hkeys]. constructor.
    - intros (q & Hq & Hin)%list_elem_of_fmap. apply Hp.
      apply list_elem_of_fmap. exists q. split; [|done].
      destruct (Hkey p) as (np & Hvp & ->); [by left|].
      destruct (Hkey q) as (nq & Hvq & ->); [by right|]. congruence.
    - apply IH; [done|]. intros q Hq. apply Hkey. by right. }
  assert (∀ p, p ∈ people → referenceLine people (prop p "value") = oneReference p)
    as Hline.
  { intros p Hp. unfold referenceLine. cbv zeta.
    by rewrite (occurrences_one people p Hnamed Hvalues Hp). }
  assert (uniqueValues ((λ p, prop p "value") <$> people)
          = (λ p, prop p "value") <$> people) as Hunique.
  { apply uniqueValues_NoDup; [|done]. apply Forall_fmap.
    eapply Forall_impl; [exact Hnamed|]. intros p (name & Hv & _). by exists name. }
  split_and!; [done | done|].
  unfold peopleBlock. cbv zeta. fold people. destruct (0 <? _); [|done].
  rewrite Hunique. f_equal.
  apply (foldl_lines (referenceLine people) (λ v, "- " +:+ toStr v +:+ " (1 reference)" +:+ LF)
           (λ p, prop p "value")).
  intros p Hp. by rewrite Hline.
Qed.

End MasterFile.

Section MasterFileExample.

Lemma people_have_one_reference_witness :
  bySubtype "person" [factSection; factPerson; factDate] = [factPerson]
  ∧ peopleBlock [factSection; factPerson; factDate]
    = "**People:**" +:+ LF +:+ "- Ada Lovelace (1 reference)" +:+ LF +:+ LF.
Proof.
  split; [reflexivity|].
  destruct (people_have_one_reference [factSection; factPerson; factDate])
    as (_ & _ & Hblock).
  - assert (keysOf [factSection; factPerson; factDate]
            = ["section-2-Parties"; "entity-person-Ada Lovelace"; "entity-date-2025-09-19"])
      as -> by (vm_compute; reflexivity).
    apply NoDup_ListNoDup. repeat constructor; cbn; intuition discriminate.
  - constructor; [left; by split_and!|].
    constructor; [right; right; split; [reflexivity | left; reflexivity]|].
    constructor; [right; right; split; [reflexivity | right; left; reflexivity]|].
    constructor.
  - constructor; [|constructor]. by exists "Ada Lovelace".
  - rewrite Hblock. reflexivity.
Defined.

End MasterFileExample.

(** ** The offline report names every file *)

Section OfflineReport.
Context `{Platform}.





End OfflineReport.

(** ** The replica document of a report *)

Section ReplicaDocument.
Context `{Platform}.

Lemma syncReport_run caseId (data : JsObj) w docs :
  firestore w = Some docs →
  prop data "id" = JUndef →
  replicaFault w (2 + tick w)%nat = None →
  FirebaseSync.syncReport caseId data w
  = (Ok (),
     setFirestore
       (<["cases/" +:+ caseId +:+ "/reports/" +:+ pretty (clock w (tick w))
          := <["syncedAt" := JNum (clock w (S (tick w)))]> data]> docs)
       (bumpTick (bumpTick (bumpTick w)))).
Proof.
  intros Hfs Hid Hrf. unfold FirebaseSync.syncReport.
  rewrite (bind_ok FirebaseSync.isAvailable _ w true w)
    by (unfold FirebaseSync.isAvailable; by rewrite Hfs).
  cbn [negb]. unfold FirebaseSync.docId. rewrite Hid. cbn [truthy].
  unfold tryCatch, bind, dateNow, ret, FirebaseSync.setDoc.
  cbn [firestore bumpTick tick clock replicaFault].
  change (2 + tick w)%nat with (S (S (tick w))) in Hrf. by rewrite Hfs, Hrf.
Qed.

(** X23. How a report is keyed on the replica.  When a replica is
    configured and neither store fails, saving a report whose data has no
    id writes the data, with the time of the sync and without the caseId
    and timestamp of the local record, to the document of the case that is
    named by the clock reading taken for it: a report document that
    already has that name is replaced, and all other documents are as they
    were. *)
Theorem replicated_report_is_keyed_by_clock caseId content evidence metadata docs w :
  firestore w = Some docs →
  fault w (tick w) = None →
  replicaFault w (4 + tick w)%nat = None →
  prop (reportData content evidence metadata) "id" = JUndef →
  let path := "cases/" +:+ caseId +:+ "/reports/" +:+ pretty (clock w (2 + tick w)%nat) in
  let document :=
    <["syncedAt" := JNum (clock w (3 + tick w)%nat)]>
      (reportData content evidence metadata) in
  (StorageManager.saveReport caseId content evidence metadata w).1 = Ok ()
  ∧ firestore (StorageManager.saveReport caseId content evidence metadata w).2
    = Some (<[path := document]> docs)
  ∧ document !! "caseId" = reportData content evidence metadata !! "caseId"
  ∧ document !! "timestamp" = reportData content evidence metadata !! "timestamp".
Proof.
  intros Hfs Hf Hrf Hid. cbv zeta.
  unfold StorageManager.saveReport. cbv zeta. fold (reportData content evidence metadata).
  set (data := reportData content evidence metadata) in *.
  rewrite (bind_ok _ _ _ _ _ (saveReport_run caseId data w Hf)). cbv zeta.
  set (record := IndexedDBStorage.withKey _ _).
  set (w1 := setReports _ _ _).
  assert (firestore w1 = Some docs) as Hfs1 by done.
  rewrite (bind_ok FirebaseSync.isAvailable _ w1 true w1)
    by (unfold FirebaseSync.isAvailable; by rewrite Hfs1).
  rewrite (syncReport_run caseId data w1 docs Hfs1 Hid Hrf).
  split_and!; [done | done | by rewrite lookup_insert_ne..].
Qed.

End ReplicaDocument.

Section ReplicaDocumentExample.
#[local] Existing Instance samplePlatform.

Lemma replicated_report_is_keyed_by_clock_witness :
  replicaField (StorageManager.saveReport "case-1" "Findings" ["a.pdf"] None replicaWorld).2
    "cases/case-1/reports/2000" "content" = Some (JStr "Findings")
  ∧ replicaField (StorageManager.saveReport "case-1" "Findings" ["a.pdf"] None replicaWorld).2
      "cases/case-1/reports/2000" "caseId" = None.
Proof.
  destruct (replicated_report_is_keyed_by_clock "case-1" "Findings" ["a.pdf"] None ∅
              replicaWorld) as (_ & Hdocs & _); [reflexivity..|].
  cbv zeta in Hdocs. unfold replicaField. rewrite Hdocs.
  split; vm_compute; reflexivity.
Defined.

End ReplicaDocumentExample.
